(** * World of Bits: the cell-state core of the four snapshots of [main.ts]

    The repository holds four snapshots of the same program:
    - [src/unnamed/part_000]  (D3.a) a fixed grid around the origin, tokens
      seeded by the [luck] hash;
    - [src/src/main.ts]       (D3.b) a moving player, cells kept in [cellMap]
      only while they are inside the render window;
    - [src/unnamed/part_002]  (D3.c) the [modifiedCells] store
      (flyweight + memento);
    - [src/unnamed/part_001]  the same store plus movement modes and the
      [localStorage] codec.

    Each snapshot is embedded in a module of its own, named after its file.

    Conventions of the embedding.
    - A JavaScript [number] is an exact rational ([Q]): no rounding, no NaN
      and no infinity.  [===] on numbers is [Qeq_bool], [Math.floor] is
      [Qfloor], [2 ** n] is [Qpower 2 n].
    - Cell indices come out of [Math.floor] and integer loop counters; they
      are integers ([Z]).  A [Map] key [`${i},${j}`] is the decimal string
      built by [cellKey].
    - [crypto.getRandomValues] / [Math.random] is an external stream of
      draws; a state carries the stream and the number of draws consumed.
    - Leaflet layers are reduced to what the core reads back from them: which
      cell rectangles are on the map.  Event dispatch inside Leaflet is not
      modelled; every handler of the program is a function on states. *)

From stdpp Require Import gmap strings list fin_maps pretty.
From Stdlib Require Import Ascii QArith Qround Qpower Qabs.

Local Open Scope Z_scope.

#[local] Set Warnings "-clear-no-such-hyp".

(** ** JavaScript numbers *)

Abbreviation number := Q.

(** [2 ** n] for an integer-valued exponent. *)
Definition js_pow2 (n : Z) : number := Qpower 2 n.

(** [a === b] on two values of type [number | null]. *)
Definition strict_eq (a b : option number) : bool :=
  match a, b with
  | None, None => true
  | Some x, Some y => Qeq_bool x y
  | _, _ => false
  end.

(** [heldToken !== null && heldToken >= target] *)
Definition reaches (held : option number) (target : number) : bool :=
  match held with
  | None => false
  | Some h => Qle_bool target h
  end.

(** ** Constants shared by all snapshots *)

Definition TILE_DEGREES : number := 1 # 10000.
Definition INTERACT_RANGE : Z := 3.
Definition TOKEN_SPAWN_PROBABILITY : number := 12 # 100.
Definition TARGET_VALUE_NOTIFY : number := 8.
Definition TARGET_MAX_TOKEN : number := 32.

(** ** Positions and cells *)

Record LatLng := mkLatLng { lat : number; lng : number }.

Definition FALLBACK_LATLNG : LatLng :=
  mkLatLng (36997936938057016 # 1000000000000000)
           (- (122057035075011510 # 1000000000000000)).

Record Cell := mkCell { ci : Z; cj : Z }.

Global Instance Cell_eq_dec : EqDecision Cell.
Proof. solve_decision. Defined.

(** [latLngToCell], with the origin it reads from the global
    [PLAYER_START_LATLNG] made explicit. *)
Definition latLngToCell (origin : LatLng) (p : LatLng) : Cell :=
  let dlat := (lat p - lat origin)%Q in
  let dlng := (lng p - lng origin)%Q in
  mkCell (Qfloor (dlat / TILE_DEGREES)) (Qfloor (dlng / TILE_DEGREES)).


(** The keys the ["keydown"] listener tells apart: the arrows (and their
    letters w, s, a, d in either case), and any other key. *)
Inductive key := ArrowUp | ArrowDown | ArrowLeft | ArrowRight | OtherKey.

Definition PAN_TILES : Z := 1.

(** The centre that [panByTiles(di, dj)] / [move(di, dj)] hands to
    [map.setView], from the map's current centre. *)
Definition panned (center : LatLng) (di dj : Z) : LatLng :=
  mkLatLng (lat center + inject_Z di * TILE_DEGREES * inject_Z PAN_TILES)
           (lng center + inject_Z dj * TILE_DEGREES * inject_Z PAN_TILES).

(** [cellKey(i, j)] is the template string [`${i},${j}`]. *)
Definition cellKey (i j : Z) : string :=
  pretty i +:+ "," +:+ pretty j.

(** [Math.abs(i - p.i) <= R && Math.abs(j - p.j) <= R] *)
Definition within (R : Z) (p : Cell) (i j : Z) : bool :=
  bool_decide (Z.abs (i - ci p) ≤ R) && bool_decide (Z.abs (j - cj p) ≤ R).

(** The cells visited by
    [for (di = -R; di <= R; di++) for (dj = -R; dj <= R; dj++)]
    around the cell [c], in iteration order. *)
Definition windowCells (c : Cell) (R : Z) : list Cell :=
  di ← seqZ (- R) (2 * R + 1);
  dj ← seqZ (- R) (2 * R + 1);
  [mkCell (ci c + di) (cj c + dj)].

(** ** The external random source *)

Record Entropy := mkEntropy { source : nat → number; used : nat }.

(** One call of [ephemeralRandom()] / [randomFast()]: the next draw. *)
Definition draw (e : Entropy) : number * Entropy :=
  (source e (used e), mkEntropy (source e) (S (used e))).

(** The generator body common to the snapshots that draw at random:
    [if (random() < P) token = 2 ** (1 + Math.floor(random() * 5))]. *)
Definition spawn (e : Entropy) : option number * Entropy :=
  let '(r1, e1) := draw e in
  if Qlt_le_dec r1 TOKEN_SPAWN_PROBABILITY then
    let '(r2, e2) := draw e1 in
    (Some (js_pow2 (1 + Qfloor (r2 * 5))), e2)
  else (None, e1).

(** A draw is a fraction in [0, 1]: [arr[0] / 0xffffffff] or [Math.random()]. *)
Definition fair (e : Entropy) : Prop :=
  ∀ n, (0 <= source e n)%Q ∧ (source e n <= 1)%Q.

(** Random sources used in the examples: [calm] never spawns a token;
    [generous] spawns a 2 in every cell; [one_token r], read by the first
    rendering of a 25 x 25 window (one draw per empty cell, row by row),
    spawns a single token, in the window's central cell, its value drawn
    as [r]. *)
Definition calm : Entropy := mkEntropy (λ _, 1 # 2) 0.
Definition generous : Entropy := mkEntropy (λ _, 0%Q) 0.
Definition one_token (r : number) : Entropy :=
  mkEntropy (λ n, if (n =? 312)%nat then 0%Q
                  else if (n =? 313)%nat then r else 1 # 2) 0.

Definition origin0 : LatLng := mkLatLng 0 0.

(** A source all of whose draws are [r]. *)
Definition steady (r : number) (e : Entropy) : Prop := ∀ n, source e n = r.

(** ** Token values *)

(** A power of two that is at least 2. *)
Definition pow2_token (v : number) : Prop :=
  ∃ k : Z, 1 ≤ k ∧ (v == inject_Z (2 ^ k))%Q.

Definition content_ok (c : option number) : Prop :=
  match c with
  | None => True
  | Some v => pow2_token v
  end.

(** The store holds tokens of the power-of-two family only. *)
Definition store_ok (m : gmap string (option number)) : Prop :=
  ∀ k c, m !! k = Some c → content_ok c.

(** The keys of the cells of a window. *)
Definition windowKeys (c : Cell) (R : Z) : gset string :=
  list_to_set ((λ x, cellKey (ci x) (cj x)) <$> windowCells c R).

(** ** What an interaction is judged on *)

(** The held token, the content of the cell interacted with, the score. *)
Record view := mkView {
  hand : option number;
  cell : option number;
  score : number;
}.

(** Pick-up, place and craft, as relations between the views before and
    after an interaction. *)
Definition picks_up (before after : view) : Prop :=
  ∀ v, hand before = None → cell before = Some v →
    hand after = Some v ∧ cell after = None ∧
    score after = (score before + 1)%Q.

Definition places (before after : view) : Prop :=
  ∀ v, hand before = Some v → cell before = None →
    cell after = Some v ∧ hand after = None ∧ score after = score before.

Definition crafts (before after : view) : Prop :=
  ∀ v w, hand before = Some v → cell before = Some w → (w == v)%Q →
    cell after = None ∧ hand after = Some (v * 2)%Q ∧
    score after = (score before + 2)%Q.

(** The hand holds a token that differs from the cell's token. *)
Definition mismatched (before : view) : Prop :=
  ∃ v w, hand before = Some v ∧ cell before = Some w ∧ ¬ (w == v)%Q.

(** The three transitions of the crafting table together. *)
Definition follows_rules (before after : view) : Prop :=
  picks_up before after ∧ places before after ∧ crafts before after.

(** * [src/unnamed/part_000]: fixed grid, tokens seeded by [luck] *)

Module Part000.

Definition RENDER_RADIUS : Z := 60.

(** [CellInfo] without its Leaflet rectangle and label. *)
Record CellInfo := mkCellInfo { i : Z; j : Z; value : option number }.

Record state := mkState {
  ORIGIN_LATLNG : LatLng;
  playerPoints : number;
  heldToken : option number;
  cellMap : gmap string CellInfo;
}.

(** What the click handler shows on the rectangle's border. *)
Inductive Signal := Quiet | FlashOutOfRange | FlashIncompatible.

Definition canInteract (i j : Z) : bool :=
  bool_decide (Z.abs i ≤ INTERACT_RANGE) && bool_decide (Z.abs j ≤ INTERACT_RANGE).

Definition set_cell (key : string) (info : CellInfo) (s : state) : state :=
  mkState (ORIGIN_LATLNG s) (playerPoints s) (heldToken s)
          (<[key := info]> (cellMap s)).

Section WithLuck.
(** [luck] is imported from [./_luck.ts], which is not part of the sources:
    a hash from seed strings to fractions. *)
Variable luck : string → number.

(** The initial token of cell [(i, j)] computed at the top of [renderCell]. *)
Definition initialValue (i j : Z) : option number :=
  let seed := cellKey i j +:+ ",token" in
  if Qlt_le_dec (luck seed) TOKEN_SPAWN_PROBABILITY then
    Some (js_pow2 (1 + Qfloor (luck (cellKey i j +:+ ",value") * 3)))
  else None.

Definition renderCell (i j : Z) (s : state) : state :=
  set_cell (cellKey i j) (mkCellInfo i j (initialValue i j)) s.

(** [renderGrid]: the nested loops run [i] and [j] over
    [-RENDER_RADIUS .. RENDER_RADIUS] around the origin cell. *)
Definition renderGrid (s : state) : state :=
  let cleared := mkState (ORIGIN_LATLNG s) (playerPoints s) (heldToken s) ∅ in
  foldl (λ st c, renderCell (ci c) (cj c) st) cleared
        (windowCells (mkCell 0 0) RENDER_RADIUS).

(** The body of the startup closure once the position request has
    settled: [geo] is the position obtained, if any. *)
Definition startup (geo : option LatLng) : state :=
  renderGrid (mkState (default FALLBACK_LATLNG geo) 0 None ∅).
End WithLuck.

(** The click handler of the rectangle of cell [(i, j)].  The rectangle
    exists only while its [info] object is the entry of [cellMap]. *)
Definition click (i j : Z) (s : state) : state * Signal :=
  match cellMap s !! cellKey i j with
  | None => (s, Quiet)
  | Some info =>
    if negb (canInteract i j) then (s, FlashOutOfRange)
    else
      match heldToken s with
      | None =>
        match value info with
        | Some v =>
          (mkState (ORIGIN_LATLNG s) (playerPoints s + 1)%Q (Some v)
                   (<[cellKey i j := mkCellInfo (Part000.i info) (Part000.j info) None]>
                      (cellMap s)),
           Quiet)
        | None => (s, Quiet)
        end
      | Some held =>
        match value info with
        | None =>
          (mkState (ORIGIN_LATLNG s) (playerPoints s) None
                   (<[cellKey i j := mkCellInfo (Part000.i info) (Part000.j info) (Some held)]>
                      (cellMap s)),
           Quiet)
        | Some v =>
          if Qeq_bool v held then
            let newValue := (held * 2)%Q in
            (mkState (ORIGIN_LATLNG s) (playerPoints s + 2)%Q (Some newValue)
                     (<[cellKey i j := mkCellInfo (Part000.i info) (Part000.j info) None]>
                        (cellMap s)),
             Quiet)
          else (s, FlashIncompatible)
        end
      end
  end.

(** [globalThis.pick], the console helper: returns the token taken. *)
Definition pick (i j : Z) (s : state) : option number * state :=
  match cellMap s !! cellKey i j with
  | None => (None, s)
  | Some c =>
    match heldToken s, value c with
    | None, Some v =>
      if canInteract i j then
        (Some v,
         mkState (ORIGIN_LATLNG s) (playerPoints s) (Some v)
                 (<[cellKey i j := mkCellInfo (Part000.i c) (Part000.j c) None]>
                    (cellMap s)))
      else (None, s)
    | _, _ => (None, s)
    end
  end.

Inductive event := Click (i j : Z) | Pick (i j : Z).

Definition step (e : event) (s : state) : state :=
  match e with
  | Click i j => (click i j s).1
  | Pick i j => (pick i j s).2
  end.

(** The content the snapshot holds for a cell: its [info.value]. *)
Definition content (i j : Z) (s : state) : option (option number) :=
  value <$> cellMap s !! cellKey i j.

Definition observe (i j : Z) (s : state) : view :=
  mkView (heldToken s) (default None (content i j s)) (playerPoints s).

Definition cells_ok (m : gmap string CellInfo) : Prop :=
  ∀ k info, m !! k = Some info → content_ok (value info).

(** The hand and every cell hold nothing or a power of two from 2 on. *)
Definition inv (s : state) : Prop :=
  content_ok (heldToken s) ∧ cells_ok (cellMap s).

End Part000.

(** * [src/src/main.ts]: moving player, cells remembered only while rendered *)

Module MainTs.

Definition RENDER_RADIUS : Z := 12.

(** [CellInfo] without its Leaflet rectangle and label. *)
Record CellInfo := mkCellInfo { i : Z; j : Z; value : option number }.

Record state := mkState {
  PLAYER_START_LATLNG : LatLng;
  playerLatLng : LatLng;
  playerPoints : number;
  heldToken : option number;
  cellMap : gmap string CellInfo;
  (** [overlay.style.display === "block"] *)
  overlay : bool;
  entropy : Entropy;
}.

Definition playerCell (s : state) : Cell :=
  latLngToCell (PLAYER_START_LATLNG s) (playerLatLng s).

Definition canInteract (i j : Z) (s : state) : bool :=
  within INTERACT_RANGE (playerCell s) i j.

(** [checkVictory]; [showVictoryScreen] sets the overlay's display to
    ["block"]. *)
Definition checkVictory (s : state) : state :=
  if reaches (heldToken s) TARGET_MAX_TOKEN then
    mkState (PLAYER_START_LATLNG s) (playerLatLng s) (playerPoints s)
            (heldToken s) (cellMap s) true (entropy s)
  else s.

(** [renderCell]: two calls of [ephemeralRandom], then
    [cellMap.set(key, info)]. *)
Definition renderCell (i j : Z) (s : state) : state :=
  let '(val, e) := spawn (entropy s) in
  mkState (PLAYER_START_LATLNG s) (playerLatLng s) (playerPoints s)
          (heldToken s)
          (<[cellKey i j := mkCellInfo i j val]> (cellMap s))
          (overlay s) e.

(** The click handler of the rectangle of cell [(i, j)]; it mutates the
    [info] object that [cellMap] holds under the cell's key.  The rectangle
    is removed from the map whenever that entry is deleted. *)
Definition click (i j : Z) (s : state) : state :=
  match cellMap s !! cellKey i j with
  | None => s
  | Some info =>
    if negb (canInteract i j s) then s
    else
      match heldToken s with
      | None =>
        match value info with
        | Some v =>
          checkVictory
            (mkState (PLAYER_START_LATLNG s) (playerLatLng s)
                     (playerPoints s + 1)%Q (Some v)
                     (<[cellKey i j := mkCellInfo (MainTs.i info) (MainTs.j info) None]>
                        (cellMap s))
                     (overlay s) (entropy s))
        | None => s
        end
      | Some held =>
        match value info with
        | None =>
          mkState (PLAYER_START_LATLNG s) (playerLatLng s) (playerPoints s) None
                  (<[cellKey i j := mkCellInfo (MainTs.i info) (MainTs.j info) (Some held)]>
                     (cellMap s))
                  (overlay s) (entropy s)
        | Some v =>
          if Qeq_bool v held then
            let newVal := (held * 2)%Q in
            checkVictory
              (mkState (PLAYER_START_LATLNG s) (playerLatLng s)
                       (playerPoints s + 2)%Q (Some newVal)
                       (<[cellKey i j := mkCellInfo (MainTs.i info) (MainTs.j info) None]>
                          (cellMap s))
                       (overlay s) (entropy s))
          else s
        end
      end
  end.

(** The keys collected in [desired] by the first loop of
    [renderVisibleCells]. *)
Definition desired (c : Cell) : gset string :=
  list_to_set ((λ x, cellKey (ci x) (cj x)) <$> windowCells c RENDER_RADIUS).

(** [renderVisibleCells]: the first loop renders the cells of the window
    that [cellMap] lacks; the second deletes every entry whose key is not in
    [desired]. *)
Definition renderVisibleCells (s : state) : state :=
  let c := playerCell s in
  let s1 :=
    foldl (λ st x,
             if decide (is_Some (cellMap st !! cellKey (ci x) (cj x))) then st
             else renderCell (ci x) (cj x) st)
          s (windowCells c RENDER_RADIUS) in
  let wanted := desired c in
  mkState (PLAYER_START_LATLNG s1) (playerLatLng s1) (playerPoints s1)
          (heldToken s1)
          (filter (λ kv, kv.1 ∈ wanted) (cellMap s1))
          (overlay s1) (entropy s1).

(** The ["moveend"] listener: the player follows the map's centre. *)
Definition moveend (center : LatLng) (s : state) : state :=
  renderVisibleCells
    (mkState (PLAYER_START_LATLNG s) center (playerPoints s) (heldToken s)
             (cellMap s) (overlay s) (entropy s)).

Definition restartGame (s : state) : state :=
  renderVisibleCells
    (mkState (PLAYER_START_LATLNG s) (PLAYER_START_LATLNG s) 0 None ∅ false
             (entropy s)).

(** The startup closure and [setupMapAndRender], once the position request
    has settled. *)
Definition startup (geo : option LatLng) (e : Entropy) : state :=
  let start := default FALLBACK_LATLNG geo in
  renderVisibleCells (mkState start start 0 None ∅ false e).

(** [panByTiles(di, dj)]: [map.setView] at the shifted centre, which the
    map answers with ["moveend"].  The map's centre is the player's
    position: the ["moveend"] listener and [restartGame] keep the two
    equal. *)
Definition panByTiles (di dj : Z) (s : state) : state :=
  moveend (panned (playerLatLng s) di dj) s.

(** The ["keydown"] listener: no key moves the player while the victory
    overlay is shown. *)
Definition keydown (k : key) (s : state) : state :=
  if overlay s then s
  else match k with
       | ArrowUp => panByTiles 1 0 s
       | ArrowDown => panByTiles (-1) 0 s
       | ArrowLeft => panByTiles 0 (-1) s
       | ArrowRight => panByTiles 0 1 s
       | OtherKey => s
       end.

Inductive event := Click (i j : Z) | MoveEnd (center : LatLng) | Restart.

Definition step (e : event) (s : state) : state :=
  match e with
  | Click i j => click i j s
  | MoveEnd center => moveend center s
  | Restart => restartGame s
  end.

(** The content the snapshot holds for a cell: its [info.value]. *)
Definition content (i j : Z) (s : state) : option (option number) :=
  value <$> cellMap s !! cellKey i j.

Definition observe (i j : Z) (s : state) : view :=
  mkView (heldToken s) (default None (content i j s)) (playerPoints s).

Definition cells_ok (m : gmap string CellInfo) : Prop :=
  ∀ k info, m !! k = Some info → content_ok (value info).

(** The draws are fractions; the hand and every cell hold nothing or a
    power of two from 2 on. *)
Definition inv (s : state) : Prop :=
  fair (entropy s) ∧ content_ok (heldToken s) ∧ cells_ok (cellMap s).

End MainTs.

(** * [src/unnamed/part_002]: the [modifiedCells] store *)

Module Part002.

Definition RENDER_RADIUS : Z := 12.

Record state := mkState {
  PLAYER_START_LATLNG : LatLng;
  playerLatLng : LatLng;
  playerPoints : number;
  heldToken : option number;
  (** [modifiedCells.has(key)] is [is_Some (modifiedCells !! key)]; a stored
      [null] is [Some None]. *)
  modifiedCells : gmap string (option number);
  (** [overlay.style.display === "block"] *)
  overlay : bool;
  entropy : Entropy;
  (** The cells whose rectangle and label are on the map. *)
  layers : list Cell;
}.

Definition playerCell (s : state) : Cell :=
  latLngToCell (PLAYER_START_LATLNG s) (playerLatLng s).

Definition canInteract (i j : Z) (s : state) : bool :=
  within INTERACT_RANGE (playerCell s) i j.

Definition getCellToken (i j : Z) (s : state) : option number * state :=
  let key := cellKey i j in
  match modifiedCells s !! key with
  | Some stored => (stored, s)
  | None =>
    let '(token, e) := spawn (entropy s) in
    (token,
     mkState (PLAYER_START_LATLNG s) (playerLatLng s) (playerPoints s)
             (heldToken s) (<[key := token]> (modifiedCells s)) (overlay s) e
             (layers s))
  end.

Definition saveCell (i j : Z) (value : option number) (s : state) : state :=
  mkState (PLAYER_START_LATLNG s) (playerLatLng s) (playerPoints s)
          (heldToken s) (<[cellKey i j := value]> (modifiedCells s))
          (overlay s) (entropy s) (layers s).

Definition set_heldToken (h : option number) (s : state) : state :=
  mkState (PLAYER_START_LATLNG s) (playerLatLng s) (playerPoints s) h
          (modifiedCells s) (overlay s) (entropy s) (layers s).

Definition add_points (n : number) (s : state) : state :=
  mkState (PLAYER_START_LATLNG s) (playerLatLng s) (playerPoints s + n)%Q
          (heldToken s) (modifiedCells s) (overlay s) (entropy s) (layers s).

Definition set_layers (l : list Cell) (s : state) : state :=
  mkState (PLAYER_START_LATLNG s) (playerLatLng s) (playerPoints s)
          (heldToken s) (modifiedCells s) (overlay s) (entropy s) l.

Definition checkVictory (s : state) : state :=
  if reaches (heldToken s) TARGET_MAX_TOKEN then
    mkState (PLAYER_START_LATLNG s) (playerLatLng s) (playerPoints s)
            (heldToken s) (modifiedCells s) true (entropy s) (layers s)
  else s.

(** [renderCell]: reads the cell through [getCellToken] and puts its
    rectangle and label on the map. *)
Definition renderCell (i j : Z) (s : state) : state :=
  let '(_, s1) := getCellToken i j s in
  set_layers (layers s1 ++ [mkCell i j]) s1.

(** The pick-up / place / craft decision inside the click handler, after
    [newToken] has been read. *)
Definition interact (i j : Z) (newToken : option number) (s : state) : state :=
  match heldToken s with
  | None =>
    match newToken with
    | Some v => add_points 1 (saveCell i j None (set_heldToken (Some v) s))
    | None => s
    end
  | Some held =>
    match newToken with
    | None => set_heldToken None (saveCell i j (Some held) s)
    | Some v =>
      if Qeq_bool v held then
        let merged := (held * 2)%Q in
        add_points 2 (set_heldToken (Some merged) (saveCell i j None s))
      else s
    end
  end.

(** The click handler of the rectangle of cell [(i, j)]. *)
Definition click (i j : Z) (s : state) : state :=
  if negb (canInteract i j s) then s
  else
    let '(newToken, s1) := getCellToken i j s in
    let s2 := checkVictory (interact i j newToken s1) in
    (* map.removeLayer(rect); map.removeLayer(label); renderCell(i, j) *)
    renderCell i j (set_layers (remove Cell_eq_dec (mkCell i j) (layers s2)) s2).

(** [renderVisibleCells]: every cell layer is taken off the map, then the
    window around the player is rendered cell by cell. *)
Definition renderVisibleCells (s : state) : state :=
  let c := playerCell s in
  foldl (λ st x, renderCell (ci x) (cj x) st) (set_layers [] s)
        (windowCells c RENDER_RADIUS).

(** The ["moveend"] listener: the player follows the map's centre. *)
Definition moveend (center : LatLng) (s : state) : state :=
  renderVisibleCells
    (mkState (PLAYER_START_LATLNG s) center (playerPoints s) (heldToken s)
             (modifiedCells s) (overlay s) (entropy s) (layers s)).

Definition restartGame (s : state) : state :=
  renderVisibleCells
    (mkState (PLAYER_START_LATLNG s) (PLAYER_START_LATLNG s) 0 None ∅ false
             (entropy s) (layers s)).

(** The startup closure and [setupMap], once the position request has
    settled. *)
Definition startup (geo : option LatLng) (e : Entropy) : state :=
  let start := default FALLBACK_LATLNG geo in
  renderVisibleCells (mkState start start 0 None ∅ false e []).

(** [move(di, dj)]: [map.setView] at the shifted centre, which the
    map answers with ["moveend"].  The map's centre is the player's
    position: the ["moveend"] listener and [restartGame] keep the two
    equal. *)
Definition move (di dj : Z) (s : state) : state :=
  moveend (panned (playerLatLng s) di dj) s.

(** The ["keydown"] listener: no key moves the player while the victory
    overlay is shown. *)
Definition keydown (k : key) (s : state) : state :=
  if overlay s then s
  else match k with
       | ArrowUp => move 1 0 s
       | ArrowDown => move (-1) 0 s
       | ArrowLeft => move 0 (-1) s
       | ArrowRight => move 0 1 s
       | OtherKey => s
       end.

Inductive event := Click (i j : Z) | MoveEnd (center : LatLng) | Restart.

Definition step (e : event) (s : state) : state :=
  match e with
  | Click i j => click i j s
  | MoveEnd center => moveend center s
  | Restart => restartGame s
  end.

(** The content of a cell is what [getCellToken] returns for it. *)
Definition observe (i j : Z) (s : state) : view :=
  mkView (heldToken s) (getCellToken i j s).1 (playerPoints s).

(** The events that neither restart the game nor click on cell [(i, j)]. *)
Definition spares (i j : Z) (e : event) : Prop :=
  match e with
  | Click i' j' => (i', j') ≠ (i, j)
  | Restart => False
  | _ => True
  end.

(** The draws are fractions; the hand and every stored cell hold nothing or
    a power of two from 2 on. *)
Definition inv (s : state) : Prop :=
  fair (entropy s) ∧ content_ok (heldToken s) ∧ store_ok (modifiedCells s).

End Part002.

(** * [src/unnamed/part_001]: the store with movement modes and persistence *)

(** ** JSON values, as [JSON.parse] returns them

    A parsed object lists each property name once. *)

#[local] Set Warnings "-register-all".

Inductive json :=
| JNull
| JBool (b : bool)
| JNum (n : number)
| JStr (s : string)
| JArr (items : list json)
| JObj (fields : list (string * json)).

(** What [localStorage.getItem] returns: [null], or a string, which is
    empty, or the text [JSON.stringify] wrote for a value, or some other text
    that [JSON.parse] rejects. *)
Inductive stored :=
| NoItem
| EmptyText
| Unparsable
| Stringified (v : json).

Module Part001.

Definition RENDER_RADIUS : Z := 12.

Inductive mode := gps | buttons.

Definition STORAGE_KEY : string := "mygame_state_v1".

Record state := mkState {
  PLAYER_START_LATLNG : LatLng;
  playerLatLng : LatLng;
  playerPoints : number;
  heldToken : option number;
  movementMode : mode;
  (** [modifiedCells.has(key)] is [is_Some (modifiedCells !! key)]; a stored
      [null] is [Some None]. *)
  modifiedCells : gmap string (option number);
  (** [overlay.style.display === "block"] *)
  overlay : bool;
  entropy : Entropy;
  (** The cells whose rectangle and label are on the map. *)
  layers : list Cell;
  (** The item of [localStorage] under [STORAGE_KEY]. *)
  localStorage : stored;
}.

Definition playerCell (s : state) : Cell :=
  latLngToCell (PLAYER_START_LATLNG s) (playerLatLng s).

Definition canInteract (i j : Z) (s : state) : bool :=
  within INTERACT_RANGE (playerCell s) i j.

(** *** Persistence *)

Definition json_of_LatLng (p : LatLng) : json :=
  JObj [("lat", JNum (lat p)); ("lng", JNum (lng p))].

Definition json_of_content (c : option number) : json :=
  match c with
  | None => JNull
  | Some v => JNum v
  end.

Definition json_of_mode (m : mode) : json :=
  match m with
  | gps => JStr "gps"
  | buttons => JStr "buttons"
  end.

(** The object handed to [JSON.stringify] by [serializeState]. *)
Definition serializeState (s : state) : json :=
  let cells := (λ kv : string * option number,
                  JArr [JStr kv.1; json_of_content kv.2])
               <$> map_to_list (modifiedCells s) in
  JObj [("PLAYER_START_LATLNG", json_of_LatLng (PLAYER_START_LATLNG s));
        ("playerLatLng", json_of_LatLng (playerLatLng s));
        ("playerPoints", JNum (playerPoints s));
        ("heldToken", json_of_content (heldToken s));
        ("modifiedCells", JArr cells);
        ("movementMode", json_of_mode (movementMode s))].

Definition set_localStorage (v : stored) (s : state) : state :=
  mkState (PLAYER_START_LATLNG s) (playerLatLng s) (playerPoints s)
          (heldToken s) (movementMode s) (modifiedCells s) (overlay s)
          (entropy s) (layers s) v.

Definition saveGameState (s : state) : state :=
  set_localStorage (Stringified (serializeState s)) s.

Definition clearSavedState (s : state) : state :=
  set_localStorage NoItem s.

(** [obj.name] on a parsed value other than [null]: [None] is
    [undefined]. *)
Fixpoint assoc (name : string) (fields : list (string * json)) : option json :=
  match fields with
  | [] => None
  | (k, v) :: rest => if decide (k = name) then Some v else assoc name rest
  end.

Definition prop (obj : json) (name : string) : option json :=
  match obj with
  | JObj fields => assoc name fields
  | _ => None
  end.

(** JavaScript truthiness of a property read. *)
Definition truthy (v : option json) : bool :=
  match v with
  | None | Some JNull => false
  | Some (JBool b) => b
  | Some (JNum n) => negb (Qeq_bool n 0)
  | Some (JStr s) => negb (bool_decide (s = ""))
  | Some (JArr _) | Some (JObj _) => true
  end.

(** [leaflet.latLng(o.lat, o.lng)] for a truthy property [o], on the
    payloads whose coordinates are numbers.  On any other payload the
    outcome depends on Leaflet's argument coercions: [None]. *)
Definition latLng_of (o : json) : option LatLng :=
  match prop o "lat", prop o "lng" with
  | Some (JNum a), Some (JNum b) => Some (mkLatLng a b)
  | _, _ => None
  end.

(** One turn of [for (const [k, v] of obj.modifiedCells)
    modifiedCells.set(k, v)], on the entries that fit the store's type
    [Map<string, number | null>]; [None] on any other entry. *)
Definition restore_cell (acc : option (gmap string (option number)))
    (entry : json) : option (gmap string (option number)) :=
  m ← acc;
  match entry with
  | JArr (JStr k :: JNull :: _) => Some (<[k := None]> m)
  | JArr (JStr k :: JNum v :: _) => Some (<[k := Some v]> m)
  | _ => None
  end.

(** The outcome of [loadGameState]: it returned [true], it returned
    [false], or the stored payload is not one the codec writes and the run
    leaves the typed state space. *)
Inductive loaded :=
| Restored (s : state)
| NotRestored (s : state)
| IllTyped.

Definition loadGameState (s : state) : loaded :=
  match localStorage s with
  | NoItem | EmptyText => NotRestored s
  | Unparsable => NotRestored s
  | Stringified JNull => NotRestored s
  | Stringified obj =>
    let start :=
      if truthy (prop obj "PLAYER_START_LATLNG") then
        o ← prop obj "PLAYER_START_LATLNG"; latLng_of o
      else Some (PLAYER_START_LATLNG s) in
    let player (start : LatLng) :=
      if truthy (prop obj "playerLatLng") then
        o ← prop obj "playerLatLng"; latLng_of o
      else Some start in
    let points :=
      match prop obj "playerPoints" with
      | Some (JNum n) => n
      | _ => 0%Q
      end in
    let held :=
      match prop obj "heldToken" with
      | Some (JNum n) => Some n
      | _ => None
      end in
    let cells :=
      match prop obj "modifiedCells" with
      | Some (JArr entries) => foldl restore_cell (Some ∅) entries
      | _ => Some ∅
      end in
    let mm :=
      match prop obj "movementMode" with
      | Some (JStr m) => if decide (m = "buttons") then buttons else gps
      | _ => gps
      end in
    match start with
    | None => IllTyped
    | Some st =>
      match player st, cells with
      | Some pl, Some store =>
        Restored (mkState st pl points held mm store (overlay s) (entropy s)
                          (layers s) (localStorage s))
      | _, _ => IllTyped
      end
    end
  end.

(** *** The cell store *)

Definition getCellToken (i j : Z) (s : state) : option number * state :=
  let key := cellKey i j in
  match modifiedCells s !! key with
  | Some stored => (stored, s)
  | None =>
    let '(token, e) := spawn (entropy s) in
    (token,
     mkState (PLAYER_START_LATLNG s) (playerLatLng s) (playerPoints s)
             (heldToken s) (movementMode s) (<[key := token]> (modifiedCells s))
             (overlay s) e (layers s) (localStorage s))
  end.

Definition saveCell (i j : Z) (value : option number) (s : state) : state :=
  saveGameState
    (mkState (PLAYER_START_LATLNG s) (playerLatLng s) (playerPoints s)
             (heldToken s) (movementMode s)
             (<[cellKey i j := value]> (modifiedCells s))
             (overlay s) (entropy s) (layers s) (localStorage s)).

Definition set_heldToken (h : option number) (s : state) : state :=
  mkState (PLAYER_START_LATLNG s) (playerLatLng s) (playerPoints s) h
          (movementMode s) (modifiedCells s) (overlay s) (entropy s)
          (layers s) (localStorage s).

Definition add_points (n : number) (s : state) : state :=
  mkState (PLAYER_START_LATLNG s) (playerLatLng s) (playerPoints s + n)%Q
          (heldToken s) (movementMode s) (modifiedCells s) (overlay s)
          (entropy s) (layers s) (localStorage s).

Definition set_layers (l : list Cell) (s : state) : state :=
  mkState (PLAYER_START_LATLNG s) (playerLatLng s) (playerPoints s)
          (heldToken s) (movementMode s) (modifiedCells s) (overlay s)
          (entropy s) l (localStorage s).

Definition set_playerLatLng (p : LatLng) (s : state) : state :=
  mkState (PLAYER_START_LATLNG s) p (playerPoints s) (heldToken s)
          (movementMode s) (modifiedCells s) (overlay s) (entropy s)
          (layers s) (localStorage s).

Definition set_movementMode (m : mode) (s : state) : state :=
  mkState (PLAYER_START_LATLNG s) (playerLatLng s) (playerPoints s)
          (heldToken s) m (modifiedCells s) (overlay s) (entropy s)
          (layers s) (localStorage s).

Definition checkVictory (s : state) : state :=
  if reaches (heldToken s) TARGET_MAX_TOKEN then
    mkState (PLAYER_START_LATLNG s) (playerLatLng s) (playerPoints s)
            (heldToken s) (movementMode s) (modifiedCells s) true (entropy s)
            (layers s) (localStorage s)
  else s.

(** [renderCell]: reads the cell through [getCellToken] and puts its
    rectangle and label on the map. *)
Definition renderCell (i j : Z) (s : state) : state :=
  let '(_, s1) := getCellToken i j s in
  set_layers (layers s1 ++ [mkCell i j]) s1.

(** The pick-up / place / craft decision inside the click handler, after
    [newToken] has been read. *)
Definition interact (i j : Z) (newToken : option number) (s : state) : state :=
  match heldToken s with
  | None =>
    match newToken with
    | Some v => add_points 1 (saveCell i j None (set_heldToken (Some v) s))
    | None => s
    end
  | Some held =>
    match newToken with
    | None => set_heldToken None (saveCell i j (Some held) s)
    | Some v =>
      if Qeq_bool v held then
        let merged := (held * 2)%Q in
        add_points 2 (set_heldToken (Some merged) (saveCell i j None s))
      else s
    end
  end.

(** The click handler of the rectangle of cell [(i, j)]. *)
Definition click (i j : Z) (s : state) : state :=
  if negb (canInteract i j s) then s
  else
    let '(newToken, s1) := getCellToken i j s in
    let s2 := saveGameState (checkVictory (interact i j newToken s1)) in
    (* map.removeLayer(rect); map.removeLayer(label); renderCell(i, j) *)
    renderCell i j (set_layers (remove Cell_eq_dec (mkCell i j) (layers s2)) s2).

(** [renderVisibleCells]: every cell layer is taken off the map, then the
    window around the player is rendered cell by cell. *)
Definition renderVisibleCells (s : state) : state :=
  let c := playerCell s in
  foldl (λ st x, renderCell (ci x) (cj x) st) (set_layers [] s)
        (windowCells c RENDER_RADIUS).

(** The ["moveend"] listener: map moves are player moves only in button
    mode. *)
Definition moveend (center : LatLng) (s : state) : state :=
  match movementMode s with
  | buttons => saveGameState (renderVisibleCells (set_playerLatLng center s))
  | gps => s
  end.

(** The position callback of [GeoMovementController]. *)
Definition watchPosition (pos : LatLng) (s : state) : state :=
  saveGameState (renderVisibleCells (set_playerLatLng pos s)).

(** [setMovementMode(mode, persist)] *)
Definition setMovementMode (m : mode) (persist : bool) (s : state) : state :=
  let s1 := set_movementMode m s in
  if persist then saveGameState s1 else s1.

Definition toggleMovementMode (s : state) : state :=
  let next := match movementMode s with gps => buttons | buttons => gps end in
  setMovementMode next true s.

Definition restartGame (s : state) : state :=
  saveGameState
    (renderVisibleCells
       (mkState (playerLatLng s) (playerLatLng s) 0 None (movementMode s) ∅
                false (entropy s) (layers s) (localStorage s))).

(** The globals of a freshly loaded page. *)
Definition fresh (e : Entropy) (disk : stored) : state :=
  mkState FALLBACK_LATLNG FALLBACK_LATLNG 0 None gps ∅ false e [] disk.

(** The startup closure, once [loadGameState] has run and, when nothing was
    restored, the position request has settled.  [None] when the stored
    payload is ill-typed. *)
Definition startup (geo : option LatLng) (e : Entropy) (disk : stored)
    : option state :=
  let boot (s : state) :=
    let s1 := renderVisibleCells s in                  (* setupMap *)
    let s2 := setMovementMode (movementMode s1) false s1 in
    saveGameState (renderVisibleCells s2) in
  match loadGameState (fresh e disk) with
  | Restored s => Some (boot s)
  | NotRestored s =>
    let start := default FALLBACK_LATLNG geo in
    Some (boot (mkState start start (playerPoints s) (heldToken s)
                        (movementMode s) (modifiedCells s) (overlay s)
                        (entropy s) (layers s) (localStorage s)))
  | IllTyped => None
  end.

Inductive event :=
| Click (i j : Z)
| MoveEnd (center : LatLng)
| WatchPosition (pos : LatLng)
| ToggleMovementMode
| Restart.

Definition step (e : event) (s : state) : state :=
  match e with
  | Click i j => click i j s
  | MoveEnd center => moveend center s
  | WatchPosition pos => watchPosition pos s
  | ToggleMovementMode => toggleMovementMode s
  | Restart => restartGame s
  end.

(** The content of a cell is what [getCellToken] returns for it. *)
Definition observe (i j : Z) (s : state) : view :=
  mkView (heldToken s) (getCellToken i j s).1 (playerPoints s).

(** The game state that the codec is about. *)
Definition game (s : state)
    : LatLng * LatLng * number * option number
      * gmap string (option number) * mode :=
  (PLAYER_START_LATLNG s, playerLatLng s, playerPoints s, heldToken s,
   modifiedCells s, movementMode s).

(** The events that neither restart the game nor click on cell [(i, j)]. *)
Definition spares (i j : Z) (e : event) : Prop :=
  match e with
  | Click i' j' => (i', j') ≠ (i, j)
  | Restart => False
  | _ => True
  end.

(** The draws are fractions; the hand and every stored cell hold nothing or
    a power of two from 2 on. *)
Definition inv (s : state) : Prop :=
  fair (entropy s) ∧ content_ok (heldToken s) ∧ store_ok (modifiedCells s).

(** The stored item is the serialization of the current game. *)
Definition saved (s : state) : Prop :=
  localStorage s = Stringified (serializeState s).

End Part001.

(** * Facts about keys, windows and the generator *)

Fixpoint no_comma (s : string) : Prop :=
  match s with
  | EmptyString => True
  | String c r => c ≠ ","%char ∧ no_comma r
  end.

Lemma pretty_N_char_no_comma x : pretty_N_char x ≠ ","%char.
Proof. unfold pretty_N_char. repeat case_match; discriminate. Qed.

Lemma pretty_N_go_no_comma x s : no_comma s → no_comma (pretty_N_go x s).
Proof.
  revert s. induction (N.lt_wf_0 x) as [x _ IH]; intros s Hs.
  destruct (decide (x = 0)%N) as [->|Hx].
  - by rewrite pretty_N_go_0.
  - rewrite pretty_N_go_step by lia. apply IH.
    + apply N.div_lt; lia.
    + split; [apply pretty_N_char_no_comma | done].
Qed.

Lemma pretty_N_no_comma (x : N) : no_comma (pretty x).
Proof.
  unfold pretty, pretty_N. case_decide; [by compute|].
  by apply pretty_N_go_no_comma.
Qed.

Lemma pretty_Z_no_comma (x : Z) : no_comma (pretty x).
Proof.
  destruct x as [|p|p]; unfold pretty, pretty_Z.
  - by compute.
  - apply (pretty_N_no_comma (Npos p)).
  - split; [discriminate | apply (pretty_N_no_comma (Npos p))].
Qed.

Lemma split_at_comma s1 s2 t1 t2 :
  no_comma s1 → no_comma s2 →
  s1 +:+ String "," t1 = s2 +:+ String "," t2 → s1 = s2 ∧ t1 = t2.
Proof.
  revert s2. induction s1 as [|a s1 IH]; intros [|b s2]; simpl.
  - intros _ _ [= ->]. done.
  - intros _ [Hb _] [= <- _]. done.
  - intros [Ha _] _ [= -> _]. done.
  - intros [_ H1] [_ H2] [= -> Heq]. destruct (IH _ H1 H2 Heq) as [-> ->]. done.
Qed.

Lemma cellKey_inj i j i' j' : cellKey i j = cellKey i' j' → i = i' ∧ j = j'.
Proof.
  unfold cellKey. intros Heq.
  apply split_at_comma in Heq as [Hi Hj]; try apply pretty_Z_no_comma.
  split; by apply (inj pretty).
Qed.

Lemma elem_of_windowCells c R x :
  x ∈ windowCells c R ↔ Z.abs (ci x - ci c) ≤ R ∧ Z.abs (cj x - cj c) ≤ R.
Proof.
  unfold windowCells. rewrite list_elem_of_bind. split.
  - intros (di & Hx & Hdi). apply list_elem_of_bind in Hx as (dj & Hx & Hdj).
    apply list_elem_of_singleton in Hx as ->.
    apply elem_of_seqZ in Hdi, Hdj. simpl. lia.
  - intros [Hi Hj]. exists (ci x - ci c). split.
    + apply list_elem_of_bind. exists (cj x - cj c). split.
      * apply list_elem_of_singleton. destruct x; simpl. f_equal; lia.
      * apply elem_of_seqZ. lia.
    + apply elem_of_seqZ. lia.
Qed.

Lemma NoDup_windowCells c R : NoDup (windowCells c R).
Proof.
  unfold windowCells. apply NoDup_bind.
  - intros d1 d2 x _ _ H1 H2.
    apply list_elem_of_bind in H1 as (e1 & H1 & _).
    apply list_elem_of_bind in H2 as (e2 & H2 & _).
    apply list_elem_of_singleton in H1, H2. subst x. injection H2. lia.
  - intros d _. apply NoDup_bind.
    + intros e1 e2 x _ _ H1 H2.
      apply list_elem_of_singleton in H1, H2. subst x. injection H2. lia.
    + intros; apply NoDup_singleton.
    + apply NoDup_seqZ.
  - apply NoDup_seqZ.
Qed.

Lemma length_bind_const {A B} (f : A → list B) (l : list A) n :
  (∀ x, length (f x) = n) → length (l ≫= f) = (length l * n)%nat.
Proof.
  intros Hf. induction l as [|a l IH]; [done|].
  rewrite bind_cons, length_app, IH, Hf. simpl. lia.
Qed.

Lemma length_windowCells c R :
  length (windowCells c R) = (Z.to_nat (2 * R + 1) * Z.to_nat (2 * R + 1))%nat.
Proof.
  unfold windowCells.
  rewrite (length_bind_const _ _ (Z.to_nat (2 * R + 1))).
  - by rewrite length_seqZ.
  - intros di. rewrite (length_bind_const _ _ 1%nat); [|done].
    rewrite length_seqZ. lia.
Qed.

Lemma latLngToCell_self p : latLngToCell p p = mkCell 0 0.
Proof.
  unfold latLngToCell.
  assert (∀ x : Q, Qfloor ((x - x) / TILE_DEGREES) = 0) as H.
  { intros x. change 0 with (Qfloor 0). apply Qfloor_comp.
    unfold Qminus. rewrite Qplus_opp_r. reflexivity. }
  by rewrite !H.
Qed.

(** ** The generator *)

Lemma js_pow2_nonneg (k : Z) : 0 ≤ k → (js_pow2 (1 + k) == inject_Z (2 ^ (1 + k)))%Q.
Proof.
  intros Hk. unfold js_pow2. rewrite Zpower_Qpower by lia. reflexivity.
Qed.

Lemma floor_scaled_nonneg (r : number) (K : Z) :
  (0 <= r)%Q → 0 ≤ K → 0 ≤ Qfloor (r * inject_Z K).
Proof.
  intros Hr HK. change 0 with (Qfloor 0). apply Qfloor_resp_le.
  apply Qmult_le_0_compat; [done|]. change 0%Q with (inject_Z 0).
  by rewrite <- Zle_Qle.
Qed.

Lemma spawn_source e : source (spawn e).2 = source e.
Proof. unfold spawn, draw. simpl. by destruct (Qlt_le_dec _ _). Qed.

Lemma spawn_fair e : fair e → fair (spawn e).2.
Proof. unfold fair. by rewrite spawn_source. Qed.

Lemma spawn_content_ok e : fair e → content_ok (spawn e).1.
Proof.
  intros He. unfold spawn, draw. simpl.
  destruct (Qlt_le_dec _ _); simpl; [|done].
  exists (1 + Qfloor (source e (S (used e)) * 5)). split.
  - pose proof (floor_scaled_nonneg (source e (S (used e))) 5) as H.
    specialize (H (proj1 (He _))). change (inject_Z 5) with 5%Q in H. lia.
  - apply js_pow2_nonneg.
    apply (floor_scaled_nonneg _ 5); [apply He | lia].
Qed.

Lemma pow2_token_double v : pow2_token v → pow2_token (v * 2).
Proof.
  intros (k & Hk & Hv). exists (k + 1). split; [lia|].
  rewrite Hv, Z.pow_add_r by lia. rewrite inject_Z_mult. reflexivity.
Qed.

Lemma store_ok_insert k c m : content_ok c → store_ok m → store_ok (<[k := c]> m).
Proof.
  intros Hc Hm k' c'. rewrite lookup_insert. case_decide; [|apply Hm].
  by intros [= <-].
Qed.

Lemma empty_store_ok : store_ok ∅.
Proof. intros k c. by rewrite lookup_empty. Qed.

Lemma spawn_steady r e :
  steady r e →
  steady r (spawn e).2 ∧ (spawn e).1 = (spawn (mkEntropy (λ _, r) 0)).1.
Proof.
  intros Hr. split.
  - unfold steady. by rewrite spawn_source.
  - unfold spawn, draw. cbn. rewrite !Hr. by destruct (Qlt_le_dec _ _).
Qed.

(** * Facts about [part_002] *)

Module Part002Facts.
Import Part002.

#[local] Arguments windowCells : simpl never.
#[local] Arguments latLngToCell : simpl never.
#[local] Arguments renderVisibleCells : simpl never.
#[local] Arguments click : simpl never.

(** *** [getCellToken] *)

Lemma getCellToken_hit_002 i j s c :
  modifiedCells s !! cellKey i j = Some c → getCellToken i j s = (c, s).
Proof. unfold getCellToken. by intros ->. Qed.

Lemma getCellToken_miss_002 i j s :
  modifiedCells s !! cellKey i j = None →
  (getCellToken i j s).1 = (spawn (entropy s)).1 ∧
  modifiedCells (getCellToken i j s).2
  = <[cellKey i j := (spawn (entropy s)).1]> (modifiedCells s) ∧
  entropy (getCellToken i j s).2 = (spawn (entropy s)).2.
Proof. unfold getCellToken. intros ->. by destruct (spawn _). Qed.

Lemma getCellToken_decided_002 i j s :
  modifiedCells (getCellToken i j s).2 !! cellKey i j
  = Some (getCellToken i j s).1.
Proof.
  unfold getCellToken.
  destruct (modifiedCells s !! cellKey i j) eqn:E; [done|].
  destruct (spawn _); simpl. apply lookup_insert_eq.
Qed.

Lemma getCellToken_grows_002 i j s :
  modifiedCells s ⊆ modifiedCells (getCellToken i j s).2.
Proof.
  unfold getCellToken.
  destruct (modifiedCells s !! cellKey i j) eqn:E; [done|].
  destruct (spawn _); simpl. by apply insert_subseteq.
Qed.

Lemma getCellToken_frame_002 i j s :
  let s' := (getCellToken i j s).2 in
  PLAYER_START_LATLNG s' = PLAYER_START_LATLNG s ∧
  playerLatLng s' = playerLatLng s ∧ playerPoints s' = playerPoints s ∧
  heldToken s' = heldToken s ∧ overlay s' = overlay s ∧ layers s' = layers s.
Proof.
  unfold getCellToken.
  destruct (modifiedCells s !! cellKey i j); [done|]. by destruct (spawn _).
Qed.

Lemma getCellToken_fair_002 i j s :
  fair (entropy s) → fair (entropy (getCellToken i j s).2).
Proof.
  unfold getCellToken.
  destruct (modifiedCells s !! cellKey i j); [done|].
  intros H. apply spawn_fair in H. by destruct (spawn _).
Qed.

Lemma getCellToken_store_ok_002 i j s :
  fair (entropy s) → store_ok (modifiedCells s) →
  store_ok (modifiedCells (getCellToken i j s).2) ∧
  content_ok (getCellToken i j s).1.
Proof.
  intros He Hm. unfold getCellToken.
  destruct (modifiedCells s !! cellKey i j) eqn:E; simpl.
  - split; [done|]. by eapply Hm.
  - pose proof (spawn_content_ok _ He). destruct (spawn _); simpl in *.
    split; [by apply store_ok_insert | done].
Qed.

(** *** [renderCell] and the window loop *)

Lemma renderCell_store_002 i j s :
  modifiedCells (renderCell i j s) = modifiedCells (getCellToken i j s).2.
Proof. unfold renderCell. by destruct (getCellToken i j s). Qed.

Lemma renderCell_entropy_002 i j s :
  entropy (renderCell i j s) = entropy (getCellToken i j s).2.
Proof. unfold renderCell. by destruct (getCellToken i j s). Qed.

Lemma renderCell_frame_002 i j s :
  let s' := renderCell i j s in
  PLAYER_START_LATLNG s' = PLAYER_START_LATLNG s ∧
  playerLatLng s' = playerLatLng s ∧ playerPoints s' = playerPoints s ∧
  heldToken s' = heldToken s ∧ overlay s' = overlay s ∧
  layers s' = layers s ++ [mkCell i j].
Proof.
  pose proof (getCellToken_frame_002 i j s) as H. unfold renderCell.
  destruct (getCellToken i j s) as [t s1]. simpl in *.
  destruct H as (-> & -> & -> & -> & -> & ->). done.
Qed.

Definition renderAll (cells : list Cell) (s : state) : state :=
  foldl (λ st x, renderCell (ci x) (cj x) st) s cells.

Lemma renderAll_frame_002 cells s :
  let s' := renderAll cells s in
  PLAYER_START_LATLNG s' = PLAYER_START_LATLNG s ∧
  playerLatLng s' = playerLatLng s ∧ playerPoints s' = playerPoints s ∧
  heldToken s' = heldToken s ∧ overlay s' = overlay s ∧
  layers s' = layers s ++ cells.
Proof.
  revert s. induction cells as [|[a b] cells IH]; intros s; simpl.
  - by rewrite app_nil_r.
  - destruct (IH (renderCell a b s)) as (-> & -> & -> & -> & -> & ->).
    destruct (renderCell_frame_002 a b s) as (-> & -> & -> & -> & -> & ->).
    by rewrite <- app_assoc.
Qed.

Lemma renderAll_grows_002 cells s :
  modifiedCells s ⊆ modifiedCells (renderAll cells s).
Proof.
  revert s. induction cells as [|[a b] cells IH]; intros s; simpl; [done|].
  etrans; [|apply IH]. rewrite renderCell_store_002. apply getCellToken_grows_002.
Qed.

Lemma renderAll_decides_002 cells s x :
  x ∈ cells → is_Some (modifiedCells (renderAll cells s) !! cellKey (ci x) (cj x)).
Proof.
  revert s. induction cells as [|[a b] cells IH]; intros s; simpl.
  - by intros ?%elem_of_nil.
  - intros [->|Hx]%elem_of_cons; [|by apply IH].
    eapply lookup_weaken_is_Some; [|apply renderAll_grows_002].
    rewrite renderCell_store_002, getCellToken_decided_002. by eexists.
Qed.

Lemma renderAll_dom_002 cells s :
  dom (modifiedCells (renderAll cells s))
  = dom (modifiedCells s) ∪ list_to_set ((λ x, cellKey (ci x) (cj x)) <$> cells).
Proof.
  revert s. induction cells as [|[a b] cells IH]; intros s; simpl.
  - set_solver.
  - rewrite IH, renderCell_store_002. unfold getCellToken.
    destruct (modifiedCells s !! cellKey a b) eqn:E; simpl.
    + apply (elem_of_dom_2 (D:=gset string)) in E. set_solver.
    + destruct (spawn _); simpl. rewrite dom_insert_L. set_solver.
Qed.

Lemma renderAll_ok_002 cells s :
  fair (entropy s) → store_ok (modifiedCells s) →
  fair (entropy (renderAll cells s)) ∧ store_ok (modifiedCells (renderAll cells s)).
Proof.
  revert s. induction cells as [|[a b] cells IH]; intros s He Hm; simpl; [done|].
  apply IH.
  - rewrite renderCell_entropy_002. by apply getCellToken_fair_002.
  - rewrite renderCell_store_002. by apply getCellToken_store_ok_002.
Qed.

Lemma renderVisibleCells_unfold_002 s :
  renderVisibleCells s
  = renderAll (windowCells (playerCell s) RENDER_RADIUS) (set_layers [] s).
Proof. unfold renderVisibleCells, renderAll. reflexivity. Qed.

Lemma renderVisibleCells_frame_002 s :
  let s' := renderVisibleCells s in
  PLAYER_START_LATLNG s' = PLAYER_START_LATLNG s ∧
  playerLatLng s' = playerLatLng s ∧ playerPoints s' = playerPoints s ∧
  heldToken s' = heldToken s ∧ overlay s' = overlay s ∧
  layers s' = windowCells (playerCell s) RENDER_RADIUS.
Proof.
  rewrite renderVisibleCells_unfold_002.
  apply (renderAll_frame_002 (windowCells (playerCell s) RENDER_RADIUS) (set_layers [] s)).
Qed.

Lemma renderVisibleCells_grows_002 s :
  modifiedCells s ⊆ modifiedCells (renderVisibleCells s).
Proof. rewrite renderVisibleCells_unfold_002. apply (renderAll_grows_002 _ (set_layers [] s)). Qed.


(** *** The click handler *)

Lemma checkVictory_frame_002 s :
  let s' := checkVictory s in
  PLAYER_START_LATLNG s' = PLAYER_START_LATLNG s ∧
  playerLatLng s' = playerLatLng s ∧ playerPoints s' = playerPoints s ∧
  heldToken s' = heldToken s ∧ modifiedCells s' = modifiedCells s ∧
  entropy s' = entropy s ∧ layers s' = layers s.
Proof. unfold checkVictory. by destruct (reaches _ _). Qed.

Lemma checkVictory_overlay_002 s :
  overlay (checkVictory s) = overlay s || reaches (heldToken s) TARGET_MAX_TOKEN.
Proof.
  unfold checkVictory. destruct (reaches _ _); simpl; by rewrite ?orb_true_r, ?orb_false_r.
Qed.

Lemma interact_decided_002 i j t s :
  is_Some (modifiedCells s !! cellKey i j) →
  is_Some (modifiedCells (interact i j t s) !! cellKey i j).
Proof.
  intros Hs. unfold interact.
  destruct (heldToken s) as [h|], t as [v|]; simpl; try done;
    try (rewrite lookup_insert_eq; by eexists).
  destruct (Qeq_bool v h); simpl; [|done]. rewrite lookup_insert_eq; by eexists.
Qed.

Lemma interact_dom_002 i j t s :
  dom (modifiedCells s) ⊆ dom (modifiedCells (interact i j t s)).
Proof.
  unfold interact.
  destruct (heldToken s) as [h|], t as [v|]; simpl; try done;
    try (rewrite dom_insert_L; set_solver).
  destruct (Qeq_bool v h); simpl; [|done]. rewrite dom_insert_L; set_solver.
Qed.

Lemma interact_other_002 i j t s k :
  k ≠ cellKey i j →
  modifiedCells (interact i j t s) !! k = modifiedCells s !! k.
Proof.
  intros Hk. unfold interact.
  destruct (heldToken s) as [h|], t as [v|]; simpl; try done;
    try by rewrite lookup_insert_ne.
  destruct (Qeq_bool v h); simpl; [|done]. by rewrite lookup_insert_ne.
Qed.

Lemma interact_entropy_002 i j t s : entropy (interact i j t s) = entropy s.
Proof.
  unfold interact.
  destruct (heldToken s) as [h|], t as [v|]; simpl; try done.
  by destruct (Qeq_bool v h).
Qed.

(** What an in-range click leaves behind, in terms of the state [s1] after
    the handler's read and of the decision taken on it. *)
Lemma click_in_range_002 i j s :
  canInteract i j s = true →
  let t := (getCellToken i j s).1 in
  let s1 := (getCellToken i j s).2 in
  let s2 := interact i j t s1 in
  heldToken (click i j s) = heldToken s2 ∧
  playerPoints (click i j s) = playerPoints s2 ∧
  modifiedCells (click i j s) = modifiedCells s2 ∧
  entropy (click i j s) = entropy s1 ∧
  overlay (click i j s) = overlay s || reaches (heldToken s2) TARGET_MAX_TOKEN ∧
  PLAYER_START_LATLNG (click i j s) = PLAYER_START_LATLNG s ∧
  playerLatLng (click i j s) = playerLatLng s.
Proof.
  intros Hin. unfold click. rewrite Hin. simpl.
  pose proof (getCellToken_decided_002 i j s) as Hdec.
  pose proof (getCellToken_frame_002 i j s) as Hfr.
  destruct (getCellToken i j s) as [t s1]. simpl in *.
  assert (is_Some (modifiedCells (interact i j t s1) !! cellKey i j)) as [c Hc].
  { apply interact_decided_002. by eexists. }
  set (s2 := interact i j t s1) in *.
  destruct (checkVictory_frame_002 s2) as (Hv1 & Hv2 & Hv3 & Hv4 & Hv5 & Hv6 & Hv7).
  pose proof (checkVictory_overlay_002 s2) as Hov.
  set (s3 := set_layers _ (checkVictory s2)).
  assert (modifiedCells s3 !! cellKey i j = Some c) as Hc3.
  { subst s3. simpl. by rewrite Hv5. }
  unfold renderCell. rewrite (getCellToken_hit_002 _ _ _ _ Hc3). subst s3. simpl.
  rewrite Hv1, Hv2, Hv3, Hv4, Hv5, Hv6, Hov.
  assert (overlay s2 = overlay s1 ∧ PLAYER_START_LATLNG s2 = PLAYER_START_LATLNG s1
          ∧ playerLatLng s2 = playerLatLng s1 ∧ entropy s2 = entropy s1)
    as (-> & -> & -> & ->).
  { subst s2. unfold interact.
    destruct (heldToken s1) as [h|], t as [v|]; simpl; try done.
    by destruct (Qeq_bool v h). }
  destruct Hfr as (-> & -> & _ & _ & -> & _). done.
Qed.

Lemma click_out_of_range_002 i j s : canInteract i j s = false → click i j s = s.
Proof. intros Hout. unfold click. by rewrite Hout. Qed.


(** The view after an in-range click, from the view before it. *)
Lemma observe_click_002 i j s :
  canInteract i j s = true →
  let t := (getCellToken i j s).1 in
  let s2 := interact i j t (getCellToken i j s).2 in
  observe i j (click i j s)
  = mkView (heldToken s2) (default None (modifiedCells s2 !! cellKey i j))
           (playerPoints s2).
Proof.
  intros Hin. destruct (click_in_range_002 i j s Hin) as (Hh & Hp & Hm & _).
  simpl. unfold observe. rewrite Hh, Hp. f_equal.
  assert (is_Some (modifiedCells (click i j s) !! cellKey i j)) as [c Hc].
  { rewrite Hm. apply interact_decided_002. rewrite getCellToken_decided_002. by eexists. }
  rewrite (getCellToken_hit_002 _ _ _ _ Hc). simpl. rewrite <- Hm, Hc. done.
Qed.

Lemma click_rules_002 i j s :
  canInteract i j s = true →
  picks_up (observe i j s) (observe i j (click i j s)) ∧
  places (observe i j s) (observe i j (click i j s)) ∧
  crafts (observe i j s) (observe i j (click i j s)).
Proof.
  intros Hin. rewrite (observe_click_002 i j s Hin).
  destruct (getCellToken_frame_002 i j s) as (_ & _ & Hp & Hh & _).
  unfold observe, picks_up, places, crafts. simpl.
  destruct (getCellToken i j s) as [t s1]. simpl in *.
  unfold interact. rewrite Hh, <- Hp.
  split; [|split].
  - intros v -> ->. simpl. by rewrite lookup_insert_eq.
  - intros v -> ->. simpl. by rewrite lookup_insert_eq.
  - intros v w -> -> Hwv. apply Qeq_bool_iff in Hwv. rewrite Hwv. simpl.
    by rewrite lookup_insert_eq.
Qed.

Lemma click_rejected_002 i j s :
  canInteract i j s = false ∨ mismatched (observe i j s) →
  observe i j (click i j s) = observe i j s.
Proof.
  intros [Hout|(v & w & Hv & Hw & Hne)].
  { by rewrite click_out_of_range_002. }
  destruct (canInteract i j s) eqn:Hin; [|by rewrite click_out_of_range_002].
  rewrite (observe_click_002 i j s Hin).
  pose proof (getCellToken_decided_002 i j s) as Hdec.
  destruct (getCellToken_frame_002 i j s) as (_ & _ & Hp & Hh & _).
  unfold observe in *. simpl in *.
  destruct (getCellToken i j s) as [t s1]. simpl in *. subst t.
  unfold interact. rewrite Hh, Hv.
  destruct (Qeq_bool w v) eqn:E.
  { apply Qeq_bool_iff in E. by destruct Hne. }
  by rewrite Hdec, Hp, Hh, Hv.
Qed.

(** *** Events *)

Lemma step_keeps_keys_002 e s :
  e ≠ Restart → dom (modifiedCells s) ⊆ dom (modifiedCells (step e s)).
Proof.
  intros He. destruct e as [i j|center|].
  3: { exfalso. apply He. reflexivity. }
  - cbn [step].
    destruct (canInteract i j s) eqn:Hin; [|by rewrite click_out_of_range_002].
    destruct (click_in_range_002 i j s Hin) as (_ & _ & -> & _).
    etrans; [|apply interact_dom_002].
    apply subseteq_dom, getCellToken_grows_002.
  - cbn [step]. unfold moveend. apply subseteq_dom.
    match goal with |- _ ⊆ modifiedCells (renderVisibleCells ?s0) =>
      apply (renderVisibleCells_grows_002 s0) end.
Qed.

Lemma step_keeps_content_002 i j e s c :
  spares i j e →
  modifiedCells s !! cellKey i j = Some c →
  modifiedCells (step e s) !! cellKey i j = Some c.
Proof.
  intros He Hc. destruct e as [i' j'|center|].
  3: { destruct He. }
  - cbn [step spares] in *.
    destruct (canInteract i' j' s) eqn:Hin; [|by rewrite click_out_of_range_002].
    destruct (click_in_range_002 i' j' s Hin) as (_ & _ & -> & _).
    rewrite interact_other_002.
    + by apply (lookup_weaken _ _ _ _ Hc), getCellToken_grows_002.
    + intros [??]%cellKey_inj. apply He. congruence.
  - cbn [step]. unfold moveend.
    match goal with |- modifiedCells (renderVisibleCells ?s0) !! _ = _ =>
      apply (lookup_weaken (modifiedCells s0)); [exact Hc|];
      apply (renderVisibleCells_grows_002 s0) end.
Qed.

(** Memento durability: what [saveCell] wrote is what [getCellToken]
    returns, whatever spares the cell in between. *)
Lemma read_after_write_002 i j v s es :
  Forall (spares i j) es →
  (getCellToken i j (foldl (λ st e, step e st) (saveCell i j v s) es)).1 = v.
Proof.
  intros Hes.
  assert (modifiedCells (saveCell i j v s) !! cellKey i j = Some v) as Hv.
  { cbn [saveCell modifiedCells]. apply lookup_insert_eq. }
  revert Hv. generalize (saveCell i j v s). clear s.
  induction Hes as [|e es He _ IH]; intros s Hv; cbn [foldl].
  - by rewrite (getCellToken_hit_002 _ _ _ _ Hv).
  - apply IH. by apply step_keeps_content_002.
Qed.

(** *** The power-of-two invariant *)

Lemma interact_inv_002 i j t s : content_ok t → inv s → inv (interact i j t s).
Proof.
  intros Ht Hs. pose proof Hs as (He & Hh & Hm). unfold interact.
  destruct (heldToken s) as [h|] eqn:Eh, t as [v|]; try exact Hs.
  - destruct (Qeq_bool v h); [|exact Hs].
    split; [exact He|split].
    + by apply pow2_token_double.
    + by apply store_ok_insert.
  - split; [exact He|split; [exact I|]]. by apply store_ok_insert.
  - split; [exact He|split; [exact Ht|]]. by apply store_ok_insert.
Qed.

Lemma renderVisibleCells_inv_002 s : inv s → inv (renderVisibleCells s).
Proof.
  intros (He & Hh & Hm).
  destruct (renderVisibleCells_frame_002 s) as (_ & _ & _ & Hh' & _).
  rewrite renderVisibleCells_unfold_002 in *.
  destruct (renderAll_ok_002 (windowCells (playerCell s) RENDER_RADIUS)
              (set_layers [] s) He Hm) as [??].
  split; [done|split; [|done]]. by rewrite Hh'.
Qed.

Lemma step_inv_002 e s : inv s → inv (step e s).
Proof.
  intros Hs. destruct e as [i j|center|]; cbn [step].
  - destruct (canInteract i j s) eqn:Hin; [|by rewrite click_out_of_range_002].
    destruct Hs as (He & Hh & Hm).
    destruct (click_in_range_002 i j s Hin) as (Eh & _ & Em & Ee & _).
    destruct (getCellToken_store_ok_002 i j s He Hm) as [Hm1 Ht].
    pose proof (getCellToken_fair_002 i j s He) as He1.
    destruct (getCellToken_frame_002 i j s) as (_ & _ & _ & Hh1 & _).
    destruct (interact_inv_002 i j (getCellToken i j s).1 (getCellToken i j s).2 Ht)
      as (_ & Hh2 & Hm2).
    { split; [exact He1|split; [|exact Hm1]]. by rewrite Hh1. }
    unfold inv. rewrite Eh, Em, Ee. auto.
  - unfold moveend. apply renderVisibleCells_inv_002. exact Hs.
  - unfold restartGame. apply renderVisibleCells_inv_002.
    destruct Hs as (He & _ & _).
    split; [exact He|split; [exact I|exact empty_store_ok]].
Qed.

Lemma startup_inv_002 geo e : fair e → inv (startup geo e).
Proof.
  intros He. unfold startup. apply renderVisibleCells_inv_002.
  split; [exact He|split; [exact I|exact empty_store_ok]].
Qed.

Lemma reachable_inv_002 geo e es :
  fair e → inv (foldl (λ st ev, step ev st) (startup geo e) es).
Proof.
  intros He. generalize (startup_inv_002 geo e He). generalize (startup geo e).
  induction es as [|ev es IH]; intros s Hs; cbn [foldl]; [exact Hs|].
  by apply IH, step_inv_002.
Qed.

(** *** Restart *)

Lemma restartGame_frame_002 s :
  let s' := restartGame s in
  playerPoints s' = 0%Q ∧ heldToken s' = None ∧ overlay s' = false ∧
  PLAYER_START_LATLNG s' = PLAYER_START_LATLNG s ∧
  playerLatLng s' = PLAYER_START_LATLNG s.
Proof.
  unfold restartGame.
  match goal with |- context [renderVisibleCells ?s0] =>
    destruct (renderVisibleCells_frame_002 s0) as (H1 & H2 & H3 & H4 & H5 & _) end.
  cbv zeta. rewrite H1, H2, H3, H4, H5. cbn [PLAYER_START_LATLNG playerLatLng
    playerPoints heldToken overlay]. auto.
Qed.

Lemma restartGame_dom_002 s :
  dom (modifiedCells (restartGame s)) = windowKeys (mkCell 0 0) RENDER_RADIUS.
Proof.
  unfold restartGame. rewrite renderVisibleCells_unfold_002, renderAll_dom_002.
  unfold playerCell. cbn [PLAYER_START_LATLNG playerLatLng set_layers modifiedCells].
  rewrite latLngToCell_self, dom_empty_L, (left_id_L ∅ (∪)). reflexivity.
Qed.

Lemma restartGame_forgets_002 s s' :
  PLAYER_START_LATLNG s = PLAYER_START_LATLNG s' → entropy s = entropy s' →
  restartGame s = restartGame s'.
Proof.
  intros Hst He. unfold restartGame. rewrite !renderVisibleCells_unfold_002.
  unfold playerCell, set_layers.
  cbn [PLAYER_START_LATLNG playerLatLng playerPoints heldToken modifiedCells
       overlay entropy layers].
  by rewrite Hst, He.
Qed.

(** Restarting does not look at the score, the hand, the store or the
    overlay it replaces. *)
Lemma restartGame_ignores_002 s pl pts held m ov :
  restartGame (mkState (PLAYER_START_LATLNG s) pl pts held m ov (entropy s)
                       (layers s))
  = restartGame s.
Proof. unfold restartGame. reflexivity. Qed.

End Part002Facts.

(** * Facts about [main.ts] *)

Module MainTsFacts.
Import MainTs.

#[local] Arguments windowCells : simpl never.
#[local] Arguments latLngToCell : simpl never.
#[local] Arguments renderVisibleCells : simpl never.

Definition keyOf (x : Cell) : string := cellKey (ci x) (cj x).

Lemma elem_of_desired_main c i j :
  cellKey i j ∈ desired c ↔ within RENDER_RADIUS c i j = true.
Proof.
  unfold desired, within. rewrite elem_of_list_to_set, list_elem_of_fmap.
  rewrite andb_true_iff, !bool_decide_eq_true. split.
  - intros (x & Hk & Hx). apply cellKey_inj in Hk as [-> ->].
    by apply elem_of_windowCells in Hx.
  - intros H. exists (mkCell i j). split; [done|].
    by apply elem_of_windowCells.
Qed.

Lemma size_desired_main c : size (desired c) = 625%nat.
Proof.
  unfold desired. rewrite size_list_to_set.
  - rewrite length_fmap, length_windowCells. reflexivity.
  - apply NoDup_fmap_2_strong; [|apply NoDup_windowCells].
    intros [a b] [a' b'] _ _ H. cbn [ci cj] in H.
    apply cellKey_inj in H as [-> ->]. reflexivity.
Qed.

(** *** [renderCell] and the first loop of [renderVisibleCells] *)

Definition renderMissing (cells : list Cell) (s : state) : state :=
  foldl (λ st x,
           if decide (is_Some (cellMap st !! cellKey (ci x) (cj x))) then st
           else renderCell (ci x) (cj x) st) s cells.

Lemma renderCell_frame_main i j s :
  let s' := renderCell i j s in
  PLAYER_START_LATLNG s' = PLAYER_START_LATLNG s ∧
  playerLatLng s' = playerLatLng s ∧ playerPoints s' = playerPoints s ∧
  heldToken s' = heldToken s ∧ overlay s' = overlay s ∧
  cellMap s' = <[cellKey i j := mkCellInfo i j (spawn (entropy s)).1]> (cellMap s) ∧
  entropy s' = (spawn (entropy s)).2.
Proof. unfold renderCell. by destruct (spawn _). Qed.

Lemma renderMissing_frame_main cells s :
  let s' := renderMissing cells s in
  PLAYER_START_LATLNG s' = PLAYER_START_LATLNG s ∧
  playerLatLng s' = playerLatLng s ∧ playerPoints s' = playerPoints s ∧
  heldToken s' = heldToken s ∧ overlay s' = overlay s.
Proof.
  revert s. induction cells as [|[a b] cells IH]; intros s; simpl; [done|].
  case_decide; [apply IH|].
  destruct (IH (renderCell a b s)) as (-> & -> & -> & -> & ->).
  by destruct (renderCell_frame_main a b s) as (-> & -> & -> & -> & -> & _).
Qed.

Lemma renderMissing_grows_main cells s : cellMap s ⊆ cellMap (renderMissing cells s).
Proof.
  revert s. induction cells as [|[a b] cells IH]; intros s; simpl; [done|].
  case_decide as Hk; [apply IH|]. etrans; [|apply IH].
  destruct (renderCell_frame_main a b s) as (_ & _ & _ & _ & _ & -> & _).
  apply insert_subseteq. by apply eq_None_not_Some.
Qed.

Lemma renderMissing_dom_main cells s :
  dom (cellMap (renderMissing cells s))
  = dom (cellMap s) ∪ list_to_set (keyOf <$> cells).
Proof.
  revert s. induction cells as [|[a b] cells IH]; intros s; simpl.
  - set_solver.
  - case_decide as Hk; rewrite IH.
    + apply (elem_of_dom (D:=gset string)) in Hk. unfold keyOf at 2. simpl.
      set_solver.
    + destruct (renderCell_frame_main a b s) as (_ & _ & _ & _ & _ & -> & _).
      rewrite dom_insert_L. unfold keyOf at 2. simpl. set_solver.
Qed.

Lemma renderMissing_ok_main cells s :
  fair (entropy s) → cells_ok (cellMap s) →
  fair (entropy (renderMissing cells s)) ∧ cells_ok (cellMap (renderMissing cells s)).
Proof.
  revert s. induction cells as [|[a b] cells IH]; intros s He Hm; simpl; [done|].
  case_decide; [by apply IH|].
  destruct (renderCell_frame_main a b s) as (_ & _ & _ & _ & _ & Hc & Hen).
  apply IH.
  - rewrite Hen. by apply spawn_fair.
  - rewrite Hc. intros k info. rewrite lookup_insert. case_decide; [|apply Hm].
    intros [= <-]. simpl. by apply spawn_content_ok.
Qed.

Lemma renderMissing_steady_main r cells s :
  steady r (entropy s) →
  steady r (entropy (renderMissing cells s)) ∧
  ∀ k info, cellMap (renderMissing cells s) !! k = Some info →
    cellMap s !! k = Some info ∨ value info = (spawn (mkEntropy (λ _, r) 0)).1.
Proof.
  revert s. induction cells as [|[a b] cells IH]; intros s Hs; simpl; [by auto|].
  case_decide as Hk; [by apply IH|].
  destruct (renderCell_frame_main a b s) as (_ & _ & _ & _ & _ & Hc & Hen).
  destruct (spawn_steady r (entropy s) Hs) as [Hs' Hv].
  destruct (IH (renderCell a b s)) as [Hst Hin]; [by rewrite Hen|].
  split; [exact Hst|]. intros k info Hlook.
  destruct (Hin k info Hlook) as [Hold|Hnew]; [|by right].
  rewrite Hc, lookup_insert in Hold. case_decide.
  - right. injection Hold as <-. exact Hv.
  - by left.
Qed.

(** *** [renderVisibleCells] *)

(** The second loop of [renderVisibleCells], on the state [s1] the first
    loop leaves. *)
Definition prune (c : Cell) (s1 : state) : state :=
  mkState (PLAYER_START_LATLNG s1) (playerLatLng s1) (playerPoints s1)
          (heldToken s1)
          (filter (λ kv, kv.1 ∈ desired c) (cellMap s1))
          (overlay s1) (entropy s1).

Lemma renderVisibleCells_eq_main s :
  renderVisibleCells s
  = prune (playerCell s)
          (renderMissing (windowCells (playerCell s) RENDER_RADIUS) s).
Proof. unfold renderVisibleCells, renderMissing, prune. reflexivity. Qed.

Lemma prune_frame_main c s1 :
  PLAYER_START_LATLNG (prune c s1) = PLAYER_START_LATLNG s1 ∧
  playerLatLng (prune c s1) = playerLatLng s1 ∧
  playerPoints (prune c s1) = playerPoints s1 ∧
  heldToken (prune c s1) = heldToken s1 ∧ overlay (prune c s1) = overlay s1 ∧
  entropy (prune c s1) = entropy s1 ∧
  cellMap (prune c s1) = filter (λ kv, kv.1 ∈ desired c) (cellMap s1).
Proof. unfold prune. cbn. auto 10. Qed.

#[local] Opaque prune renderMissing.

Lemma renderVisibleCells_unfold_main s :
  cellMap (renderVisibleCells s)
  = filter (λ kv, kv.1 ∈ desired (playerCell s))
           (cellMap (renderMissing (windowCells (playerCell s) RENDER_RADIUS) s)).
Proof. rewrite renderVisibleCells_eq_main. apply prune_frame_main. Qed.

Lemma renderVisibleCells_frame_main s :
  let s' := renderVisibleCells s in
  PLAYER_START_LATLNG s' = PLAYER_START_LATLNG s ∧
  playerLatLng s' = playerLatLng s ∧ playerPoints s' = playerPoints s ∧
  heldToken s' = heldToken s ∧ overlay s' = overlay s.
Proof.
  cbv zeta. rewrite renderVisibleCells_eq_main.
  destruct (prune_frame_main (playerCell s)
              (renderMissing (windowCells (playerCell s) RENDER_RADIUS) s))
    as (-> & -> & -> & -> & -> & _).
  apply (renderMissing_frame_main (windowCells (playerCell s) RENDER_RADIUS) s).
Qed.

Lemma renderVisibleCells_entropy_main s :
  entropy (renderVisibleCells s)
  = entropy (renderMissing (windowCells (playerCell s) RENDER_RADIUS) s).
Proof. rewrite renderVisibleCells_eq_main. apply prune_frame_main. Qed.

(** An entry inside the new window survives the recomputation. *)
Lemma renderVisibleCells_keeps_main s k info :
  k ∈ desired (playerCell s) → cellMap s !! k = Some info →
  cellMap (renderVisibleCells s) !! k = Some info.
Proof.
  intros Hk Hinfo. rewrite renderVisibleCells_unfold_main.
  apply map_lookup_filter_Some. split; [|done].
  by apply (lookup_weaken _ _ _ _ Hinfo), renderMissing_grows_main.
Qed.

(** An entry outside the new window is deleted by it. *)
Lemma renderVisibleCells_prunes_main s k :
  k ∉ desired (playerCell s) → cellMap (renderVisibleCells s) !! k = None.
Proof.
  intros Hk. rewrite renderVisibleCells_unfold_main.
  apply map_lookup_filter_None. right. intros info _. done.
Qed.

Lemma renderVisibleCells_dom_main s :
  dom (cellMap (renderVisibleCells s)) = desired (playerCell s).
Proof.
  rewrite renderVisibleCells_unfold_main. apply dom_filter_L. intros k. split.
  - intros Hk.
    assert (k ∈ dom (cellMap (renderMissing
              (windowCells (playerCell s) RENDER_RADIUS) s))) as Hd.
    { rewrite renderMissing_dom_main. apply elem_of_union_r. exact Hk. }
    apply elem_of_dom in Hd as [info Hinfo]. by exists info.
  - by intros (info & _ & Hk).
Qed.

Lemma cells_ok_filter_main (P : string * CellInfo → Prop) `{!∀ x, Decision (P x)} m :
  cells_ok m → cells_ok (filter P m).
Proof. intros Hm k info [Hk _]%map_lookup_filter_Some. by eapply Hm. Qed.


Lemma renderVisibleCells_ok_main s :
  fair (entropy s) → cells_ok (cellMap s) →
  fair (entropy (renderVisibleCells s)) ∧ cells_ok (cellMap (renderVisibleCells s)).
Proof.
  intros He Hm.
  destruct (renderMissing_ok_main (windowCells (playerCell s) RENDER_RADIUS) s He Hm)
    as [He1 Hm1].
  rewrite renderVisibleCells_entropy_main, renderVisibleCells_unfold_main.
  split; [exact He1|]. by apply cells_ok_filter_main.
Qed.

Lemma renderVisibleCells_steady_main r s :
  steady r (entropy s) → steady r (entropy (renderVisibleCells s)).
Proof.
  intros Hs. rewrite renderVisibleCells_entropy_main.
  by apply renderMissing_steady_main.
Qed.

(** A cell that enters the window is generated from the next draws. *)
Lemma renderVisibleCells_fresh_main r s i j :
  steady r (entropy s) → cellMap s !! cellKey i j = None →
  within RENDER_RADIUS (playerCell s) i j = true →
  content i j (renderVisibleCells s) = Some (spawn (mkEntropy (λ _, r) 0)).1.
Proof.
  intros Hs Hnone Hin. unfold content.
  assert (cellKey i j ∈ dom (cellMap (renderVisibleCells s))) as Hd.
  { rewrite renderVisibleCells_dom_main. by apply elem_of_desired_main. }
  apply elem_of_dom in Hd as [info Hinfo]. rewrite Hinfo. cbn. f_equal.
  rewrite renderVisibleCells_unfold_main in Hinfo.
  apply map_lookup_filter_Some in Hinfo as [Hinfo _].
  destruct (renderMissing_steady_main r
              (windowCells (playerCell s) RENDER_RADIUS) s Hs) as [_ Hv].
  destruct (Hv _ _ Hinfo) as [Hold|Hnew]; [congruence|exact Hnew].
Qed.

(** *** The click handler *)

Lemma checkVictory_frame_main s :
  let s' := checkVictory s in
  PLAYER_START_LATLNG s' = PLAYER_START_LATLNG s ∧
  playerLatLng s' = playerLatLng s ∧ playerPoints s' = playerPoints s ∧
  heldToken s' = heldToken s ∧ cellMap s' = cellMap s ∧
  entropy s' = entropy s ∧
  overlay s' = overlay s || reaches (heldToken s) TARGET_MAX_TOKEN.
Proof.
  unfold checkVictory. destruct (reaches _ _); cbn;
    rewrite ?orb_true_r, ?orb_false_r; auto 10.
Qed.

Lemma click_unrendered_main i j s :
  cellMap s !! cellKey i j = None → click i j s = s.
Proof. unfold click. by intros ->. Qed.

Lemma click_out_of_range_main i j s : canInteract i j s = false → click i j s = s.
Proof.
  intros Hout. unfold click. rewrite Hout.
  by destruct (cellMap s !! cellKey i j).
Qed.

Lemma observe_rendered_main i j s info :
  cellMap s !! cellKey i j = Some info →
  observe i j s = mkView (heldToken s) (value info) (playerPoints s).
Proof. intros H. unfold observe, content. by rewrite H. Qed.

Lemma click_rules_main i j s :
  canInteract i j s = true → is_Some (cellMap s !! cellKey i j) →
  picks_up (observe i j s) (observe i j (click i j s)) ∧
  places (observe i j s) (observe i j (click i j s)) ∧
  crafts (observe i j s) (observe i j (click i j s)).
Proof.
  intros Hin [info Hinfo].
  rewrite (observe_rendered_main _ _ _ _ Hinfo).
  unfold picks_up, places, crafts, click. rewrite Hinfo, Hin.
  cbn [negb hand cell score].
  split; [|split].
  - intros v -> ->.
    match goal with |- context [checkVictory ?s0] =>
      destruct (checkVictory_frame_main s0) as (_ & _ & Hp & Hh & Hm & _) end.
    unfold observe, content. rewrite Hp, Hh, Hm. cbn.
    by rewrite lookup_insert_eq.
  - intros v -> ->. unfold observe, content. cbn. by rewrite lookup_insert_eq.
  - intros v w -> -> Hwv. apply Qeq_bool_iff in Hwv. rewrite Hwv.
    match goal with |- context [checkVictory ?s0] =>
      destruct (checkVictory_frame_main s0) as (_ & _ & Hp & Hh & Hm & _) end.
    unfold observe, content. rewrite Hp, Hh, Hm. cbn.
    by rewrite lookup_insert_eq.
Qed.

Lemma click_rejected_main i j s :
  canInteract i j s = false ∨ mismatched (observe i j s) →
  click i j s = s.
Proof.
  intros [Hout|(v & w & Hv & Hw & Hne)]; [by apply click_out_of_range_main|].
  destruct (cellMap s !! cellKey i j) as [info|] eqn:Hinfo;
    [|by apply click_unrendered_main].
  rewrite (observe_rendered_main _ _ _ _ Hinfo) in Hv, Hw. cbn in Hv, Hw.
  unfold click. rewrite Hinfo, Hv, Hw.
  destruct (negb (canInteract i j s)); [done|].
  destruct (Qeq_bool w v) eqn:E; [|done].
  apply Qeq_bool_iff in E. by destruct Hne.
Qed.


Lemma click_dom_main i j s : dom (cellMap (click i j s)) = dom (cellMap s).
Proof.
  unfold click.
  destruct (cellMap s !! cellKey i j) as [info|] eqn:Hinfo; [|done].
  assert (∀ x, dom (<[cellKey i j := x]> (cellMap s)) = dom (cellMap s)) as Hd.
  { intros x. apply dom_insert_lookup_L. by eexists. }
  destruct (negb (canInteract i j s)); [done|].
  destruct (heldToken s) as [h|], (value info) as [v|]; try done.
  - destruct (Qeq_bool v h); [|done].
    match goal with |- context [checkVictory ?s0] =>
      destruct (checkVictory_frame_main s0) as (_ & _ & _ & _ & -> & _) end.
    apply Hd.
  - apply Hd.
  - match goal with |- context [checkVictory ?s0] =>
      destruct (checkVictory_frame_main s0) as (_ & _ & _ & _ & -> & _) end.
    apply Hd.
Qed.

Lemma moveend_dom_main center s :
  dom (cellMap (moveend center s))
  = desired (latLngToCell (PLAYER_START_LATLNG s) center).
Proof. unfold moveend. by rewrite renderVisibleCells_dom_main. Qed.

(** *** Movement and restart *)

Lemma moveend_keeps_main center s i j info :
  within RENDER_RADIUS (latLngToCell (PLAYER_START_LATLNG s) center) i j = true →
  cellMap s !! cellKey i j = Some info →
  cellMap (moveend center s) !! cellKey i j = Some info.
Proof.
  intros Hin Hinfo. unfold moveend.
  apply renderVisibleCells_keeps_main; [|exact Hinfo].
  apply elem_of_desired_main. exact Hin.
Qed.

Lemma moveend_prunes_main center s i j :
  within RENDER_RADIUS (latLngToCell (PLAYER_START_LATLNG s) center) i j = false →
  cellMap (moveend center s) !! cellKey i j = None.
Proof.
  intros Hout. unfold moveend. apply renderVisibleCells_prunes_main.
  rewrite elem_of_desired_main. unfold playerCell. cbn [PLAYER_START_LATLNG playerLatLng].
  by rewrite Hout.
Qed.

Lemma moveend_fresh_main r center s i j :
  steady r (entropy s) → cellMap s !! cellKey i j = None →
  within RENDER_RADIUS (latLngToCell (PLAYER_START_LATLNG s) center) i j = true →
  content i j (moveend center s) = Some (spawn (mkEntropy (λ _, r) 0)).1.
Proof.
  intros Hs Hnone Hin. unfold moveend.
  by apply (renderVisibleCells_fresh_main r).
Qed.

Lemma moveend_steady_main r center s :
  steady r (entropy s) → steady r (entropy (moveend center s)).
Proof. intros Hs. unfold moveend. by apply renderVisibleCells_steady_main. Qed.

Lemma click_entropy_main i j s : entropy (click i j s) = entropy s.
Proof.
  unfold click.
  destruct (cellMap s !! cellKey i j) as [info|]; [|done].
  destruct (negb (canInteract i j s)); [done|].
  destruct (heldToken s) as [h|], (value info) as [v|]; try done.
  - destruct (Qeq_bool v h); [|done].
    match goal with |- context [checkVictory ?s0] =>
      by destruct (checkVictory_frame_main s0) as (_ & _ & _ & _ & _ & -> & _) end.
  - match goal with |- context [checkVictory ?s0] =>
      by destruct (checkVictory_frame_main s0) as (_ & _ & _ & _ & _ & -> & _) end.
Qed.

Lemma click_frame_main i j s :
  PLAYER_START_LATLNG (click i j s) = PLAYER_START_LATLNG s ∧
  playerLatLng (click i j s) = playerLatLng s.
Proof.
  unfold click.
  destruct (cellMap s !! cellKey i j) as [info|]; [|done].
  destruct (negb (canInteract i j s)); [done|].
  destruct (heldToken s) as [h|], (value info) as [v|]; try done.
  - destruct (Qeq_bool v h); [|done].
    match goal with |- context [checkVictory ?s0] =>
      by destruct (checkVictory_frame_main s0) as (-> & -> & _) end.
  - match goal with |- context [checkVictory ?s0] =>
      by destruct (checkVictory_frame_main s0) as (-> & -> & _) end.
Qed.

Lemma startup_frame_main geo e :
  let s := startup geo e in
  PLAYER_START_LATLNG s = default FALLBACK_LATLNG geo ∧
  playerLatLng s = default FALLBACK_LATLNG geo ∧
  playerPoints s = 0%Q ∧ heldToken s = None ∧ overlay s = false.
Proof.
  cbv zeta. unfold startup.
  match goal with |- context [renderVisibleCells ?s0] =>
    destruct (renderVisibleCells_frame_main s0) as (-> & -> & -> & -> & ->) end.
  cbn. auto.
Qed.

Lemma startup_fresh_main r geo e i j :
  steady r e → within RENDER_RADIUS (mkCell 0 0) i j = true →
  content i j (startup geo e) = Some (spawn (mkEntropy (λ _, r) 0)).1.
Proof.
  intros Hs Hin. unfold startup.
  apply (renderVisibleCells_fresh_main r); [exact Hs|apply lookup_empty|].
  unfold playerCell. cbn [PLAYER_START_LATLNG playerLatLng].
  by rewrite latLngToCell_self.
Qed.

Lemma startup_dom_main geo e :
  dom (cellMap (startup geo e)) = desired (mkCell 0 0).
Proof.
  unfold startup. rewrite renderVisibleCells_dom_main.
  unfold playerCell. cbn [PLAYER_START_LATLNG playerLatLng].
  by rewrite latLngToCell_self.
Qed.

Lemma startup_steady_main r geo e :
  steady r e → steady r (entropy (startup geo e)).
Proof. intros Hs. unfold startup. by apply renderVisibleCells_steady_main. Qed.

Lemma moveend_frame_main center s :
  let s' := moveend center s in
  PLAYER_START_LATLNG s' = PLAYER_START_LATLNG s ∧ playerLatLng s' = center ∧
  playerPoints s' = playerPoints s ∧ heldToken s' = heldToken s ∧
  overlay s' = overlay s.
Proof.
  cbv zeta. unfold moveend.
  match goal with |- context [renderVisibleCells ?s0] =>
    destruct (renderVisibleCells_frame_main s0) as (-> & -> & -> & -> & ->) end.
  cbn. auto.
Qed.

Lemma restartGame_frame_main s :
  let s' := restartGame s in
  playerPoints s' = 0%Q ∧ heldToken s' = None ∧ overlay s' = false ∧
  PLAYER_START_LATLNG s' = PLAYER_START_LATLNG s ∧
  playerLatLng s' = PLAYER_START_LATLNG s.
Proof.
  cbv zeta. unfold restartGame.
  match goal with |- context [renderVisibleCells ?s0] =>
    destruct (renderVisibleCells_frame_main s0) as (-> & -> & -> & -> & ->) end.
  cbn. auto.
Qed.

Lemma restartGame_dom_main s :
  dom (cellMap (restartGame s)) = desired (mkCell 0 0).
Proof.
  unfold restartGame. rewrite renderVisibleCells_dom_main.
  unfold playerCell. cbn [PLAYER_START_LATLNG playerLatLng].
  by rewrite latLngToCell_self.
Qed.

(** *** The power-of-two invariant *)

Lemma cells_ok_insert_main k info m :
  content_ok (value info) → cells_ok m → cells_ok (<[k := info]> m).
Proof.
  intros Hc Hm k' c'. rewrite lookup_insert. case_decide; [|apply Hm].
  by intros [= <-].
Qed.

Lemma checkVictory_inv_main s : inv s → inv (checkVictory s).
Proof. unfold checkVictory. by destruct (reaches _ _). Qed.

Lemma click_inv_main i j s : inv s → inv (click i j s).
Proof.
  intros Hs. pose proof Hs as (He & Hh & Hm). unfold click.
  destruct (cellMap s !! cellKey i j) as [info|] eqn:Hinfo; [|exact Hs].
  destruct (negb (canInteract i j s)); [exact Hs|].
  pose proof (Hm _ _ Hinfo) as Hv.
  destruct (heldToken s) as [h|] eqn:Eh, (value info) as [v|] eqn:Ev;
    try exact Hs.
  - destruct (Qeq_bool v h); [|exact Hs]. apply checkVictory_inv_main.
    split; [exact He|split].
    + by apply pow2_token_double.
    + by apply cells_ok_insert_main.
  - split; [exact He|split; [exact I|]]. apply cells_ok_insert_main; [|exact Hm].
    exact Hh.
  - apply checkVictory_inv_main. split; [exact He|split; [exact Hv|]].
    by apply cells_ok_insert_main.
Qed.

Lemma empty_cells_ok_main : cells_ok ∅.
Proof. intros k c. by rewrite lookup_empty. Qed.

Lemma renderVisibleCells_inv_main s : inv s → inv (renderVisibleCells s).
Proof.
  intros (He & Hh & Hm).
  destruct (renderVisibleCells_ok_main s He Hm) as [He' Hm'].
  destruct (renderVisibleCells_frame_main s) as (_ & _ & _ & Hh' & _).
  split; [exact He'|split; [|exact Hm']]. by rewrite Hh'.
Qed.

Lemma step_inv_main e s : inv s → inv (step e s).
Proof.
  intros Hs. destruct e as [i j|center|]; cbn [step].
  - by apply click_inv_main.
  - unfold moveend. apply renderVisibleCells_inv_main. exact Hs.
  - unfold restartGame. apply renderVisibleCells_inv_main.
    destruct Hs as (He & _ & _).
    split; [exact He|split; [exact I|exact empty_cells_ok_main]].
Qed.

Lemma startup_inv_main geo e : fair e → inv (startup geo e).
Proof.
  intros He. unfold startup. apply renderVisibleCells_inv_main.
  split; [exact He|split; [exact I|exact empty_cells_ok_main]].
Qed.

Lemma reachable_inv_main geo e es :
  fair e → inv (foldl (λ st ev, step ev st) (startup geo e) es).
Proof.
  intros He. generalize (startup_inv_main geo e He). generalize (startup geo e).
  induction es as [|ev es IH]; intros s Hs; cbn [foldl]; [exact Hs|].
  by apply IH, step_inv_main.
Qed.

(** Restarting does not look at the score, the hand, the cells or the
    overlay it replaces. *)
Lemma restartGame_ignores_main s pl pts held m ov :
  restartGame (mkState (PLAYER_START_LATLNG s) pl pts held m ov (entropy s))
  = restartGame s.
Proof. unfold restartGame. reflexivity. Qed.

Lemma restartGame_dom_keys_main s :
  dom (cellMap (restartGame s)) = windowKeys (mkCell 0 0) RENDER_RADIUS.
Proof. apply restartGame_dom_main. Qed.

End MainTsFacts.

(** * Facts about [part_000] *)

Module Part000Facts.
Import Part000.

#[local] Arguments windowCells : simpl never.

Section WithLuck.
Variable luck : string → number.

Definition renderEach (cells : list Cell) (s : state) : state :=
  foldl (λ st c, renderCell luck (ci c) (cj c) st) s cells.

Lemma renderEach_cons_000 c cells s :
  renderEach (c :: cells) s = renderEach cells (renderCell luck (ci c) (cj c) s).
Proof. reflexivity. Qed.

Lemma renderEach_frame_000 cells s :
  ORIGIN_LATLNG (renderEach cells s) = ORIGIN_LATLNG s ∧
  playerPoints (renderEach cells s) = playerPoints s ∧
  heldToken (renderEach cells s) = heldToken s.
Proof.
  revert s. induction cells as [|[a b] cells IH]; intros s; [done|].
  rewrite renderEach_cons_000. cbn [ci cj].
  destruct (IH (renderCell luck a b s)) as (-> & -> & ->). done.
Qed.

Lemma renderEach_lookup_000 cells s i j :
  cellMap (renderEach cells s) !! cellKey i j
  = if decide (mkCell i j ∈ cells)
    then Some (mkCellInfo i j (initialValue luck i j))
    else cellMap s !! cellKey i j.
Proof.
  revert s. induction cells as [|[a b] cells IH]; intros s.
  - rewrite decide_False; [done|]. apply not_elem_of_nil.
  - rewrite renderEach_cons_000, IH. cbn [ci cj].
    destruct (decide (mkCell i j ∈ cells)) as [Hin|Hout].
    + rewrite decide_True; [done|]. by right.
    + cbn [renderCell set_cell cellMap ci cj].
      destruct (decide (mkCell i j = mkCell a b)) as [[= -> ->]|Hne].
      * rewrite decide_True; [|by left]. by rewrite lookup_insert_eq.
      * rewrite decide_False.
        -- rewrite lookup_insert_ne; [done|].
           intros [-> ->]%cellKey_inj. by apply Hne.
        -- intros [?|?]%elem_of_cons; [by apply Hne | by apply Hout].
Qed.

Lemma renderEach_dom_000 cells s :
  dom (cellMap (renderEach cells s))
  = dom (cellMap s) ∪ list_to_set ((λ x, cellKey (ci x) (cj x)) <$> cells).
Proof.
  revert s. induction cells as [|[a b] cells IH]; intros s.
  - cbn. set_solver.
  - rewrite renderEach_cons_000, IH, fmap_cons, list_to_set_cons.
    cbn [renderCell set_cell cellMap ci cj].
    rewrite dom_insert_L. set_solver.
Qed.

Lemma renderGrid_eq_000 s :
  renderGrid luck s
  = renderEach (windowCells (mkCell 0 0) RENDER_RADIUS)
      (mkState (ORIGIN_LATLNG s) (playerPoints s) (heldToken s) ∅).
Proof. unfold renderGrid, renderEach. reflexivity. Qed.

#[local] Opaque renderEach.

(** After [renderGrid] a cell of the grid holds its seeded initial token,
    whatever it held before; no other cell is on the map. *)
Lemma renderGrid_content_000 s i j :
  content i j (renderGrid luck s)
  = if within RENDER_RADIUS (mkCell 0 0) i j
    then Some (initialValue luck i j) else None.
Proof.
  unfold content. rewrite renderGrid_eq_000, renderEach_lookup_000.
  cbn [cellMap]. rewrite lookup_empty.
  destruct (within RENDER_RADIUS (mkCell 0 0) i j) eqn:Hin.
  - rewrite decide_True; [done|]. apply elem_of_windowCells.
    unfold within in Hin. apply andb_true_iff in Hin as [H1 H2].
    apply bool_decide_eq_true in H1, H2. done.
  - rewrite decide_False; [done|]. intros Hx%elem_of_windowCells.
    unfold within in Hin. apply andb_false_iff in Hin.
    rewrite !bool_decide_eq_false in Hin. cbn [ci cj] in *. tauto.
Qed.

Lemma renderGrid_frame_000 s :
  ORIGIN_LATLNG (renderGrid luck s) = ORIGIN_LATLNG s ∧
  playerPoints (renderGrid luck s) = playerPoints s ∧
  heldToken (renderGrid luck s) = heldToken s.
Proof.
  rewrite renderGrid_eq_000.
  apply (renderEach_frame_000 (windowCells (mkCell 0 0) RENDER_RADIUS)
           (mkState (ORIGIN_LATLNG s) (playerPoints s) (heldToken s) ∅)).
Qed.

Hypothesis luck_nonneg : ∀ seed, (0 <= luck seed)%Q.

Lemma initialValue_ok_000 i j : content_ok (initialValue luck i j).
Proof.
  unfold initialValue. destruct (Qlt_le_dec _ _); [|exact I].
  exists (1 + Qfloor (luck (cellKey i j +:+ ",value") * 3)).
  pose proof (floor_scaled_nonneg (luck (cellKey i j +:+ ",value")) 3
                (luck_nonneg _)) as H.
  change (inject_Z 3) with 3%Q in H.
  split; [lia|]. apply js_pow2_nonneg. lia.
Qed.
End WithLuck.

Lemma cells_ok_insert_000 k info m :
  content_ok (value info) → cells_ok m → cells_ok (<[k := info]> m).
Proof.
  intros Hc Hm k' c'. rewrite lookup_insert. case_decide; [|apply Hm].
  by intros [= <-].
Qed.

Lemma observe_rendered_000 i j s info :
  cellMap s !! cellKey i j = Some info →
  observe i j s = mkView (heldToken s) (value info) (playerPoints s).
Proof. intros H. unfold observe, content. by rewrite H. Qed.

Lemma canInteract_within_000 i j :
  canInteract i j = within INTERACT_RANGE (mkCell 0 0) i j.
Proof. unfold canInteract, within. cbn [ci cj]. by rewrite !Z.sub_0_r. Qed.

Lemma click_rules_000 i j s :
  canInteract i j = true → is_Some (cellMap s !! cellKey i j) →
  picks_up (observe i j s) (observe i j (click i j s).1) ∧
  places (observe i j s) (observe i j (click i j s).1) ∧
  crafts (observe i j s) (observe i j (click i j s).1).
Proof.
  intros Hin [info Hinfo].
  rewrite (observe_rendered_000 _ _ _ _ Hinfo).
  unfold picks_up, places, crafts, click. rewrite Hinfo, Hin.
  cbn [negb hand cell score].
  split; [|split].
  - intros v -> ->. unfold observe, content. cbn. by rewrite lookup_insert_eq.
  - intros v -> ->. unfold observe, content. cbn. by rewrite lookup_insert_eq.
  - intros v w -> -> Hwv. apply Qeq_bool_iff in Hwv. rewrite Hwv.
    unfold observe, content. cbn. by rewrite lookup_insert_eq.
Qed.

Lemma click_out_of_range_000 i j s :
  canInteract i j = false → is_Some (cellMap s !! cellKey i j) →
  click i j s = (s, FlashOutOfRange).
Proof. intros Hout [info Hinfo]. unfold click. by rewrite Hinfo, Hout. Qed.

Lemma click_incompatible_000 i j s :
  canInteract i j = true → is_Some (cellMap s !! cellKey i j) →
  mismatched (observe i j s) → click i j s = (s, FlashIncompatible).
Proof.
  intros Hin [info Hinfo] (v & w & Hv & Hw & Hne).
  rewrite (observe_rendered_000 _ _ _ _ Hinfo) in Hv, Hw. cbn in Hv, Hw.
  unfold click. rewrite Hinfo, Hin, Hv, Hw. cbn [negb].
  destruct (Qeq_bool w v) eqn:E; [|done].
  apply Qeq_bool_iff in E. by destruct Hne.
Qed.

Lemma click_rejected_000 i j s :
  canInteract i j = false ∨ mismatched (observe i j s) → (click i j s).1 = s.
Proof.
  intros H.
  destruct (cellMap s !! cellKey i j) as [info|] eqn:Hinfo.
  - destruct H as [Hout|Hmis].
    + rewrite click_out_of_range_000; [done|done|by eexists].
    + destruct (canInteract i j) eqn:Hin.
      * rewrite click_incompatible_000; [done|done|by eexists|done].
      * rewrite click_out_of_range_000; [done|done|by eexists].
  - unfold click. by rewrite Hinfo.
Qed.

Lemma click_inv_000 i j s : inv s → inv (click i j s).1.
Proof.
  intros Hs. pose proof Hs as (Hh & Hm). unfold click.
  destruct (cellMap s !! cellKey i j) as [info|] eqn:Hinfo; [|exact Hs].
  destruct (negb (canInteract i j)); [exact Hs|].
  pose proof (Hm _ _ Hinfo) as Hv.
  destruct (heldToken s) as [h|] eqn:Eh, (value info) as [v|] eqn:Ev;
    try exact Hs.
  - destruct (Qeq_bool v h); [|exact Hs].
    split; [by apply pow2_token_double | by apply cells_ok_insert_000].
  - split; [exact I|]. apply cells_ok_insert_000; [exact Hh|exact Hm].
  - split; [exact Hv|]. by apply cells_ok_insert_000.
Qed.

Lemma pick_inv_000 i j s : inv s → inv (pick i j s).2.
Proof.
  intros Hs. pose proof Hs as (Hh & Hm). unfold pick.
  destruct (cellMap s !! cellKey i j) as [c|] eqn:Hc; [|exact Hs].
  pose proof (Hm _ _ Hc) as Hv.
  destruct (heldToken s) as [h|]; [exact Hs|].
  destruct (value c) as [v|] eqn:Ev; [|exact Hs].
  destruct (canInteract i j); [|exact Hs].
  split; [exact Hv|]. by apply cells_ok_insert_000.
Qed.

Lemma step_inv_000 e s : inv s → inv (step e s).
Proof. destruct e; cbn [step]; [apply click_inv_000 | apply pick_inv_000]. Qed.

Lemma renderEach_ok_000 luck cells s :
  (∀ seed, (0 <= luck seed)%Q) → cells_ok (cellMap s) →
  cells_ok (cellMap (renderEach luck cells s)).
Proof.
  intros Hl. revert s. induction cells as [|[a b] cells IH]; intros s Hs; [exact Hs|].
  rewrite renderEach_cons_000. apply IH. cbn [ci cj renderCell set_cell cellMap].
  apply cells_ok_insert_000; [|exact Hs]. by apply initialValue_ok_000.
Qed.

Lemma empty_cells_ok_000 : cells_ok ∅.
Proof. intros k c. by rewrite lookup_empty. Qed.

Lemma renderGrid_inv_000 luck s :
  (∀ seed, (0 <= luck seed)%Q) → content_ok (heldToken s) → inv (renderGrid luck s).
Proof.
  intros Hl Hh. destruct (renderGrid_frame_000 luck s) as (_ & _ & Hh').
  split; [by rewrite Hh'|].
  rewrite renderGrid_eq_000. apply renderEach_ok_000; [exact Hl|exact empty_cells_ok_000].
Qed.

Lemma startup_inv_000 luck geo :
  (∀ seed, (0 <= luck seed)%Q) → inv (startup luck geo).
Proof. intros Hl. unfold startup. apply renderGrid_inv_000; [exact Hl|exact I]. Qed.

Lemma reachable_inv_000 luck geo es :
  (∀ seed, (0 <= luck seed)%Q) →
  inv (foldl (λ st ev, step ev st) (startup luck geo) es).
Proof.
  intros Hl. generalize (startup_inv_000 luck geo Hl). generalize (startup luck geo).
  induction es as [|ev es IH]; intros s Hs; cbn [foldl]; [exact Hs|].
  by apply IH, step_inv_000.
Qed.

End Part000Facts.

(** * Facts about [part_001] *)

Module Part001Facts.
Import Part001.

#[local] Arguments windowCells : simpl never.
#[local] Arguments latLngToCell : simpl never.
#[local] Arguments renderVisibleCells : simpl never.
#[local] Arguments click : simpl never.

(** *** [getCellToken] *)

Lemma getCellToken_hit_001 i j s c :
  modifiedCells s !! cellKey i j = Some c → getCellToken i j s = (c, s).
Proof. unfold getCellToken. by intros ->. Qed.

Lemma getCellToken_miss_001 i j s :
  modifiedCells s !! cellKey i j = None →
  (getCellToken i j s).1 = (spawn (entropy s)).1 ∧
  modifiedCells (getCellToken i j s).2
  = <[cellKey i j := (spawn (entropy s)).1]> (modifiedCells s) ∧
  entropy (getCellToken i j s).2 = (spawn (entropy s)).2.
Proof. unfold getCellToken. intros ->. by destruct (spawn _). Qed.

Lemma getCellToken_decided_001 i j s :
  modifiedCells (getCellToken i j s).2 !! cellKey i j
  = Some (getCellToken i j s).1.
Proof.
  unfold getCellToken.
  destruct (modifiedCells s !! cellKey i j) eqn:E; [done|].
  destruct (spawn _); simpl. apply lookup_insert_eq.
Qed.

Lemma getCellToken_grows_001 i j s :
  modifiedCells s ⊆ modifiedCells (getCellToken i j s).2.
Proof.
  unfold getCellToken.
  destruct (modifiedCells s !! cellKey i j) eqn:E; [done|].
  destruct (spawn _); simpl. by apply insert_subseteq.
Qed.

Lemma getCellToken_frame_001 i j s :
  let s' := (getCellToken i j s).2 in
  PLAYER_START_LATLNG s' = PLAYER_START_LATLNG s ∧
  playerLatLng s' = playerLatLng s ∧ playerPoints s' = playerPoints s ∧
  heldToken s' = heldToken s ∧ overlay s' = overlay s ∧ layers s' = layers s.
Proof.
  unfold getCellToken.
  destruct (modifiedCells s !! cellKey i j); [done|]. by destruct (spawn _).
Qed.

Lemma getCellToken_fair_001 i j s :
  fair (entropy s) → fair (entropy (getCellToken i j s).2).
Proof.
  unfold getCellToken.
  destruct (modifiedCells s !! cellKey i j); [done|].
  intros H. apply spawn_fair in H. by destruct (spawn _).
Qed.

Lemma getCellToken_store_ok_001 i j s :
  fair (entropy s) → store_ok (modifiedCells s) →
  store_ok (modifiedCells (getCellToken i j s).2) ∧
  content_ok (getCellToken i j s).1.
Proof.
  intros He Hm. unfold getCellToken.
  destruct (modifiedCells s !! cellKey i j) eqn:E; simpl.
  - split; [done|]. by eapply Hm.
  - pose proof (spawn_content_ok _ He). destruct (spawn _); simpl in *.
    split; [by apply store_ok_insert | done].
Qed.

(** *** [renderCell] and the window loop *)

Lemma renderCell_store_001 i j s :
  modifiedCells (renderCell i j s) = modifiedCells (getCellToken i j s).2.
Proof. unfold renderCell. by destruct (getCellToken i j s). Qed.

Lemma renderCell_entropy_001 i j s :
  entropy (renderCell i j s) = entropy (getCellToken i j s).2.
Proof. unfold renderCell. by destruct (getCellToken i j s). Qed.

Lemma renderCell_frame_001 i j s :
  let s' := renderCell i j s in
  PLAYER_START_LATLNG s' = PLAYER_START_LATLNG s ∧
  playerLatLng s' = playerLatLng s ∧ playerPoints s' = playerPoints s ∧
  heldToken s' = heldToken s ∧ overlay s' = overlay s ∧
  layers s' = layers s ++ [mkCell i j].
Proof.
  pose proof (getCellToken_frame_001 i j s) as H. unfold renderCell.
  destruct (getCellToken i j s) as [t s1]. simpl in *.
  destruct H as (-> & -> & -> & -> & -> & ->). done.
Qed.

Definition renderAll (cells : list Cell) (s : state) : state :=
  foldl (λ st x, renderCell (ci x) (cj x) st) s cells.

Lemma renderAll_frame_001 cells s :
  let s' := renderAll cells s in
  PLAYER_START_LATLNG s' = PLAYER_START_LATLNG s ∧
  playerLatLng s' = playerLatLng s ∧ playerPoints s' = playerPoints s ∧
  heldToken s' = heldToken s ∧ overlay s' = overlay s ∧
  layers s' = layers s ++ cells.
Proof.
  revert s. induction cells as [|[a b] cells IH]; intros s; simpl.
  - by rewrite app_nil_r.
  - destruct (IH (renderCell a b s)) as (-> & -> & -> & -> & -> & ->).
    destruct (renderCell_frame_001 a b s) as (-> & -> & -> & -> & -> & ->).
    by rewrite <- app_assoc.
Qed.

Lemma renderAll_grows_001 cells s :
  modifiedCells s ⊆ modifiedCells (renderAll cells s).
Proof.
  revert s. induction cells as [|[a b] cells IH]; intros s; simpl; [done|].
  etrans; [|apply IH]. rewrite renderCell_store_001. apply getCellToken_grows_001.
Qed.

Lemma renderAll_decides_001 cells s x :
  x ∈ cells → is_Some (modifiedCells (renderAll cells s) !! cellKey (ci x) (cj x)).
Proof.
  revert s. induction cells as [|[a b] cells IH]; intros s; simpl.
  - by intros ?%elem_of_nil.
  - intros [->|Hx]%elem_of_cons; [|by apply IH].
    eapply lookup_weaken_is_Some; [|apply renderAll_grows_001].
    rewrite renderCell_store_001, getCellToken_decided_001. by eexists.
Qed.

Lemma renderAll_dom_001 cells s :
  dom (modifiedCells (renderAll cells s))
  = dom (modifiedCells s) ∪ list_to_set ((λ x, cellKey (ci x) (cj x)) <$> cells).
Proof.
  revert s. induction cells as [|[a b] cells IH]; intros s; simpl.
  - set_solver.
  - rewrite IH, renderCell_store_001. unfold getCellToken.
    destruct (modifiedCells s !! cellKey a b) eqn:E; simpl.
    + apply (elem_of_dom_2 (D:=gset string)) in E. set_solver.
    + destruct (spawn _); simpl. rewrite dom_insert_L. set_solver.
Qed.

Lemma renderAll_ok_001 cells s :
  fair (entropy s) → store_ok (modifiedCells s) →
  fair (entropy (renderAll cells s)) ∧ store_ok (modifiedCells (renderAll cells s)).
Proof.
  revert s. induction cells as [|[a b] cells IH]; intros s He Hm; simpl; [done|].
  apply IH.
  - rewrite renderCell_entropy_001. by apply getCellToken_fair_001.
  - rewrite renderCell_store_001. by apply getCellToken_store_ok_001.
Qed.

Lemma renderVisibleCells_unfold_001 s :
  renderVisibleCells s
  = renderAll (windowCells (playerCell s) RENDER_RADIUS) (set_layers [] s).
Proof. unfold renderVisibleCells, renderAll. reflexivity. Qed.

Lemma renderVisibleCells_frame_001 s :
  let s' := renderVisibleCells s in
  PLAYER_START_LATLNG s' = PLAYER_START_LATLNG s ∧
  playerLatLng s' = playerLatLng s ∧ playerPoints s' = playerPoints s ∧
  heldToken s' = heldToken s ∧ overlay s' = overlay s ∧
  layers s' = windowCells (playerCell s) RENDER_RADIUS.
Proof.
  rewrite renderVisibleCells_unfold_001.
  apply (renderAll_frame_001 (windowCells (playerCell s) RENDER_RADIUS) (set_layers [] s)).
Qed.

Lemma renderVisibleCells_grows_001 s :
  modifiedCells s ⊆ modifiedCells (renderVisibleCells s).
Proof. rewrite renderVisibleCells_unfold_001. apply (renderAll_grows_001 _ (set_layers [] s)). Qed.


(** *** The click handler *)

Lemma checkVictory_frame_001 s :
  let s' := checkVictory s in
  PLAYER_START_LATLNG s' = PLAYER_START_LATLNG s ∧
  playerLatLng s' = playerLatLng s ∧ playerPoints s' = playerPoints s ∧
  heldToken s' = heldToken s ∧ modifiedCells s' = modifiedCells s ∧
  entropy s' = entropy s ∧ layers s' = layers s.
Proof. unfold checkVictory. by destruct (reaches _ _). Qed.

Lemma checkVictory_overlay_001 s :
  overlay (checkVictory s) = overlay s || reaches (heldToken s) TARGET_MAX_TOKEN.
Proof.
  unfold checkVictory. destruct (reaches _ _); simpl; by rewrite ?orb_true_r, ?orb_false_r.
Qed.

Lemma interact_decided_001 i j t s :
  is_Some (modifiedCells s !! cellKey i j) →
  is_Some (modifiedCells (interact i j t s) !! cellKey i j).
Proof.
  intros Hs. unfold interact.
  destruct (heldToken s) as [h|], t as [v|]; simpl; try done;
    try (rewrite lookup_insert_eq; by eexists).
  destruct (Qeq_bool v h); simpl; [|done]. rewrite lookup_insert_eq; by eexists.
Qed.

Lemma interact_dom_001 i j t s :
  dom (modifiedCells s) ⊆ dom (modifiedCells (interact i j t s)).
Proof.
  unfold interact.
  destruct (heldToken s) as [h|], t as [v|]; simpl; try done;
    try (rewrite dom_insert_L; set_solver).
  destruct (Qeq_bool v h); simpl; [|done]. rewrite dom_insert_L; set_solver.
Qed.

Lemma interact_other_001 i j t s k :
  k ≠ cellKey i j →
  modifiedCells (interact i j t s) !! k = modifiedCells s !! k.
Proof.
  intros Hk. unfold interact.
  destruct (heldToken s) as [h|], t as [v|]; simpl; try done;
    try by rewrite lookup_insert_ne.
  destruct (Qeq_bool v h); simpl; [|done]. by rewrite lookup_insert_ne.
Qed.

Lemma interact_entropy_001 i j t s : entropy (interact i j t s) = entropy s.
Proof.
  unfold interact.
  destruct (heldToken s) as [h|], t as [v|]; simpl; try done.
  by destruct (Qeq_bool v h).
Qed.

(** What an in-range click leaves behind, in terms of the state [s1] after
    the handler's read and of the decision taken on it. *)
Lemma click_in_range_001 i j s :
  canInteract i j s = true →
  let t := (getCellToken i j s).1 in
  let s1 := (getCellToken i j s).2 in
  let s2 := interact i j t s1 in
  heldToken (click i j s) = heldToken s2 ∧
  playerPoints (click i j s) = playerPoints s2 ∧
  modifiedCells (click i j s) = modifiedCells s2 ∧
  entropy (click i j s) = entropy s1 ∧
  overlay (click i j s) = overlay s || reaches (heldToken s2) TARGET_MAX_TOKEN ∧
  PLAYER_START_LATLNG (click i j s) = PLAYER_START_LATLNG s ∧
  playerLatLng (click i j s) = playerLatLng s.
Proof.
  intros Hin. unfold click. rewrite Hin. simpl.
  pose proof (getCellToken_decided_001 i j s) as Hdec.
  pose proof (getCellToken_frame_001 i j s) as Hfr.
  destruct (getCellToken i j s) as [t s1]. simpl in *.
  assert (is_Some (modifiedCells (interact i j t s1) !! cellKey i j)) as [c Hc].
  { apply interact_decided_001. by eexists. }
  set (s2 := interact i j t s1) in *.
  destruct (checkVictory_frame_001 s2) as (Hv1 & Hv2 & Hv3 & Hv4 & Hv5 & Hv6 & Hv7).
  pose proof (checkVictory_overlay_001 s2) as Hov.
  set (s3 := set_layers _ (saveGameState (checkVictory s2))).
  assert (modifiedCells s3 !! cellKey i j = Some c) as Hc3.
  { subst s3. simpl. by rewrite Hv5. }
  unfold renderCell. rewrite (getCellToken_hit_001 _ _ _ _ Hc3). subst s3. simpl.
  rewrite Hv1, Hv2, Hv3, Hv4, Hv5, Hv6, Hov.
  assert (overlay s2 = overlay s1 ∧ PLAYER_START_LATLNG s2 = PLAYER_START_LATLNG s1
          ∧ playerLatLng s2 = playerLatLng s1 ∧ entropy s2 = entropy s1)
    as (-> & -> & -> & ->).
  { subst s2. unfold interact.
    destruct (heldToken s1) as [h|], t as [v|]; simpl; try done.
    by destruct (Qeq_bool v h). }
  destruct Hfr as (-> & -> & _ & _ & -> & _). done.
Qed.

Lemma click_out_of_range_001 i j s : canInteract i j s = false → click i j s = s.
Proof. intros Hout. unfold click. by rewrite Hout. Qed.


(** The view after an in-range click, from the view before it. *)
Lemma observe_click_001 i j s :
  canInteract i j s = true →
  let t := (getCellToken i j s).1 in
  let s2 := interact i j t (getCellToken i j s).2 in
  observe i j (click i j s)
  = mkView (heldToken s2) (default None (modifiedCells s2 !! cellKey i j))
           (playerPoints s2).
Proof.
  intros Hin. destruct (click_in_range_001 i j s Hin) as (Hh & Hp & Hm & _).
  simpl. unfold observe. rewrite Hh, Hp. f_equal.
  assert (is_Some (modifiedCells (click i j s) !! cellKey i j)) as [c Hc].
  { rewrite Hm. apply interact_decided_001. rewrite getCellToken_decided_001. by eexists. }
  rewrite (getCellToken_hit_001 _ _ _ _ Hc). simpl. rewrite <- Hm, Hc. done.
Qed.

Lemma click_rules_001 i j s :
  canInteract i j s = true →
  picks_up (observe i j s) (observe i j (click i j s)) ∧
  places (observe i j s) (observe i j (click i j s)) ∧
  crafts (observe i j s) (observe i j (click i j s)).
Proof.
  intros Hin. rewrite (observe_click_001 i j s Hin).
  destruct (getCellToken_frame_001 i j s) as (_ & _ & Hp & Hh & _).
  unfold observe, picks_up, places, crafts. simpl.
  destruct (getCellToken i j s) as [t s1]. simpl in *.
  unfold interact. rewrite Hh, <- Hp.
  split; [|split].
  - intros v -> ->. simpl. by rewrite lookup_insert_eq.
  - intros v -> ->. simpl. by rewrite lookup_insert_eq.
  - intros v w -> -> Hwv. apply Qeq_bool_iff in Hwv. rewrite Hwv. simpl.
    by rewrite lookup_insert_eq.
Qed.

Lemma click_rejected_001 i j s :
  canInteract i j s = false ∨ mismatched (observe i j s) →
  observe i j (click i j s) = observe i j s.
Proof.
  intros [Hout|(v & w & Hv & Hw & Hne)].
  { by rewrite click_out_of_range_001. }
  destruct (canInteract i j s) eqn:Hin; [|by rewrite click_out_of_range_001].
  rewrite (observe_click_001 i j s Hin).
  pose proof (getCellToken_decided_001 i j s) as Hdec.
  destruct (getCellToken_frame_001 i j s) as (_ & _ & Hp & Hh & _).
  unfold observe in *. simpl in *.
  destruct (getCellToken i j s) as [t s1]. simpl in *. subst t.
  unfold interact. rewrite Hh, Hv.
  destruct (Qeq_bool w v) eqn:E.
  { apply Qeq_bool_iff in E. by destruct Hne. }
  by rewrite Hdec, Hp, Hh, Hv.
Qed.

(** *** Persistence leaves the game alone *)

Lemma saveGameState_frame_001 s :
  let s' := saveGameState s in
  PLAYER_START_LATLNG s' = PLAYER_START_LATLNG s ∧
  playerLatLng s' = playerLatLng s ∧ playerPoints s' = playerPoints s ∧
  heldToken s' = heldToken s ∧ movementMode s' = movementMode s ∧
  modifiedCells s' = modifiedCells s ∧ overlay s' = overlay s ∧
  entropy s' = entropy s ∧ layers s' = layers s.
Proof. cbn. auto 10. Qed.

Lemma renderVisibleCells_mode_001 s :
  movementMode (renderVisibleCells s) = movementMode s.
Proof.
  rewrite renderVisibleCells_unfold_001.
  generalize (windowCells (playerCell s) RENDER_RADIUS). intros cells.
  change (movementMode s) with (movementMode (set_layers [] s)).
  generalize (set_layers [] s). clear s.
  induction cells as [|[a b] cells IH]; intros s; [done|].
  cbn [renderAll foldl]. change (foldl _ ?s0 cells) with (renderAll cells s0).
  rewrite IH. cbn [ci cj]. unfold renderCell, getCellToken.
  destruct (modifiedCells s !! cellKey a b); [done|]. by destruct (spawn _).
Qed.

(** *** Events *)

(** A move: the player's position is replaced, the window re-rendered and
    the state saved -- the body shared by the [moveend] listener in button
    mode and the position callback. *)
Definition relocate (p : LatLng) (s : state) : state :=
  saveGameState (renderVisibleCells (set_playerLatLng p s)).

Lemma relocate_grows_001 p s : modifiedCells s ⊆ modifiedCells (relocate p s).
Proof.
  unfold relocate.
  destruct (saveGameState_frame_001 (renderVisibleCells (set_playerLatLng p s)))
    as (_ & _ & _ & _ & _ & -> & _).
  apply (renderVisibleCells_grows_001 (set_playerLatLng p s)).
Qed.

Lemma moveend_cases_001 center s :
  moveend center s = s ∨ moveend center s = relocate center s.
Proof. unfold moveend, relocate. destruct (movementMode s); auto. Qed.

Lemma toggleMovementMode_store_001 s :
  modifiedCells (toggleMovementMode s) = modifiedCells s.
Proof. unfold toggleMovementMode. by destruct (movementMode s). Qed.

Lemma step_grows_moves_001 e s :
  match e with Click _ _ | Restart => True | _ =>
    modifiedCells s ⊆ modifiedCells (step e s) end.
Proof.
  destruct e as [i j|center|pos| |]; cbn [step]; try exact I.
  - destruct (moveend_cases_001 center s) as [->| ->]; [done|apply relocate_grows_001].
  - apply relocate_grows_001.
  - by rewrite toggleMovementMode_store_001.
Qed.

Lemma step_keeps_keys_001 e s :
  e ≠ Restart → dom (modifiedCells s) ⊆ dom (modifiedCells (step e s)).
Proof.
  intros He. destruct e as [i j|center|pos| |].
  5: { exfalso. apply He. reflexivity. }
  - cbn [step].
    destruct (canInteract i j s) eqn:Hin; [|by rewrite click_out_of_range_001].
    destruct (click_in_range_001 i j s Hin) as (_ & _ & -> & _).
    etrans; [|apply interact_dom_001].
    apply subseteq_dom, getCellToken_grows_001.
  - apply subseteq_dom, (step_grows_moves_001 (MoveEnd center)).
  - apply subseteq_dom, (step_grows_moves_001 (WatchPosition pos)).
  - apply subseteq_dom, (step_grows_moves_001 ToggleMovementMode).
Qed.

Lemma step_keeps_content_001 i j e s c :
  spares i j e →
  modifiedCells s !! cellKey i j = Some c →
  modifiedCells (step e s) !! cellKey i j = Some c.
Proof.
  intros He Hc. destruct e as [i' j'|center|pos| |].
  5: { destruct He. }
  - cbn [step spares] in *.
    destruct (canInteract i' j' s) eqn:Hin; [|by rewrite click_out_of_range_001].
    destruct (click_in_range_001 i' j' s Hin) as (_ & _ & -> & _).
    rewrite interact_other_001.
    + by apply (lookup_weaken _ _ _ _ Hc), getCellToken_grows_001.
    + intros [??]%cellKey_inj. apply He. congruence.
  - apply (lookup_weaken _ _ _ _ Hc), (step_grows_moves_001 (MoveEnd center)).
  - apply (lookup_weaken _ _ _ _ Hc), (step_grows_moves_001 (WatchPosition pos)).
  - apply (lookup_weaken _ _ _ _ Hc), (step_grows_moves_001 ToggleMovementMode).
Qed.

(** Memento durability: what [saveCell] wrote is what [getCellToken]
    returns, whatever spares the cell in between. *)
Lemma read_after_write_001 i j v s es :
  Forall (spares i j) es →
  (getCellToken i j (foldl (λ st e, step e st) (saveCell i j v s) es)).1 = v.
Proof.
  intros Hes.
  assert (modifiedCells (saveCell i j v s) !! cellKey i j = Some v) as Hv.
  { cbn [saveCell saveGameState set_localStorage modifiedCells].
    apply lookup_insert_eq. }
  revert Hv. generalize (saveCell i j v s). clear s.
  induction Hes as [|e es He _ IH]; intros s Hv; cbn [foldl].
  - by rewrite (getCellToken_hit_001 _ _ _ _ Hv).
  - apply IH. by apply step_keeps_content_001.
Qed.

(** *** The power-of-two invariant *)

Lemma interact_inv_001 i j t s : content_ok t → inv s → inv (interact i j t s).
Proof.
  intros Ht Hs. pose proof Hs as (He & Hh & Hm). unfold interact.
  destruct (heldToken s) as [h|] eqn:Eh, t as [v|]; try exact Hs.
  - destruct (Qeq_bool v h); [|exact Hs].
    split; [exact He|split].
    + by apply pow2_token_double.
    + by apply store_ok_insert.
  - split; [exact He|split; [exact I|]]. by apply store_ok_insert.
  - split; [exact He|split; [exact Ht|]]. by apply store_ok_insert.
Qed.

Lemma renderVisibleCells_inv_001 s : inv s → inv (renderVisibleCells s).
Proof.
  intros (He & Hh & Hm).
  destruct (renderVisibleCells_frame_001 s) as (_ & _ & _ & Hh' & _).
  rewrite renderVisibleCells_unfold_001 in *.
  destruct (renderAll_ok_001 (windowCells (playerCell s) RENDER_RADIUS)
              (set_layers [] s) He Hm) as [??].
  split; [done|split; [|done]]. by rewrite Hh'.
Qed.

Lemma saveGameState_inv_001 s : inv s → inv (saveGameState s).
Proof.
  unfold inv.
  destruct (saveGameState_frame_001 s) as (_ & _ & _ & -> & _ & -> & _ & -> & _).
  auto.
Qed.

Lemma relocate_inv_001 p s : inv s → inv (relocate p s).
Proof.
  intros Hs. unfold relocate. apply saveGameState_inv_001, renderVisibleCells_inv_001.
  exact Hs.
Qed.

Lemma step_inv_001 e s : inv s → inv (step e s).
Proof.
  intros Hs. destruct e as [i j|center|pos| |]; cbn [step].
  - destruct (canInteract i j s) eqn:Hin; [|by rewrite click_out_of_range_001].
    destruct Hs as (He & Hh & Hm).
    destruct (click_in_range_001 i j s Hin) as (Eh & _ & Em & Ee & _).
    destruct (getCellToken_store_ok_001 i j s He Hm) as [Hm1 Ht].
    pose proof (getCellToken_fair_001 i j s He) as He1.
    destruct (getCellToken_frame_001 i j s) as (_ & _ & _ & Hh1 & _).
    destruct (interact_inv_001 i j (getCellToken i j s).1 (getCellToken i j s).2 Ht)
      as (_ & Hh2 & Hm2).
    { split; [exact He1|split; [|exact Hm1]]. by rewrite Hh1. }
    unfold inv. rewrite Eh, Em, Ee. auto.
  - destruct (moveend_cases_001 center s) as [->| ->]; [exact Hs|by apply relocate_inv_001].
  - by apply relocate_inv_001.
  - unfold toggleMovementMode. by destruct (movementMode s).
  - unfold restartGame. apply saveGameState_inv_001, renderVisibleCells_inv_001.
    destruct Hs as (He & _ & _).
    split; [exact He|split; [exact I|exact empty_store_ok]].
Qed.

(** *** The codec *)

Definition encode_cell (kv : string * option number) : json :=
  JArr [JStr kv.1; json_of_content kv.2].

Lemma restore_cell_encode_001 (m : gmap string (option number)) kv :
  restore_cell (Some m) (encode_cell kv) = Some (<[kv.1 := kv.2]> m).
Proof. destruct kv as [k [v|]]; reflexivity. Qed.

Lemma restore_cells_encode_001 (l : list (string * option number))
    (m : gmap string (option number)) :
  foldl restore_cell (Some m) (encode_cell <$> l)
  = Some (foldl (λ acc kv, <[kv.1 := kv.2]> acc) m l).
Proof.
  revert m. induction l as [|kv l IH]; intros m; [done|].
  rewrite fmap_cons. cbn [foldl]. rewrite restore_cell_encode_001. apply IH.
Qed.

Lemma foldl_insert_lookup_001 (l : list (string * option number))
    (m : gmap string (option number)) k :
  NoDup l.*1 →
  foldl (λ acc kv, <[kv.1 := kv.2]> acc) m l !! k
  = match list_to_map (M:=gmap string (option number)) l !! k with
    | Some v => Some v
    | None => m !! k
    end.
Proof.
  revert m. induction l as [|[k' v'] l IH]; intros m Hnd; cbn [foldl].
  - by rewrite list_to_map_nil, lookup_empty.
  - rewrite fmap_cons in Hnd. apply NoDup_cons in Hnd as [Hk' Hnd].
    rewrite IH by done. rewrite list_to_map_cons. cbn [fst snd] in *.
    destruct (decide (k' = k)) as [->|Hne].
    + rewrite lookup_insert_eq.
      rewrite (not_elem_of_list_to_map_1 l k) by done.
      by rewrite lookup_insert_eq.
    + rewrite (lookup_insert_ne (list_to_map l)) by done.
      destruct (list_to_map l !! k); [done|]. by rewrite lookup_insert_ne.
Qed.

Lemma restore_cells_roundtrip_001 (m : gmap string (option number)) :
  foldl restore_cell (Some ∅) (encode_cell <$> map_to_list m) = Some m.
Proof.
  rewrite restore_cells_encode_001. f_equal. apply map_eq. intros k.
  rewrite foldl_insert_lookup_001 by apply NoDup_fst_map_to_list.
  rewrite list_to_map_to_list, lookup_empty. by destruct (m !! k).
Qed.

Ltac decide_names :=
  repeat match goal with
  | |- context [decide (?a = ?b)] =>
      destruct (decide (a = b)) as [?|?]; [try discriminate|try congruence]
  end.

Lemma latLng_of_json_001 p : latLng_of (json_of_LatLng p) = Some p.
Proof. destruct p. unfold latLng_of, json_of_LatLng. cbn. by decide_names. Qed.

Lemma serializeState_not_null_001 s : serializeState s ≠ JNull.
Proof. done. Qed.

(** Loading what [serializeState] wrote for [s] restores the game of [s],
    whatever the globals held before. *)
Lemma load_serialized_001 s s0 :
  loadGameState (set_localStorage (Stringified (serializeState s)) s0)
  = Restored (mkState (PLAYER_START_LATLNG s) (playerLatLng s) (playerPoints s)
                      (heldToken s) (movementMode s) (modifiedCells s)
                      (overlay s0) (entropy s0) (layers s0)
                      (Stringified (serializeState s))).
Proof.
  pose proof (restore_cells_roundtrip_001 (modifiedCells s)) as Hcells.
  unfold loadGameState, serializeState.
  change ((λ kv : string * option number, JArr [JStr kv.1; json_of_content kv.2])
          <$> map_to_list (modifiedCells s))
    with (encode_cell <$> map_to_list (modifiedCells s)).
  remember (encode_cell <$> map_to_list (modifiedCells s)) as cells eqn:Ecells.
  cbn -[json_of_LatLng latLng_of]. decide_names.
  cbn -[json_of_LatLng latLng_of]. rewrite Hcells, !latLng_of_json_001.
  destruct (heldToken s), (movementMode s); cbn; by decide_names.
Qed.

Lemma restartGame_frame_001 s :
  let s' := restartGame s in
  playerPoints s' = 0%Q ∧ heldToken s' = None ∧ overlay s' = false ∧
  PLAYER_START_LATLNG s' = playerLatLng s ∧ playerLatLng s' = playerLatLng s ∧
  movementMode s' = movementMode s.
Proof.
  cbv zeta. unfold restartGame.
  match goal with |- context [saveGameState ?s0] =>
    destruct (saveGameState_frame_001 s0) as (-> & -> & -> & -> & -> & _ & -> & _) end.
  match goal with |- context [renderVisibleCells ?s0] =>
    destruct (renderVisibleCells_frame_001 s0) as (-> & -> & -> & -> & -> & _);
    rewrite (renderVisibleCells_mode_001 s0) end.
  cbn. auto 10.
Qed.

Lemma restartGame_dom_001 s :
  dom (modifiedCells (restartGame s)) = windowKeys (mkCell 0 0) RENDER_RADIUS.
Proof.
  unfold restartGame.
  match goal with |- context [saveGameState ?s0] =>
    destruct (saveGameState_frame_001 s0) as (_ & _ & _ & _ & _ & -> & _) end.
  rewrite renderVisibleCells_unfold_001, renderAll_dom_001.
  unfold playerCell. cbn [PLAYER_START_LATLNG playerLatLng set_layers modifiedCells].
  rewrite latLngToCell_self, dom_empty_L, (left_id_L ∅ (∪)). reflexivity.
Qed.

(** Restarting does not look at the origin, the score, the hand, the
    store or the overlay it replaces. *)
Lemma restartGame_forgets_001 s st pts held m ov :
  restartGame (mkState st (playerLatLng s) pts held (movementMode s) m ov
                       (entropy s) (layers s) (localStorage s))
  = restartGame s.
Proof. unfold restartGame. reflexivity. Qed.

Lemma fresh_not_restored_001 e :
  loadGameState (fresh e NoItem) = NotRestored (fresh e NoItem).
Proof. reflexivity. Qed.

Definition booted (geo : option LatLng) (e : Entropy) : state :=
  let start := default FALLBACK_LATLNG geo in
  let s0 := mkState start start 0 None gps ∅ false e [] NoItem in
  let s1 := renderVisibleCells s0 in
  saveGameState (renderVisibleCells (setMovementMode (movementMode s1) false s1)).

Lemma startup_fresh_001 geo e : startup geo e NoItem = Some (booted geo e).
Proof. unfold startup, booted. rewrite fresh_not_restored_001. reflexivity. Qed.

Lemma setMovementMode_inv_001 m b s : inv s → inv (setMovementMode m b s).
Proof. unfold setMovementMode. by destruct b. Qed.

Lemma startup_inv_001 geo e s :
  fair e → startup geo e NoItem = Some s → inv s.
Proof.
  intros He. rewrite startup_fresh_001. intros [= <-]. unfold booted.
  apply saveGameState_inv_001, renderVisibleCells_inv_001, setMovementMode_inv_001,
    renderVisibleCells_inv_001.
  split; [exact He|split; [exact I|exact empty_store_ok]].
Qed.

Lemma reachable_inv_001 geo e s es :
  fair e → startup geo e NoItem = Some s →
  inv (foldl (λ st ev, step ev st) s es).
Proof.
  intros He Hs. generalize (startup_inv_001 geo e s He Hs). clear Hs. revert s.
  induction es as [|ev es IH]; intros s Hs; cbn [foldl]; [exact Hs|].
  by apply IH, step_inv_001.
Qed.

(** A single pick-up of a token at or above the target shows the victory
    overlay. *)
Lemma pickup_wins_001 i j s v :
  canInteract i j s = true → heldToken s = None →
  (getCellToken i j s).1 = Some v → (TARGET_MAX_TOKEN <= v)%Q →
  heldToken (click i j s) = Some v ∧ overlay (click i j s) = true ∧
  playerPoints (click i j s) = (playerPoints s + 1)%Q.
Proof.
  intros Hin Hh Ht Hv.
  destruct (click_in_range_001 i j s Hin) as (-> & -> & _ & _ & -> & _).
  destruct (getCellToken_frame_001 i j s) as (_ & _ & Hp & Hh1 & _).
  rewrite Ht. unfold interact. rewrite Hh1, Hh. cbn. rewrite Hp.
  split; [done|split; [|done]].
  apply Qle_bool_iff in Hv. rewrite Hv. apply orb_true_r.
Qed.

End Part001Facts.

(** * The claims *)

Import Part002Facts MainTsFacts Part000Facts Part001Facts.

Lemma fair_calm : fair calm.
Proof. intros n. cbn. split; discriminate. Qed.

Lemma fair_one_token r : (0 <= r)%Q → (r <= 1)%Q → fair (one_token r).
Proof.
  intros H0 H1 n. cbn.
  destruct (n =? 312)%nat; [split; discriminate|].
  destruct (n =? 313)%nat; [done|split; discriminate].
Qed.

(** C1 (the code does not do what the claim says): the default content of a
    cell is read off the external random source.  From fresh stores and at
    the same coordinate, a source whose draws are all 0 generates the token
    2 and a source whose draws are all 1/2 generates no token, in
    [getCellToken] of part_001 and in [renderCell] of main.ts alike. *)
Theorem generation_follows_the_draws :
  (Part001.getCellToken 0 0 (Part001.fresh generous NoItem)).1 = Some 2%Q ∧
  (Part001.getCellToken 0 0 (Part001.fresh calm NoItem)).1 = None ∧
  MainTs.content 0 0
    (MainTs.renderCell 0 0 (MainTs.mkState origin0 origin0 0 None ∅ false generous))
  = Some (Some 2%Q) ∧
  MainTs.content 0 0
    (MainTs.renderCell 0 0 (MainTs.mkState origin0 origin0 0 None ∅ false calm))
  = Some None.
Proof. repeat split; vm_compute; reflexivity. Qed.

(** ** C2 *)

(** C2, as stated, fails on main.ts: with a source that spawns a 2 in every
    cell, the player picks up the token of cell (0,0), which writes "empty"
    there; the player moves 100 cells north, which takes (0,0) out of the
    window and deletes its entry, and comes back: the cell is generated
    afresh and holds a 2 again. *)
Lemma collected_cell_refills_outside_window :
  let s0 := MainTs.startup (Some origin0) generous in
  let s1 := MainTs.click 0 0 s0 in
  let away := MainTs.moveend (mkLatLng (1 # 100) 0) s1 in
  let back := MainTs.moveend origin0 away in
  MainTs.content 0 0 s0 = Some (Some 2%Q) ∧
  MainTs.content 0 0 s1 = Some None ∧
  MainTs.content 0 0 away = None ∧
  MainTs.content 0 0 back = Some (Some 2%Q).
Proof.
  cbv zeta.
  assert (steady 0 generous) as Hgen by (intros n; reflexivity).
  assert ((spawn (mkEntropy (λ _, 0%Q) 0)).1 = Some 2%Q) as Hval
    by (vm_compute; reflexivity).
  (* the fresh session *)
  destruct (startup_frame_main (Some origin0) generous)
    as (Hst0 & Hpl0 & _ & Hh0 & _).
  cbn [default] in Hst0, Hpl0.
  pose proof (startup_fresh_main 0 (Some origin0) generous 0 0 Hgen eq_refl) as Hc0.
  rewrite Hval in Hc0.
  pose proof (startup_steady_main 0 (Some origin0) generous Hgen) as He0.
  revert Hst0 Hpl0 Hh0 Hc0 He0.
  generalize (MainTs.startup (Some origin0) generous). intros s0 Hst0 Hpl0 Hh0 Hc0 He0.
  assert (MainTs.canInteract 0 0 s0 = true) as Hin0.
  { unfold MainTs.canInteract, MainTs.playerCell. rewrite Hst0, Hpl0.
    rewrite latLngToCell_self. reflexivity. }
  assert (is_Some (MainTs.cellMap s0 !! cellKey 0 0)) as Hsome0.
  { unfold MainTs.content in Hc0.
    destruct (MainTs.cellMap s0 !! cellKey 0 0); [by eexists|discriminate]. }
  (* the pick-up *)
  destruct (click_rules_main 0 0 s0 Hin0 Hsome0) as (Hpick & _).
  destruct (Hpick 2%Q) as (_ & Hcell & _).
  { exact Hh0. }
  { unfold MainTs.observe. cbn [cell]. by rewrite Hc0. }
  assert (is_Some (MainTs.cellMap (MainTs.click 0 0 s0) !! cellKey 0 0))
    as [info Hinfo].
  { apply (elem_of_dom (D:=gset string)). rewrite click_dom_main.
    by apply elem_of_dom. }
  destruct (click_frame_main 0 0 s0) as (Hst1 & _).
  pose proof (click_entropy_main 0 0 s0) as He1.
  unfold MainTs.observe in Hcell. cbn [cell] in Hcell.
  assert (MainTs.content 0 0 (MainTs.click 0 0 s0) = Some None) as Hc1.
  { unfold MainTs.content in *. rewrite Hinfo in *. cbn in *. by rewrite Hcell. }
  clear Hcell Hinfo info Hpick.
  rewrite Hst0 in Hst1. rewrite <- He1 in He0. clear He1.
  revert Hst1 He0 Hc1. generalize (MainTs.click 0 0 s0). intros s1 Hst1 He1 Hc1.
  (* away and back *)
  assert (MainTs.cellMap (MainTs.moveend (mkLatLng (1 # 100) 0) s1) !! cellKey 0 0
          = None) as Hca.
  { apply moveend_prunes_main. rewrite Hst1. reflexivity. }
  destruct (moveend_frame_main (mkLatLng (1 # 100) 0) s1) as (Hsta & _).
  pose proof (moveend_steady_main 0 (mkLatLng (1 # 100) 0) s1 He1) as Hea.
  rewrite Hst1 in Hsta.
  revert Hca Hsta Hea. generalize (MainTs.moveend (mkLatLng (1 # 100) 0) s1).
  intros away Hca Hsta Hea.
  split_and!; [exact Hc0|exact Hc1| |].
  - unfold MainTs.content. by rewrite Hca.
  - rewrite (moveend_fresh_main 0 origin0 away 0 0 Hea Hca); [by rewrite Hval|].
    rewrite Hsta. reflexivity.
Qed.

(** C2 (amended): where the content of cells is kept in [modifiedCells]
    (part_001, part_002), what [saveCell] wrote at a coordinate is what every
    later [getCellToken] returns there, across any events other than a
    restart and a click on that very cell -- movement events that recompute
    the window included.  In main.ts a cell's entry survives a window
    recomputation exactly when the cell lies inside the new window; outside,
    the entry is gone. *)
Theorem memento_durability :
  (∀ i j v s es,
     Forall (Part001.spares i j) es →
     (Part001.getCellToken i j
        (foldl (λ st e, Part001.step e st) (Part001.saveCell i j v s) es)).1 = v) ∧
  (∀ i j v s es,
     Forall (Part002.spares i j) es →
     (Part002.getCellToken i j
        (foldl (λ st e, Part002.step e st) (Part002.saveCell i j v s) es)).1 = v) ∧
  (∀ center s i j info,
     within MainTs.RENDER_RADIUS
       (latLngToCell (MainTs.PLAYER_START_LATLNG s) center) i j = true →
     MainTs.cellMap s !! cellKey i j = Some info →
     MainTs.cellMap (MainTs.moveend center s) !! cellKey i j = Some info) ∧
  (∀ center s i j,
     within MainTs.RENDER_RADIUS
       (latLngToCell (MainTs.PLAYER_START_LATLNG s) center) i j = false →
     MainTs.cellMap (MainTs.moveend center s) !! cellKey i j = None).
Proof.
  split; [|split; [|split]].
  - apply read_after_write_001.
  - apply read_after_write_002.
  - apply moveend_keeps_main.
  - apply moveend_prunes_main.
Qed.

(** The scenario of the specification: a 4 written at (2,3), the window
    moved away and back. *)
Lemma memento_durability_witness :
  (Part002.getCellToken 2 3
     (foldl (λ st e, Part002.step e st)
        (Part002.saveCell 2 3 (Some 4%Q) (Part002.startup (Some origin0) calm))
        [Part002.MoveEnd (mkLatLng (1 # 100) 0); Part002.MoveEnd origin0])).1
  = Some 4%Q.
Proof.
  apply (proj1 (proj2 memento_durability)).
  repeat constructor.
Defined.

(** ** C3 *)

(** C3, as stated, fails on main.ts: moving one cell north deletes the
    entries of the window's southernmost row. *)
Lemma window_recomputation_deletes_entries :
  let s0 := MainTs.startup (Some origin0) calm in
  let s1 := MainTs.moveend (mkLatLng (1 # 10000) 0) s0 in
  is_Some (MainTs.cellMap s0 !! cellKey (-12) 0) ∧
  MainTs.cellMap s1 !! cellKey (-12) 0 = None.
Proof.
  cbv zeta.
  pose proof (startup_dom_main (Some origin0) calm) as Hdom.
  destruct (startup_frame_main (Some origin0) calm) as (Hst & _).
  cbn [default] in Hst. revert Hdom Hst.
  generalize (MainTs.startup (Some origin0) calm). intros s0 Hdom Hst.
  split.
  - apply (elem_of_dom (D:=gset string)). rewrite Hdom.
    apply elem_of_desired_main. reflexivity.
  - apply moveend_prunes_main. rewrite Hst. reflexivity.
Qed.

(** C3 (amended): no event other than a restart removes an entry of
    [modifiedCells] (part_001, part_002); the window recomputation of every
    movement event only adds entries there.  In main.ts a click removes no
    entry of [cellMap], and a movement event leaves in [cellMap] exactly the
    entries of the new window: those outside it are deleted. *)
Theorem store_entries_are_kept :
  (∀ e s, e ≠ Part001.Restart →
     dom (Part001.modifiedCells s) ⊆ dom (Part001.modifiedCells (Part001.step e s))) ∧
  (∀ e s, e ≠ Part002.Restart →
     dom (Part002.modifiedCells s) ⊆ dom (Part002.modifiedCells (Part002.step e s))) ∧
  (∀ i j s, dom (MainTs.cellMap (MainTs.click i j s)) = dom (MainTs.cellMap s)) ∧
  (∀ center s,
     dom (MainTs.cellMap (MainTs.moveend center s))
     = MainTs.desired (latLngToCell (MainTs.PLAYER_START_LATLNG s) center)).
Proof.
  split; [|split; [|split]].
  - apply step_keeps_keys_001.
  - apply step_keeps_keys_002.
  - apply click_dom_main.
  - apply moveend_dom_main.
Qed.

Lemma store_entries_are_kept_witness :
  dom (Part002.modifiedCells (Part002.startup (Some origin0) calm))
  ⊆ dom (Part002.modifiedCells
           (Part002.step (Part002.MoveEnd (mkLatLng (1 # 100) 0))
              (Part002.startup (Some origin0) calm))).
Proof. apply (proj1 (proj2 store_entries_are_kept)). discriminate. Defined.

(** ** C4 *)

(** C4: an interaction on a cell within the interact range follows the
    crafting table -- empty hand and a token in the cell: pick up, score + 1;
    a token in hand and an empty cell: place, score unchanged; equal tokens
    in hand and cell: craft, the hand holds the double, the cell is empty,
    score + 2 -- in each of the four snapshots.  (In part_000 and main.ts
    the cell must be on the map: only then does its rectangle exist.) *)
Theorem interaction_follows_the_table :
  (∀ i j s,
     Part000.canInteract i j = true →
     is_Some (Part000.cellMap s !! cellKey i j) →
     follows_rules (Part000.observe i j s)
                   (Part000.observe i j (Part000.click i j s).1)) ∧
  (∀ i j s,
     MainTs.canInteract i j s = true →
     is_Some (MainTs.cellMap s !! cellKey i j) →
     follows_rules (MainTs.observe i j s)
                   (MainTs.observe i j (MainTs.click i j s))) ∧
  (∀ i j s,
     Part002.canInteract i j s = true →
     follows_rules (Part002.observe i j s)
                   (Part002.observe i j (Part002.click i j s))) ∧
  (∀ i j s,
     Part001.canInteract i j s = true →
     follows_rules (Part001.observe i j s)
                   (Part001.observe i j (Part001.click i j s))).
Proof.
  split; [|split; [|split]].
  - apply click_rules_000.
  - apply click_rules_main.
  - apply click_rules_002.
  - apply click_rules_001.
Qed.

(** The scenario of the specification: an 8 in the central cell, an empty
    hand. *)
Lemma interaction_follows_the_table_witness :
  let s := Part002.startup (Some origin0) (one_token (2 # 5)) in
  Part002.observe 0 0 s = mkView None (Some 8%Q) 0 ∧
  follows_rules (Part002.observe 0 0 s)
                (Part002.observe 0 0 (Part002.click 0 0 s)).
Proof.
  split; [vm_compute; reflexivity|].
  apply (proj1 (proj2 (proj2 interaction_follows_the_table))).
  vm_compute. reflexivity.
Defined.

(** ** C5 *)

(** C5: loading what [serializeState] wrote restores the origin, the
    player's position, the score, the held token, the whole store and the
    movement mode, whatever the store holds and whatever the hand holds; in
    particular loading right after [saveGameState] changes nothing. *)
Theorem codec_round_trip :
  (∀ s s0, ∃ s',
     Part001.loadGameState
       (Part001.set_localStorage (Stringified (Part001.serializeState s)) s0)
     = Part001.Restored s' ∧ Part001.game s' = Part001.game s) ∧
  (∀ s, Part001.loadGameState (Part001.saveGameState s)
        = Part001.Restored (Part001.saveGameState s)).
Proof.
  split.
  - intros s s0. eexists. split; [apply load_serialized_001|reflexivity].
  - intros s. unfold Part001.saveGameState. by rewrite load_serialized_001.
Qed.

(** ** C6 *)

(** C6, as stated, fails: in part_002 a restart leaves the origin where it
    was and puts the player back on it, and in every snapshot the store is
    not empty once [restartGame] returns, since the window is rendered
    again. *)
Lemma restart_keeps_origin_and_refills_store :
  let s := Part002.moveend (mkLatLng (1 # 100) 0)
             (Part002.startup (Some origin0) calm) in
  Part002.PLAYER_START_LATLNG (Part002.restartGame s) ≠ Part002.playerLatLng s ∧
  Part002.modifiedCells (Part002.restartGame s) !! cellKey 0 0 = Some None.
Proof. vm_compute. split; [discriminate|reflexivity]. Qed.

(** C6 (amended): a restart, from any state, resets the score to 0 and the
    hand to empty, hides the overlay, and discards every entry of the cell
    store: the store it leaves holds the freshly generated cells of the
    window around the player and nothing else, and does not depend on the
    store before.  Origin and player position coincide afterwards: part_001
    moves the origin to the player's position at the moment of restart;
    part_002 and main.ts keep the origin and move the player back to it. *)
Theorem restart_resets_the_game :
  (∀ s, let s' := Part001.restartGame s in
     Part001.playerPoints s' = 0%Q ∧ Part001.heldToken s' = None ∧
     Part001.overlay s' = false ∧
     Part001.PLAYER_START_LATLNG s' = Part001.playerLatLng s ∧
     Part001.playerLatLng s' = Part001.playerLatLng s ∧
     dom (Part001.modifiedCells s') = windowKeys (mkCell 0 0) Part001.RENDER_RADIUS ∧
     ∀ m, Part001.restartGame
            (Part001.mkState (Part001.PLAYER_START_LATLNG s) (Part001.playerLatLng s)
               (Part001.playerPoints s) (Part001.heldToken s) (Part001.movementMode s)
               m (Part001.overlay s) (Part001.entropy s) (Part001.layers s)
               (Part001.localStorage s)) = s') ∧
  (∀ s, let s' := Part002.restartGame s in
     Part002.playerPoints s' = 0%Q ∧ Part002.heldToken s' = None ∧
     Part002.overlay s' = false ∧
     Part002.PLAYER_START_LATLNG s' = Part002.PLAYER_START_LATLNG s ∧
     Part002.playerLatLng s' = Part002.PLAYER_START_LATLNG s ∧
     dom (Part002.modifiedCells s') = windowKeys (mkCell 0 0) Part002.RENDER_RADIUS ∧
     ∀ m, Part002.restartGame
            (Part002.mkState (Part002.PLAYER_START_LATLNG s) (Part002.playerLatLng s)
               (Part002.playerPoints s) (Part002.heldToken s)
               m (Part002.overlay s) (Part002.entropy s) (Part002.layers s)) = s') ∧
  (∀ s, let s' := MainTs.restartGame s in
     MainTs.playerPoints s' = 0%Q ∧ MainTs.heldToken s' = None ∧
     MainTs.overlay s' = false ∧
     MainTs.PLAYER_START_LATLNG s' = MainTs.PLAYER_START_LATLNG s ∧
     MainTs.playerLatLng s' = MainTs.PLAYER_START_LATLNG s ∧
     dom (MainTs.cellMap s') = windowKeys (mkCell 0 0) MainTs.RENDER_RADIUS ∧
     ∀ m, MainTs.restartGame
            (MainTs.mkState (MainTs.PLAYER_START_LATLNG s) (MainTs.playerLatLng s)
               (MainTs.playerPoints s) (MainTs.heldToken s)
               m (MainTs.overlay s) (MainTs.entropy s)) = s').
Proof.
  split; [|split]; intros s; cbv zeta.
  - destruct (restartGame_frame_001 s) as (H1 & H2 & H3 & H4 & H5 & _).
    split_and!; [exact H1|exact H2|exact H3|exact H4|exact H5| |].
    + apply restartGame_dom_001.
    + intros m. apply (restartGame_forgets_001 s).
  - destruct (restartGame_frame_002 s) as (H1 & H2 & H3 & H4 & H5).
    split_and!; [exact H1|exact H2|exact H3|exact H4|exact H5| |].
    + apply restartGame_dom_002.
    + intros m. apply (restartGame_ignores_002 s).
  - destruct (restartGame_frame_main s) as (H1 & H2 & H3 & H4 & H5).
    split_and!; [exact H1|exact H2|exact H3|exact H4|exact H5| |].
    + apply restartGame_dom_keys_main.
    + intros m. apply (restartGame_ignores_main s).
Qed.

(** ** C7 *)

(** C7: for a player cell [p] and a radius [r], the loops of
    [renderVisibleCells] visit each coordinate within Chebyshev distance [r]
    of [p] once and no other: (2r+1)^2 coordinates.  With the program's
    radius, these are the cells part_002 puts on the map and the keys
    main.ts leaves in [cellMap]. *)
Theorem visible_window_is_the_square (p : Cell) (r : Z) :
  0 ≤ r →
  NoDup (windowCells p r) ∧
  Z.of_nat (length (windowCells p r)) = (2 * r + 1) ^ 2 ∧
  (∀ x, x ∈ windowCells p r ↔
        Z.abs (ci x - ci p) ≤ r ∧ Z.abs (cj x - cj p) ≤ r) ∧
  (∀ s, Part002.layers (Part002.renderVisibleCells s)
        = windowCells (Part002.playerCell s) Part002.RENDER_RADIUS) ∧
  (∀ s, dom (MainTs.cellMap (MainTs.renderVisibleCells s))
        = MainTs.desired (MainTs.playerCell s)) ∧
  (∀ c, size (MainTs.desired c) = 625%nat) ∧
  (∀ c i j, cellKey i j ∈ MainTs.desired c ↔
            within MainTs.RENDER_RADIUS c i j = true).
Proof.
  intros Hr. split_and!.
  - apply NoDup_windowCells.
  - rewrite length_windowCells. lia.
  - apply elem_of_windowCells.
  - intros s. apply (renderVisibleCells_frame_002 s).
  - apply renderVisibleCells_dom_main.
  - apply size_desired_main.
  - apply elem_of_desired_main.
Qed.

Lemma visible_window_is_the_square_witness :
  length (windowCells (mkCell 5 (-7)) 12) = 625%nat.
Proof.
  pose proof (visible_window_is_the_square (mkCell 5 (-7)) 12) as H.
  destruct H as (_ & H & _); [lia|]. lia.
Defined.

(** ** C8 *)

(** C8: an interaction on a cell outside the interact range, or with a
    held token that differs from the cell's token, changes neither the hand,
    nor the cell's content, nor the score.  In part_000 and main.ts the whole
    state is unchanged; in part_002 and part_001 an out-of-range click
    changes nothing at all. *)
Theorem rejected_interaction_changes_nothing :
  (∀ i j s,
     Part000.canInteract i j = false ∨ mismatched (Part000.observe i j s) →
     (Part000.click i j s).1 = s) ∧
  (∀ i j s,
     MainTs.canInteract i j s = false ∨ mismatched (MainTs.observe i j s) →
     MainTs.click i j s = s) ∧
  (∀ i j s,
     Part002.canInteract i j s = false ∨ mismatched (Part002.observe i j s) →
     Part002.observe i j (Part002.click i j s) = Part002.observe i j s) ∧
  (∀ i j s, Part002.canInteract i j s = false → Part002.click i j s = s) ∧
  (∀ i j s,
     Part001.canInteract i j s = false ∨ mismatched (Part001.observe i j s) →
     Part001.observe i j (Part001.click i j s) = Part001.observe i j s) ∧
  (∀ i j s, Part001.canInteract i j s = false → Part001.click i j s = s).
Proof.
  split_and!.
  - apply click_rejected_000.
  - apply click_rejected_main.
  - apply click_rejected_002.
  - apply click_out_of_range_002.
  - apply click_rejected_001.
  - apply click_out_of_range_001.
Qed.

(** The scenario of the specification: a 16 in hand, a 4 in the cell. *)
Lemma rejected_interaction_witness :
  let s := Part002.saveCell 0 0 (Some 4%Q)
             (Part002.set_heldToken (Some 16%Q)
                (Part002.startup (Some origin0) calm)) in
  Part002.observe 0 0 (Part002.click 0 0 s) = mkView (Some 16%Q) (Some 4%Q) 0.
Proof.
  cbv zeta.
  rewrite (proj1 (proj2 (proj2 rejected_interaction_changes_nothing))).
  - vm_compute. reflexivity.
  - right. exists 16%Q, 4%Q. vm_compute. split_and!; [reflexivity|reflexivity|].
    discriminate.
Defined.

(** ** C9 *)

(** C9: the won state is reached by one pick-up and no craft.  Some draws
    make the generator produce a 32; and picking up, with an empty hand, a
    token at or above the target of 32 puts it in the hand, adds 1 to the
    score and shows the victory overlay. *)
Theorem one_pickup_can_win :
  (∃ e, fair e ∧ (spawn e).1 = Some 32%Q) ∧
  (∀ i j s v,
     Part001.canInteract i j s = true →
     Part001.heldToken s = None →
     (Part001.getCellToken i j s).1 = Some v →
     (TARGET_MAX_TOKEN <= v)%Q →
     Part001.heldToken (Part001.click i j s) = Some v ∧
     Part001.overlay (Part001.click i j s) = true ∧
     Part001.playerPoints (Part001.click i j s) = (Part001.playerPoints s + 1)%Q).
Proof.
  split.
  - exists (mkEntropy (λ n, if (n =? 0)%nat then 0%Q else 4 # 5) 0). split.
    + intros n. cbn. destruct (n =? 0)%nat; split; discriminate.
    + vm_compute. reflexivity.
  - apply pickup_wins_001.
Qed.

(** A fresh session in which the central cell was generated as a 32: the
    first click wins. *)
Lemma one_pickup_can_win_witness :
  ∃ s, Part001.startup (Some origin0) (one_token (4 # 5)) NoItem = Some s ∧
       Part001.overlay s = false ∧
       Part001.heldToken (Part001.click 0 0 s) = Some 32%Q ∧
       Part001.overlay (Part001.click 0 0 s) = true.
Proof.
  eexists. split; [apply startup_fresh_001|].
  split; [vm_compute; reflexivity|].
  destruct (proj2 one_pickup_can_win 0 0
              (booted (Some origin0) (one_token (4 # 5))) 32%Q) as (H1 & H2 & _).
  - vm_compute. reflexivity.
  - vm_compute. reflexivity.
  - vm_compute. reflexivity.
  - discriminate.
  - split; [exact H1|exact H2].
Defined.

(** ** C10 *)

(** C10: in every state reached from a fresh session the held token and
    every cell's decided content is empty or a power of two from 2 on:
    start-up establishes this and every event -- clicks (pick up, place,
    craft), movements, restarts -- preserves it, provided the draws (or, in
    part_000, the values of [luck]) are not negative. *)
Theorem tokens_are_powers_of_two :
  (∀ geo e es, fair e →
     Part002.inv (foldl (λ st ev, Part002.step ev st) (Part002.startup geo e) es)) ∧
  (∀ ev s, Part002.inv s → Part002.inv (Part002.step ev s)) ∧
  (∀ geo e s es, fair e → Part001.startup geo e NoItem = Some s →
     Part001.inv (foldl (λ st ev, Part001.step ev st) s es)) ∧
  (∀ ev s, Part001.inv s → Part001.inv (Part001.step ev s)) ∧
  (∀ geo e es, fair e →
     MainTs.inv (foldl (λ st ev, MainTs.step ev st) (MainTs.startup geo e) es)) ∧
  (∀ ev s, MainTs.inv s → MainTs.inv (MainTs.step ev s)) ∧
  (∀ luck geo es, (∀ seed, (0 <= luck seed)%Q) →
     Part000.inv (foldl (λ st ev, Part000.step ev st) (Part000.startup luck geo) es)) ∧
  (∀ ev s, Part000.inv s → Part000.inv (Part000.step ev s)).
Proof.
  split_and!.
  - apply reachable_inv_002.
  - apply step_inv_002.
  - apply reachable_inv_001.
  - apply step_inv_001.
  - apply reachable_inv_main.
  - apply step_inv_main.
  - apply reachable_inv_000.
  - apply step_inv_000.
Qed.

Lemma tokens_are_powers_of_two_witness :
  Part002.inv
    (foldl (λ st ev, Part002.step ev st)
       (Part002.startup (Some origin0) (one_token (2 # 5)))
       [Part002.Click 0 0; Part002.Click 0 1; Part002.Restart]).
Proof.
  apply (proj1 tokens_are_powers_of_two).
  apply fair_one_token; discriminate.
Defined.

(** * Further properties of the code *)

Import Part002Facts MainTsFacts Part000Facts Part001Facts.

(** ** Keys *)

(** X1: [cellKey] tells cells apart: two coordinates have the same key
    only if they are the same coordinate. *)
Theorem distinct_cells_have_distinct_keys (i j i' j' : Z) :
  cellKey i j = cellKey i' j' ↔ i = i' ∧ j = j'.
Proof.
  split; [apply cellKey_inj|]. by intros [-> ->].
Qed.

(** ** The lazily filled store *)

(** X2: [getCellToken] generates a cell once: a second read returns the
    token of the first and leaves the state, random source included, as the
    first read left it. *)
Theorem second_read_repeats_the_first :
  (∀ i j s, Part002.getCellToken i j (Part002.getCellToken i j s).2
            = Part002.getCellToken i j s) ∧
  (∀ i j s, Part001.getCellToken i j (Part001.getCellToken i j s).2
            = Part001.getCellToken i j s).
Proof.
  split; intros i j s.
  - rewrite (getCellToken_hit_002 i j _ _ (getCellToken_decided_002 i j s)).
    by destruct (Part002.getCellToken i j s).
  - rewrite (getCellToken_hit_001 i j _ _ (getCellToken_decided_001 i j s)).
    by destruct (Part001.getCellToken i j s).
Qed.

Lemma size_windowKeys c : size (windowKeys c 12) = 625%nat.
Proof. apply (size_desired_main c). Qed.

Lemma moveend_dom_002 center s :
  dom (Part002.modifiedCells (Part002.moveend center s))
  = dom (Part002.modifiedCells s)
    ∪ windowKeys (latLngToCell (Part002.PLAYER_START_LATLNG s) center)
                 Part002.RENDER_RADIUS.
Proof.
  unfold Part002.moveend.
  rewrite renderVisibleCells_unfold_002, renderAll_dom_002. reflexivity.
Qed.

Lemma startup_dom_002 geo e :
  dom (Part002.modifiedCells (Part002.startup geo e))
  = windowKeys (mkCell 0 0) Part002.RENDER_RADIUS.
Proof.
  unfold Part002.startup.
  rewrite renderVisibleCells_unfold_002, renderAll_dom_002.
  unfold Part002.playerCell.
  cbn [Part002.PLAYER_START_LATLNG Part002.playerLatLng Part002.set_layers
       Part002.modifiedCells].
  rewrite latLngToCell_self, dom_empty_L, (left_id_L ∅ (∪)). reflexivity.
Qed.

(** X3: in part_002 the store records every cell that was ever rendered,
    not only the cells the player changed: a movement event adds to its keys
    exactly the cells of the new window, and a fresh session starts with the
    625 cells of the first window in it. *)
Theorem store_records_every_rendered_cell :
  (∀ center s,
     dom (Part002.modifiedCells (Part002.moveend center s))
     = dom (Part002.modifiedCells s)
       ∪ windowKeys (latLngToCell (Part002.PLAYER_START_LATLNG s) center)
                    Part002.RENDER_RADIUS) ∧
  (∀ geo e, size (Part002.modifiedCells (Part002.startup geo e)) = 625%nat).
Proof.
  split; [apply moveend_dom_002|].
  intros geo e. rewrite <- size_dom, startup_dom_002. apply size_windowKeys.
Qed.

(** ** Positions and cells *)








Lemma moveend_frame_002 center s :
  Part002.PLAYER_START_LATLNG (Part002.moveend center s)
  = Part002.PLAYER_START_LATLNG s ∧
  Part002.playerLatLng (Part002.moveend center s) = center ∧
  Part002.playerPoints (Part002.moveend center s) = Part002.playerPoints s ∧
  Part002.heldToken (Part002.moveend center s) = Part002.heldToken s ∧
  Part002.overlay (Part002.moveend center s) = Part002.overlay s.
Proof.
  unfold Part002.moveend.
  match goal with |- context [Part002.renderVisibleCells ?s0] =>
    destruct (renderVisibleCells_frame_002 s0) as (-> & -> & -> & -> & -> & _) end.
  cbn. auto.
Qed.




(** ** Score and overlay *)

Lemma Qle_add_nonneg (p n : number) : (0 <= n)%Q → (p <= p + n)%Q.
Proof.
  intros Hn. rewrite <- (Qplus_0_r p) at 1.
  apply Qplus_le_compat; [apply Qle_refl|exact Hn].
Qed.

Lemma interact_points_002 i j t s :
  (Part002.playerPoints s <= Part002.playerPoints (Part002.interact i j t s))%Q.
Proof.
  unfold Part002.interact.
  destruct (Part002.heldToken s) as [h|], t as [v|]; cbn; try apply Qle_refl.
  - destruct (Qeq_bool v h); cbn; [by apply Qle_add_nonneg|apply Qle_refl].
  - by apply Qle_add_nonneg.
Qed.

Lemma interact_points_001 i j t s :
  (Part001.playerPoints s <= Part001.playerPoints (Part001.interact i j t s))%Q.
Proof.
  unfold Part001.interact.
  destruct (Part001.heldToken s) as [h|], t as [v|]; cbn; try apply Qle_refl.
  - destruct (Qeq_bool v h); cbn; [by apply Qle_add_nonneg|apply Qle_refl].
  - by apply Qle_add_nonneg.
Qed.

Lemma click_points_002 i j s :
  (Part002.playerPoints s <= Part002.playerPoints (Part002.click i j s))%Q.
Proof.
  destruct (Part002.canInteract i j s) eqn:Hin.
  - destruct (click_in_range_002 i j s Hin) as (_ & -> & _).
    destruct (getCellToken_frame_002 i j s) as (_ & _ & Hp & _).
    rewrite <- Hp. apply interact_points_002.
  - rewrite click_out_of_range_002 by done. apply Qle_refl.
Qed.

Lemma click_points_001 i j s :
  (Part001.playerPoints s <= Part001.playerPoints (Part001.click i j s))%Q.
Proof.
  destruct (Part001.canInteract i j s) eqn:Hin.
  - destruct (click_in_range_001 i j s Hin) as (_ & -> & _).
    destruct (getCellToken_frame_001 i j s) as (_ & _ & Hp & _).
    rewrite <- Hp. apply interact_points_001.
  - rewrite click_out_of_range_001 by done. apply Qle_refl.
Qed.

Lemma click_points_overlay_main i j s :
  (MainTs.playerPoints s <= MainTs.playerPoints (MainTs.click i j s))%Q ∧
  (MainTs.overlay s = true → MainTs.overlay (MainTs.click i j s) = true).
Proof.
  unfold MainTs.click.
  destruct (MainTs.cellMap s !! cellKey i j) as [info|]; [|split; [apply Qle_refl|done]].
  destruct (negb (MainTs.canInteract i j s)); [split; [apply Qle_refl|done]|].
  destruct (MainTs.heldToken s) as [h|], (MainTs.value info) as [v|];
    try (split; [apply Qle_refl|done]).
  - destruct (Qeq_bool v h); [|split; [apply Qle_refl|done]].
    match goal with |- context [MainTs.checkVictory ?s0] =>
      destruct (checkVictory_frame_main s0) as (_ & _ & -> & _ & _ & _ & ->) end.
    cbn. split; [by apply Qle_add_nonneg|by intros ->].
  - match goal with |- context [MainTs.checkVictory ?s0] =>
      destruct (checkVictory_frame_main s0) as (_ & _ & -> & _ & _ & _ & ->) end.
    cbn. split; [by apply Qle_add_nonneg|by intros ->].
Qed.

Lemma click_points_000 i j s :
  (Part000.playerPoints s <= Part000.playerPoints (Part000.click i j s).1)%Q.
Proof.
  unfold Part000.click.
  destruct (Part000.cellMap s !! cellKey i j) as [info|]; [|apply Qle_refl].
  destruct (negb (Part000.canInteract i j)); [apply Qle_refl|].
  destruct (Part000.heldToken s) as [h|], (Part000.value info) as [v|];
    cbn; try apply Qle_refl.
  - destruct (Qeq_bool v h); cbn; [by apply Qle_add_nonneg|apply Qle_refl].
  - by apply Qle_add_nonneg.
Qed.

Lemma relocate_frame_001 p s :
  Part001.playerPoints (relocate p s) = Part001.playerPoints s ∧
  Part001.overlay (relocate p s) = Part001.overlay s ∧
  Part001.heldToken (relocate p s) = Part001.heldToken s.
Proof.
  unfold relocate.
  match goal with |- context [Part001.saveGameState ?s0] =>
    destruct (saveGameState_frame_001 s0) as (_ & _ & -> & -> & _ & _ & -> & _) end.
  match goal with |- context [Part001.renderVisibleCells ?s0] =>
    destruct (renderVisibleCells_frame_001 s0) as (_ & _ & -> & -> & -> & _) end.
  cbn. auto.
Qed.

Lemma toggle_frame_001 s :
  Part001.playerPoints (Part001.toggleMovementMode s) = Part001.playerPoints s ∧
  Part001.overlay (Part001.toggleMovementMode s) = Part001.overlay s.
Proof. unfold Part001.toggleMovementMode. by destruct (Part001.movementMode s). Qed.

(** X6: the score never goes down except on a restart: no click, movement,
    position update or mode toggle lowers it (part_000 has no restart, so
    there it never goes down at all). *)
Theorem score_only_grows_until_restart :
  (∀ e s, (Part000.playerPoints s <= Part000.playerPoints (Part000.step e s))%Q) ∧
  (∀ e s, e ≠ MainTs.Restart →
     (MainTs.playerPoints s <= MainTs.playerPoints (MainTs.step e s))%Q) ∧
  (∀ e s, e ≠ Part002.Restart →
     (Part002.playerPoints s <= Part002.playerPoints (Part002.step e s))%Q) ∧
  (∀ e s, e ≠ Part001.Restart →
     (Part001.playerPoints s <= Part001.playerPoints (Part001.step e s))%Q).
Proof.
  split_and!.
  - intros [i j|i j] s; cbn [Part000.step].
    + apply click_points_000.
    + unfold Part000.pick.
      destruct (Part000.cellMap s !! cellKey i j) as [c|]; [|apply Qle_refl].
      destruct (Part000.heldToken s), (Part000.value c); try apply Qle_refl.
      destruct (Part000.canInteract i j); apply Qle_refl.
  - intros [i j|center|] s He; cbn [MainTs.step].
    + apply click_points_overlay_main.
    + destruct (moveend_frame_main center s) as (_ & _ & -> & _). apply Qle_refl.
    + exfalso. by apply He.
  - intros [i j|center|] s He; cbn [Part002.step].
    + apply click_points_002.
    + destruct (moveend_frame_002 center s) as (_ & _ & -> & _). apply Qle_refl.
    + exfalso. by apply He.
  - intros [i j|center|pos| |] s He; cbn [Part001.step].
    + apply click_points_001.
    + destruct (moveend_cases_001 center s) as [->| ->]; [apply Qle_refl|].
      destruct (relocate_frame_001 center s) as (-> & _). apply Qle_refl.
    + change (Part001.watchPosition pos s) with (relocate pos s).
      destruct (relocate_frame_001 pos s) as (-> & _). apply Qle_refl.
    + destruct (toggle_frame_001 s) as (-> & _). apply Qle_refl.
    + exfalso. by apply He.
Qed.

Lemma score_only_grows_witness :
  (Part002.playerPoints (Part002.startup (Some origin0) (one_token (2 # 5)))
   <= Part002.playerPoints
        (Part002.step (Part002.Click 0 0)
           (Part002.startup (Some origin0) (one_token (2 # 5)))))%Q.
Proof.
  apply (proj1 (proj2 (proj2 score_only_grows_until_restart))). discriminate.
Defined.

(** X7: once the victory overlay is shown, only a restart hides it: it
    stays through every click, movement, position update and mode toggle. *)
Theorem overlay_stays_until_restart :
  (∀ e s, e ≠ MainTs.Restart → MainTs.overlay s = true →
     MainTs.overlay (MainTs.step e s) = true) ∧
  (∀ e s, e ≠ Part002.Restart → Part002.overlay s = true →
     Part002.overlay (Part002.step e s) = true) ∧
  (∀ e s, e ≠ Part001.Restart → Part001.overlay s = true →
     Part001.overlay (Part001.step e s) = true).
Proof.
  split_and!.
  - intros [i j|center|] s He Hov; cbn [MainTs.step].
    + by apply click_points_overlay_main.
    + by destruct (moveend_frame_main center s) as (_ & _ & _ & _ & ->).
    + exfalso. by apply He.
  - intros [i j|center|] s He Hov; cbn [Part002.step].
    + destruct (Part002.canInteract i j s) eqn:Hin.
      * destruct (click_in_range_002 i j s Hin) as (_ & _ & _ & _ & -> & _).
        by rewrite Hov.
      * by rewrite click_out_of_range_002.
    + by destruct (moveend_frame_002 center s) as (_ & _ & _ & _ & ->).
    + exfalso. by apply He.
  - intros [i j|center|pos| |] s He Hov; cbn [Part001.step].
    + destruct (Part001.canInteract i j s) eqn:Hin.
      * destruct (click_in_range_001 i j s Hin) as (_ & _ & _ & _ & -> & _).
        by rewrite Hov.
      * by rewrite click_out_of_range_001.
    + destruct (moveend_cases_001 center s) as [->| ->]; [done|].
      by destruct (relocate_frame_001 center s) as (_ & -> & _).
    + change (Part001.watchPosition pos s) with (relocate pos s).
      by destruct (relocate_frame_001 pos s) as (_ & -> & _).
    + by destruct (toggle_frame_001 s) as (_ & ->).
    + exfalso. by apply He.
Qed.

Lemma overlay_stays_witness :
  ∃ s, Part001.startup (Some origin0) (one_token (4 # 5)) NoItem = Some s ∧
       Part001.overlay
         (Part001.step (Part001.MoveEnd origin0)
            (Part001.step (Part001.Click 0 0) s)) = true.
Proof.
  eexists. split; [apply startup_fresh_001|].
  apply (proj2 (proj2 overlay_stays_until_restart)); [discriminate|].
  cbn [Part001.step].
  apply (pickup_wins_001 0 0 (booted (Some origin0) (one_token (4 # 5))) 32%Q).
  - vm_compute. reflexivity.
  - vm_compute. reflexivity.
  - vm_compute. reflexivity.
  - discriminate.
Defined.

(** ** The values the generators produce *)

Lemma floor_scaled_le (r : number) (K : Z) :
  (r <= 1)%Q → 0 ≤ K → Qfloor (r * inject_Z K) ≤ K.
Proof.
  intros Hr HK. rewrite Zle_Qle.
  eapply Qle_trans; [apply Qfloor_le|].
  rewrite <- (Qmult_1_l (inject_Z K)) at 2.
  apply Qmult_le_compat_r; [exact Hr|].
  change 0%Q with (inject_Z 0). by rewrite <- Zle_Qle.
Qed.

Lemma floor_scaled_lt (r : number) (K : Z) :
  (r < 1)%Q → 0 < K → Qfloor (r * inject_Z K) < K.
Proof.
  intros Hr HK. rewrite Zlt_Qlt.
  eapply Qle_lt_trans; [apply Qfloor_le|].
  rewrite <- (Qmult_1_l (inject_Z K)) at 2.
  apply Qmult_lt_compat_r; [|exact Hr].
  change 0%Q with (inject_Z 0). by rewrite <- Zlt_Qlt.
Qed.

(** X8: the values the generators produce.  A token generated by
    [2 ** (1 + Math.floor(random() * 5))] from draws in [0, 1] is 2^k with
    1 <= k <= 6; it is 64 only when the second draw is exactly 1 (which
    [arr[0] / 0xffffffff] yields for [arr[0] = 0xffffffff]), and then it
    is.  The luck-seeded generator of part_000 yields 2, 4 or 8 when the
    values of [luck] lie in [0, 1). *)
Theorem generated_values_range :
  (∀ e v, fair e → (spawn e).1 = Some v →
     ∃ k, 1 ≤ k ≤ 6 ∧ v = js_pow2 k ∧
          (k = 6 → (source e (S (used e)) == 1)%Q)) ∧
  (∀ e, (source e (used e) < TOKEN_SPAWN_PROBABILITY)%Q →
        (source e (S (used e)) == 1)%Q →
        (spawn e).1 = Some (js_pow2 6)) ∧
  (∀ luck i j v,
     (∀ seed, (0 <= luck seed)%Q ∧ (luck seed < 1)%Q) →
     Part000.initialValue luck i j = Some v →
     ∃ k, 1 ≤ k ≤ 3 ∧ v = js_pow2 k).
Proof.
  split_and!.
  - intros e v He. unfold spawn, draw. cbn.
    destruct (Qlt_le_dec _ _); cbn; [|discriminate].
    intros [= <-]. destruct (He (S (used e))) as [H0 H1].
    pose proof (floor_scaled_nonneg _ 5 H0 ltac:(lia)) as Hlo.
    pose proof (floor_scaled_le _ 5 H1 ltac:(lia)) as Hhi.
    change (inject_Z 5) with 5%Q in Hlo, Hhi.
    exists (1 + Qfloor (source e (S (used e)) * 5)).
    split; [lia|]. split; [reflexivity|].
    intros Hk. apply Qle_antisym; [exact H1|].
    apply Qnot_lt_le. intros Hlt.
    pose proof (floor_scaled_lt _ 5 Hlt ltac:(lia)) as Hs.
    change (inject_Z 5) with 5%Q in Hs. lia.
  - intros e Hp Hone. unfold spawn, draw. cbn [source used fst snd].
    destruct (Qlt_le_dec _ _) as [_|Hge]; cbn [fst snd].
    + assert (source e (S (used e)) * 5 == 5)%Q as Hq by (rewrite Hone; reflexivity).
      rewrite (Qfloor_comp _ _ Hq). reflexivity.
    + exfalso. by apply (Qlt_not_le _ _ Hp).
  - intros luck i j v Hl. unfold Part000.initialValue.
    destruct (Qlt_le_dec _ _); [|discriminate].
    intros [= <-].
    destruct (Hl (cellKey i j +:+ ",value")) as [H0 H1].
    pose proof (floor_scaled_nonneg _ 3 H0 ltac:(lia)) as Hlo.
    pose proof (floor_scaled_lt _ 3 H1 ltac:(lia)) as Hhi.
    change (inject_Z 3) with 3%Q in Hlo, Hhi.
    exists (1 + Qfloor (luck (cellKey i j +:+ ",value") * 3)).
    split; [lia|reflexivity].
Qed.

Lemma generated_values_range_witness :
  ∃ k, 1 ≤ k ≤ 6 ∧ 2%Q = js_pow2 k ∧ (k = 6 → (source generous 1 == 1)%Q).
Proof.
  apply (proj1 generated_values_range generous 2%Q).
  - intros n. split; discriminate.
  - vm_compute. reflexivity.
Defined.

(** ** part_000: the fixed grid and the console helper *)

(** X9: in part_000 the grid is a function of [luck] alone: after start-up
    the cell (i, j) holds the luck-seeded initial value when it lies in the
    square of radius 60 around the origin cell, and is absent otherwise,
    wherever the player is; the score is 0 and the hand empty.  No click
    and no call of [pick] adds or removes a cell afterwards. *)
Theorem fixed_grid_is_seeded_by_luck :
  (∀ luck geo i j,
     Part000.content i j (Part000.startup luck geo)
     = if within Part000.RENDER_RADIUS (mkCell 0 0) i j
       then Some (Part000.initialValue luck i j) else None) ∧
  (∀ luck geo,
     Part000.ORIGIN_LATLNG (Part000.startup luck geo) = default FALLBACK_LATLNG geo ∧
     Part000.playerPoints (Part000.startup luck geo) = 0%Q ∧
     Part000.heldToken (Part000.startup luck geo) = None) ∧
  (∀ e s, dom (Part000.cellMap (Part000.step e s)) = dom (Part000.cellMap s)).
Proof.
  split_and!.
  - intros luck geo i j. unfold Part000.startup. apply renderGrid_content_000.
  - intros luck geo. unfold Part000.startup.
    match goal with |- context [Part000.renderGrid luck ?s0] =>
      destruct (renderGrid_frame_000 luck s0) as (-> & -> & ->) end.
    done.
  - assert (∀ (m : gmap string Part000.CellInfo) k a b,
              m !! k = Some a → dom (<[k := b]> m) = dom m) as Hins.
    { intros m k a b Hk. rewrite dom_insert_L.
      apply (elem_of_dom_2 (D:=gset string)) in Hk. set_solver. }
    intros [i j|i j] s; cbn [Part000.step].
    + unfold Part000.click.
      destruct (Part000.cellMap s !! cellKey i j) as [info|] eqn:Hinfo; [|done].
      destruct (negb (Part000.canInteract i j)); [done|].
      destruct (Part000.heldToken s) as [h|], (Part000.value info) as [v|];
        cbn; try done; try (by eapply Hins).
      destruct (Qeq_bool v h); cbn; [by eapply Hins|done].
    + unfold Part000.pick.
      destruct (Part000.cellMap s !! cellKey i j) as [c|] eqn:Hc; [|done].
      destruct (Part000.heldToken s), (Part000.value c); try done.
      destruct (Part000.canInteract i j); cbn; [by eapply Hins|done].
Qed.

(** X10: the console helper [pick] of part_000.  Where a click picks a
    token up (empty hand, token in a rendered cell in range), [pick]
    returns that token and moves it to the hand exactly as the click does,
    but scores nothing, while the click scores one point.  When [pick]
    returns null it has changed nothing. *)
Theorem console_pick_scores_nothing :
  (∀ i j s info v,
     Part000.cellMap s !! cellKey i j = Some info →
     Part000.value info = Some v → Part000.heldToken s = None →
     Part000.canInteract i j = true →
     (Part000.pick i j s).1 = Some v ∧
     Part000.heldToken (Part000.pick i j s).2 = Some v ∧
     Part000.heldToken (Part000.click i j s).1 = Some v ∧
     Part000.cellMap (Part000.pick i j s).2 = Part000.cellMap (Part000.click i j s).1 ∧
     Part000.content i j (Part000.pick i j s).2 = Some None ∧
     Part000.playerPoints (Part000.pick i j s).2 = Part000.playerPoints s ∧
     Part000.playerPoints (Part000.click i j s).1 = (Part000.playerPoints s + 1)%Q) ∧
  (∀ i j s, (Part000.pick i j s).1 = None → (Part000.pick i j s).2 = s).
Proof.
  split.
  - intros i j s info v Hinfo Hv Hh Hin.
    unfold Part000.pick, Part000.click, Part000.content.
    rewrite Hinfo, Hh, Hv, Hin. cbn. rewrite lookup_insert_eq. done.
  - intros i j s. unfold Part000.pick.
    destruct (Part000.cellMap s !! cellKey i j) as [c|]; [|done].
    destruct (Part000.heldToken s), (Part000.value c); try done.
    destruct (Part000.canInteract i j); [discriminate|done].
Qed.

Lemma console_pick_scores_nothing_witness :
  let s := Part000.mkState origin0 0 None
             {[ cellKey 1 2 := Part000.mkCellInfo 1 2 (Some 4%Q) ]} in
  (Part000.pick 1 2 s).1 = Some 4%Q ∧
  Part000.playerPoints (Part000.pick 1 2 s).2 = 0%Q ∧
  Part000.playerPoints (Part000.click 1 2 s).1 = (0 + 1)%Q.
Proof.
  cbv zeta.
  destruct (proj1 console_pick_scores_nothing 1 2
              (Part000.mkState origin0 0 None
                 {[ cellKey 1 2 := Part000.mkCellInfo 1 2 (Some 4%Q) ]})
              (Part000.mkCellInfo 1 2 (Some 4%Q)) 4%Q)
    as (H1 & _ & _ & _ & _ & H2 & H3).
  - vm_compute. reflexivity.
  - reflexivity.
  - reflexivity.
  - vm_compute. reflexivity.
  - split; [exact H1|split; [exact H2|exact H3]].
Defined.

(** ** What shows the victory overlay *)

Lemma click_overlay_cause_main i j s :
  MainTs.overlay s = false → MainTs.overlay (MainTs.click i j s) = true →
  reaches (MainTs.heldToken (MainTs.click i j s)) TARGET_MAX_TOKEN = true.
Proof.
  unfold MainTs.click.
  destruct (MainTs.cellMap s !! cellKey i j) as [info|]; [|congruence].
  destruct (negb (MainTs.canInteract i j s)); [congruence|].
  destruct (MainTs.heldToken s) as [h|], (MainTs.value info) as [v|];
    try congruence.
  - destruct (Qeq_bool v h); [|congruence].
    match goal with |- context [MainTs.checkVictory ?s0] =>
      destruct (checkVictory_frame_main s0) as (_ & _ & _ & -> & _ & _ & ->) end.
    cbn [MainTs.overlay MainTs.heldToken]. by intros ->.
  - cbn. congruence.
  - match goal with |- context [MainTs.checkVictory ?s0] =>
      destruct (checkVictory_frame_main s0) as (_ & _ & _ & -> & _ & _ & ->) end.
    cbn [MainTs.overlay MainTs.heldToken]. by intros ->.
Qed.

(** X11: the victory overlay appears only through a click that leaves a
    token of at least [TARGET_MAX_TOKEN] in the player's hand: no movement,
    position update, mode toggle or restart shows it, and no click that
    leaves less in the hand. *)
Theorem overlay_appears_only_on_a_winning_click :
  (∀ e s, MainTs.overlay s = false → MainTs.overlay (MainTs.step e s) = true →
     (∃ i j, e = MainTs.Click i j) ∧
     reaches (MainTs.heldToken (MainTs.step e s)) TARGET_MAX_TOKEN = true) ∧
  (∀ e s, Part002.overlay s = false → Part002.overlay (Part002.step e s) = true →
     (∃ i j, e = Part002.Click i j) ∧
     reaches (Part002.heldToken (Part002.step e s)) TARGET_MAX_TOKEN = true) ∧
  (∀ e s, Part001.overlay s = false → Part001.overlay (Part001.step e s) = true →
     (∃ i j, e = Part001.Click i j) ∧
     reaches (Part001.heldToken (Part001.step e s)) TARGET_MAX_TOKEN = true).
Proof.
  split_and!.
  - intros [i j|center|] s Hoff; cbn [MainTs.step].
    + intros Hon. split; [by exists i, j|by apply click_overlay_cause_main].
    + destruct (moveend_frame_main center s) as (_ & _ & _ & _ & ->). congruence.
    + destruct (restartGame_frame_main s) as (_ & _ & -> & _). discriminate.
  - intros [i j|center|] s Hoff; cbn [Part002.step].
    + intros Hon. split; [by exists i, j|].
      destruct (Part002.canInteract i j s) eqn:Hin.
      * destruct (click_in_range_002 i j s Hin) as (Hh & _ & _ & _ & Ho & _).
        rewrite Hh. rewrite Ho, Hoff in Hon. exact Hon.
      * rewrite click_out_of_range_002 in Hon by done. congruence.
    + destruct (moveend_frame_002 center s) as (_ & _ & _ & _ & ->). congruence.
    + destruct (restartGame_frame_002 s) as (_ & _ & -> & _). discriminate.
  - intros [i j|center|pos| |] s Hoff; cbn [Part001.step].
    + intros Hon. split; [by exists i, j|].
      destruct (Part001.canInteract i j s) eqn:Hin.
      * destruct (click_in_range_001 i j s Hin) as (Hh & _ & _ & _ & Ho & _).
        rewrite Hh. rewrite Ho, Hoff in Hon. exact Hon.
      * rewrite click_out_of_range_001 in Hon by done. congruence.
    + destruct (moveend_cases_001 center s) as [->| ->]; [congruence|].
      destruct (relocate_frame_001 center s) as (_ & -> & _). congruence.
    + change (Part001.watchPosition pos s) with (relocate pos s).
      destruct (relocate_frame_001 pos s) as (_ & -> & _). congruence.
    + destruct (toggle_frame_001 s) as (_ & ->). congruence.
    + destruct (restartGame_frame_001 s) as (_ & _ & -> & _). discriminate.
Qed.

Lemma overlay_appears_witness :
  ∃ s, Part001.startup (Some origin0) (one_token (4 # 5)) NoItem = Some s ∧
       reaches (Part001.heldToken (Part001.step (Part001.Click 0 0) s))
               TARGET_MAX_TOKEN = true.
Proof.
  eexists. split; [apply startup_fresh_001|].
  apply (proj2 (proj2 overlay_appears_only_on_a_winning_click)).
  - vm_compute. reflexivity.
  - cbn [Part001.step].
    apply (pickup_wins_001 0 0 (booted (Some origin0) (one_token (4 # 5))) 32%Q).
    + vm_compute. reflexivity.
    + vm_compute. reflexivity.
    + vm_compute. reflexivity.
    + discriminate.
Defined.

(** ** main.ts: the rendered cells are the window *)

Lemma within_interact_render c i j :
  within INTERACT_RANGE c i j = true → within 12 c i j = true.
Proof.
  unfold within, INTERACT_RANGE. rewrite !andb_true_iff, !bool_decide_eq_true. lia.
Qed.

Definition windowed (s : MainTs.state) : Prop :=
  dom (MainTs.cellMap s) = MainTs.desired (MainTs.playerCell s).

Lemma playerCell_home_main s :
  MainTs.playerLatLng s = MainTs.PLAYER_START_LATLNG s →
  MainTs.playerCell s = mkCell 0 0.
Proof. unfold MainTs.playerCell. intros ->. apply latLngToCell_self. Qed.

Lemma startup_windowed_main geo e : windowed (MainTs.startup geo e).
Proof.
  unfold windowed. rewrite startup_dom_main, playerCell_home_main; [done|].
  destruct (startup_frame_main geo e) as (-> & -> & _). done.
Qed.

Lemma step_windowed_main e s : windowed s → windowed (MainTs.step e s).
Proof.
  unfold windowed. intros Hs. destruct e as [i j|center|]; cbn [MainTs.step].
  - rewrite click_dom_main, Hs. unfold MainTs.playerCell.
    destruct (click_frame_main i j s) as (-> & ->). done.
  - rewrite moveend_dom_main. unfold MainTs.playerCell.
    destruct (moveend_frame_main center s) as (-> & -> & _). done.
  - rewrite restartGame_dom_main, playerCell_home_main; [done|].
    destruct (restartGame_frame_main s) as (_ & _ & _ & -> & ->). done.
Qed.

Lemma reachable_windowed_main es s :
  windowed s → windowed (foldl (λ st ev, MainTs.step ev st) s es).
Proof.
  revert s. induction es as [|e es IH]; intros s Hs; [exact Hs|].
  cbn [foldl]. apply IH. by apply step_windowed_main.
Qed.

(** X12: in main.ts the rendered cells are always exactly the window: in
    every state reached from start-up by clicks, movements and restarts,
    [cellMap] holds an entry for each of the 625 cells within
    [RENDER_RADIUS] of the player's cell and no other entry.  So every cell
    the player can interact with has its rectangle. *)
Theorem rendered_cells_are_the_window geo e es :
  let s := foldl (λ st ev, MainTs.step ev st) (MainTs.startup geo e) es in
  (∀ i j, is_Some (MainTs.cellMap s !! cellKey i j)
          ↔ within MainTs.RENDER_RADIUS (MainTs.playerCell s) i j = true) ∧
  size (dom (MainTs.cellMap s)) = 625%nat ∧
  (∀ i j, MainTs.canInteract i j s = true →
          is_Some (MainTs.cellMap s !! cellKey i j)).
Proof.
  cbv zeta.
  pose proof (reachable_windowed_main es _ (startup_windowed_main geo e)) as Hw.
  revert Hw. generalize (foldl (λ st ev, MainTs.step ev st) (MainTs.startup geo e) es).
  intros s Hw. unfold windowed in Hw.
  assert (∀ i j, is_Some (MainTs.cellMap s !! cellKey i j)
                 ↔ within MainTs.RENDER_RADIUS (MainTs.playerCell s) i j = true) as Hin.
  { intros i j. rewrite <- elem_of_desired_main, <- Hw. symmetry. apply elem_of_dom. }
  split_and!.
  - exact Hin.
  - rewrite Hw. apply size_desired_main.
  - intros i j Hc. apply Hin. by apply within_interact_render.
Qed.

(** ** Rendering a window that is already decided *)

Lemma elem_of_windowKeys c R x :
  x ∈ windowCells c R → cellKey (ci x) (cj x) ∈ windowKeys c R.
Proof.
  intros Hx. unfold windowKeys. rewrite elem_of_list_to_set.
  apply list_elem_of_fmap. by exists x.
Qed.

Lemma windowKeys_interactable c i j :
  within INTERACT_RANGE c i j = true → cellKey i j ∈ windowKeys c 12.
Proof.
  intros Hin%within_interact_render.
  apply (elem_of_windowKeys c 12 (mkCell i j)). apply elem_of_windowCells.
  unfold within in Hin. apply andb_true_iff in Hin as [H1 H2].
  apply bool_decide_eq_true in H1, H2. done.
Qed.

Module Rendered002.
Import Part002 Part002Facts.

(** Every cell of the window around the player is decided in the store. *)
Definition rendered (s : state) : Prop :=
  windowKeys (playerCell s) RENDER_RADIUS ⊆ dom (modifiedCells s).

Lemma set_layers_self_002 s : set_layers (layers s) s = s.
Proof. by destruct s. Qed.

Lemma renderCell_hit_002 i j s :
  is_Some (modifiedCells s !! cellKey i j) →
  renderCell i j s = set_layers (layers s ++ [mkCell i j]) s.
Proof.
  intros [c Hc]. unfold renderCell. by rewrite (getCellToken_hit_002 _ _ _ _ Hc).
Qed.

Lemma renderAll_decided_002 cells s :
  (∀ x, x ∈ cells → is_Some (modifiedCells s !! cellKey (ci x) (cj x))) →
  renderAll cells s = set_layers (layers s ++ cells) s.
Proof.
  revert s. induction cells as [|[a b] cells IH]; intros s Hall.
  - unfold renderAll. cbn [foldl]. rewrite app_nil_r. symmetry. apply set_layers_self_002.
  - unfold renderAll. cbn [foldl].
    change (foldl _ ?s0 cells) with (renderAll cells s0).
    rewrite renderCell_hit_002 by (apply Hall; left).
    rewrite IH.
    + unfold set_layers. cbn. by rewrite <- app_assoc.
    + intros y Hy. unfold set_layers. cbn. apply Hall. by right.
Qed.

Lemma renderVisibleCells_rendered_002 s :
  rendered s →
  renderVisibleCells s = set_layers (windowCells (playerCell s) RENDER_RADIUS) s.
Proof.
  intros Hs. rewrite renderVisibleCells_unfold_002, renderAll_decided_002.
  - unfold set_layers. cbn. reflexivity.
  - intros x Hx. unfold set_layers. cbn [modifiedCells].
    apply elem_of_dom, Hs. by apply elem_of_windowKeys.
Qed.

Lemma playerCell_renderVisibleCells_002 s :
  playerCell (renderVisibleCells s) = playerCell s.
Proof.
  unfold playerCell.
  by destruct (renderVisibleCells_frame_002 s) as (-> & -> & _).
Qed.

Lemma rendered_renderVisibleCells_002 s : rendered (renderVisibleCells s).
Proof.
  unfold rendered. rewrite playerCell_renderVisibleCells_002.
  rewrite renderVisibleCells_unfold_002, renderAll_dom_002.
  change (playerCell (set_layers [] s)) with (playerCell s).
  unfold windowKeys.
  generalize (windowCells (playerCell s) RENDER_RADIUS). intros l.
  apply union_subseteq_r.
Qed.

Lemma playerCell_click_002 i j s : playerCell (click i j s) = playerCell s.
Proof.
  destruct (canInteract i j s) eqn:Hin.
  - unfold playerCell.
    by destruct (click_in_range_002 i j s Hin) as (_ & _ & _ & _ & _ & -> & ->).
  - by rewrite click_out_of_range_002.
Qed.

Lemma step_rendered_002 e s : rendered s → rendered (step e s).
Proof.
  intros Hs. destruct e as [i j|center|]; cbn [step].
  - unfold rendered. rewrite playerCell_click_002.
    etrans; [exact Hs|].
    apply (step_keeps_keys_002 (Click i j) s). discriminate.
  - apply rendered_renderVisibleCells_002.
  - apply rendered_renderVisibleCells_002.
Qed.

Lemma reachable_rendered_002 geo e es :
  rendered (foldl (λ st ev, step ev st) (startup geo e) es).
Proof.
  assert (rendered (startup geo e)) as H0 by apply rendered_renderVisibleCells_002.
  revert H0. generalize (startup geo e). intros s Hs. revert s Hs.
  induction es as [|ev es IH]; intros s Hs; [exact Hs|].
  cbn [foldl]. apply IH. by apply step_rendered_002.
Qed.

Lemma click_draws_nothing_002 i j s :
  rendered s → canInteract i j s = true →
  is_Some (modifiedCells s !! cellKey i j) ∧ entropy (click i j s) = entropy s.
Proof.
  intros Hs Hin.
  assert (is_Some (modifiedCells s !! cellKey i j)) as [c Hc].
  { apply elem_of_dom, Hs. by apply windowKeys_interactable. }
  split; [by exists c|].
  destruct (click_in_range_002 i j s Hin) as (_ & _ & _ & -> & _).
  by rewrite (getCellToken_hit_002 _ _ _ _ Hc).
Qed.

End Rendered002.

Module Rendered001.
Import Part001 Part001Facts.

(** Every cell of the window around the player is decided in the store. *)
Definition rendered (s : state) : Prop :=
  windowKeys (playerCell s) RENDER_RADIUS ⊆ dom (modifiedCells s).

Lemma set_layers_self_001 s : set_layers (layers s) s = s.
Proof. by destruct s. Qed.

Lemma renderCell_hit_001 i j s :
  is_Some (modifiedCells s !! cellKey i j) →
  renderCell i j s = set_layers (layers s ++ [mkCell i j]) s.
Proof.
  intros [c Hc]. unfold renderCell. by rewrite (getCellToken_hit_001 _ _ _ _ Hc).
Qed.

Lemma renderAll_decided_001 cells s :
  (∀ x, x ∈ cells → is_Some (modifiedCells s !! cellKey (ci x) (cj x))) →
  renderAll cells s = set_layers (layers s ++ cells) s.
Proof.
  revert s. induction cells as [|[a b] cells IH]; intros s Hall.
  - unfold renderAll. cbn [foldl]. rewrite app_nil_r. symmetry. apply set_layers_self_001.
  - unfold renderAll. cbn [foldl].
    change (foldl _ ?s0 cells) with (renderAll cells s0).
    rewrite renderCell_hit_001 by (apply Hall; left).
    rewrite IH.
    + unfold set_layers. cbn. by rewrite <- app_assoc.
    + intros y Hy. unfold set_layers. cbn. apply Hall. by right.
Qed.

Lemma renderVisibleCells_rendered_001 s :
  rendered s →
  renderVisibleCells s = set_layers (windowCells (playerCell s) RENDER_RADIUS) s.
Proof.
  intros Hs. rewrite renderVisibleCells_unfold_001, renderAll_decided_001.
  - unfold set_layers. cbn. reflexivity.
  - intros x Hx. unfold set_layers. cbn [modifiedCells].
    apply elem_of_dom, Hs. by apply elem_of_windowKeys.
Qed.

Lemma playerCell_renderVisibleCells_001 s :
  playerCell (renderVisibleCells s) = playerCell s.
Proof.
  unfold playerCell.
  by destruct (renderVisibleCells_frame_001 s) as (-> & -> & _).
Qed.

Lemma rendered_renderVisibleCells_001 s : rendered (renderVisibleCells s).
Proof.
  unfold rendered. rewrite playerCell_renderVisibleCells_001.
  rewrite renderVisibleCells_unfold_001, renderAll_dom_001.
  change (playerCell (set_layers [] s)) with (playerCell s).
  unfold windowKeys.
  generalize (windowCells (playerCell s) RENDER_RADIUS). intros l.
  apply union_subseteq_r.
Qed.

Lemma rendered_saveGameState_001 s : rendered s → rendered (saveGameState s).
Proof. intros Hs. exact Hs. Qed.

Lemma rendered_saved_render_001 s : rendered (saveGameState (renderVisibleCells s)).
Proof. apply rendered_saveGameState_001, rendered_renderVisibleCells_001. Qed.

Lemma playerCell_click_001 i j s : playerCell (click i j s) = playerCell s.
Proof.
  destruct (canInteract i j s) eqn:Hin.
  - unfold playerCell.
    by destruct (click_in_range_001 i j s Hin) as (_ & _ & _ & _ & _ & -> & ->).
  - by rewrite click_out_of_range_001.
Qed.

Lemma toggle_position_001 s :
  PLAYER_START_LATLNG (toggleMovementMode s) = PLAYER_START_LATLNG s ∧
  playerLatLng (toggleMovementMode s) = playerLatLng s.
Proof. unfold toggleMovementMode. by destruct (movementMode s). Qed.

Lemma step_rendered_001 e s : rendered s → rendered (step e s).
Proof.
  intros Hs. destruct e as [i j|center|pos| |]; cbn [step].
  - unfold rendered. rewrite playerCell_click_001.
    etrans; [exact Hs|].
    apply (step_keeps_keys_001 (Click i j) s). discriminate.
  - destruct (moveend_cases_001 center s) as [->| ->]; [exact Hs|].
    apply rendered_saved_render_001.
  - apply rendered_saved_render_001.
  - unfold rendered, playerCell.
    destruct (toggle_position_001 s) as (-> & ->).
    rewrite toggleMovementMode_store_001. exact Hs.
  - apply rendered_saved_render_001.
Qed.

Lemma set_movementMode_self_001 s : set_movementMode (movementMode s) s = s.
Proof. by destruct s. Qed.

(** The start-up closure ends with a rendering and a save. *)
Lemma startup_shape_001 geo e disk s :
  startup geo e disk = Some s →
  ∃ s0, s = saveGameState (renderVisibleCells (renderVisibleCells s0)) ∧
        (loadGameState (fresh e disk) = Restored s0 ∨
         ∃ s1, loadGameState (fresh e disk) = NotRestored s1 ∧
               s0 = mkState (default FALLBACK_LATLNG geo)
                            (default FALLBACK_LATLNG geo) (playerPoints s1)
                            (heldToken s1) (movementMode s1) (modifiedCells s1)
                            (overlay s1) (entropy s1) (layers s1)
                            (localStorage s1)).
Proof.
  unfold startup, setMovementMode.
  destruct (loadGameState (fresh e disk)) as [s0|s1|]; [| |discriminate].
  - intros H. apply (inj Some) in H. rewrite <- H. clear H.
    exists s0. split; [|left; reflexivity].
    rewrite set_movementMode_self_001. reflexivity.
  - intros H. apply (inj Some) in H. rewrite <- H. clear H.
    eexists. split; [|right; eexists; split; reflexivity].
    rewrite set_movementMode_self_001. reflexivity.
Qed.

Lemma startup_rendered_001 geo e disk s :
  startup geo e disk = Some s → rendered s.
Proof.
  intros (s0 & -> & _)%startup_shape_001. apply rendered_saved_render_001.
Qed.

Lemma reachable_rendered_001 es s :
  rendered s → rendered (foldl (λ st ev, step ev st) s es).
Proof.
  revert s. induction es as [|ev es IH]; intros s Hs; [exact Hs|].
  cbn [foldl]. apply IH. by apply step_rendered_001.
Qed.

Lemma click_draws_nothing_001 i j s :
  rendered s → canInteract i j s = true →
  is_Some (modifiedCells s !! cellKey i j) ∧ entropy (click i j s) = entropy s.
Proof.
  intros Hs Hin.
  assert (is_Some (modifiedCells s !! cellKey i j)) as [c Hc].
  { apply elem_of_dom, Hs. by apply windowKeys_interactable. }
  split; [by exists c|].
  destruct (click_in_range_001 i j s Hin) as (_ & _ & _ & -> & _).
  by rewrite (getCellToken_hit_001 _ _ _ _ Hc).
Qed.

End Rendered001.

Lemma renderMissing_present_main cells s :
  (∀ x, x ∈ cells → is_Some (MainTs.cellMap s !! cellKey (ci x) (cj x))) →
  renderMissing cells s = s.
Proof.
  unfold renderMissing. induction cells as [|x cells IH]; intros Hall; [done|].
  cbn [foldl]. rewrite decide_True by (apply Hall; left).
  apply IH. intros y Hy. apply Hall. by right.
Qed.

Lemma renderVisibleCells_windowed_main s :
  windowed s → MainTs.renderVisibleCells s = s.
Proof.
  unfold windowed. intros Hs.
  rewrite renderVisibleCells_eq_main, renderMissing_present_main.
  - unfold prune. rewrite map_filter_id; [by destruct s|].
    intros k info Hk. cbn. rewrite <- Hs. by apply elem_of_dom_2 in Hk.
  - intros x Hx. apply elem_of_dom. rewrite Hs.
    apply elem_of_desired_main. apply elem_of_windowCells in Hx.
    unfold within. apply andb_true_iff.
    split; apply bool_decide_eq_true; tauto.
Qed.

Lemma windowed_renderVisibleCells_main s : windowed (MainTs.renderVisibleCells s).
Proof.
  unfold windowed. rewrite renderVisibleCells_dom_main. unfold MainTs.playerCell.
  by destruct (renderVisibleCells_frame_main s) as (-> & -> & _).
Qed.

(** X13: rendering the window twice is rendering it once.  The second
    [renderVisibleCells] finds every cell of the window decided: it draws
    no random number, changes no cell, and leaves the same rectangles on
    the map (in main.ts it also finds nothing to delete). *)
Theorem rendering_twice_is_rendering_once :
  (∀ s, MainTs.renderVisibleCells (MainTs.renderVisibleCells s)
        = MainTs.renderVisibleCells s) ∧
  (∀ s, Part002.renderVisibleCells (Part002.renderVisibleCells s)
        = Part002.renderVisibleCells s) ∧
  (∀ s, Part001.renderVisibleCells (Part001.renderVisibleCells s)
        = Part001.renderVisibleCells s).
Proof.
  split_and!.
  - intros s. apply renderVisibleCells_windowed_main, windowed_renderVisibleCells_main.
  - intros s.
    rewrite (Rendered002.renderVisibleCells_rendered_002 _
               (Rendered002.rendered_renderVisibleCells_002 s)).
    rewrite Rendered002.playerCell_renderVisibleCells_002.
    destruct (renderVisibleCells_frame_002 s) as (_ & _ & _ & _ & _ & Hl).
    rewrite <- Hl. apply Rendered002.set_layers_self_002.
  - intros s.
    rewrite (Rendered001.renderVisibleCells_rendered_001 _
               (Rendered001.rendered_renderVisibleCells_001 s)).
    rewrite Rendered001.playerCell_renderVisibleCells_001.
    destruct (renderVisibleCells_frame_001 s) as (_ & _ & _ & _ & _ & Hl).
    rewrite <- Hl. apply Rendered001.set_layers_self_001.
Qed.

(** X14: in part_002 and part_001 a click never generates a cell.  In every
    state reached from start-up the cells within [INTERACT_RANGE] of the
    player were decided when the window was rendered, so the handler's
    [getCellToken] finds them in the store and the click draws no random
    number. *)
Theorem clicks_never_generate :
  (∀ geo e es i j,
     let s := foldl (λ st ev, Part002.step ev st) (Part002.startup geo e) es in
     Part002.canInteract i j s = true →
     is_Some (Part002.modifiedCells s !! cellKey i j) ∧
     Part002.entropy (Part002.click i j s) = Part002.entropy s) ∧
  (∀ geo e disk s0 es i j,
     Part001.startup geo e disk = Some s0 →
     let s := foldl (λ st ev, Part001.step ev st) s0 es in
     Part001.canInteract i j s = true →
     is_Some (Part001.modifiedCells s !! cellKey i j) ∧
     Part001.entropy (Part001.click i j s) = Part001.entropy s).
Proof.
  split.
  - intros geo e es i j. cbv zeta.
    apply Rendered002.click_draws_nothing_002, Rendered002.reachable_rendered_002.
  - intros geo e disk s0 es i j H0. cbv zeta.
    apply Rendered001.click_draws_nothing_001, Rendered001.reachable_rendered_001.
    by eapply Rendered001.startup_rendered_001.
Qed.

Lemma clicks_never_generate_witness :
  let s := foldl (λ st ev, Part002.step ev st)
                 (Part002.startup (Some origin0) calm) [] in
  is_Some (Part002.modifiedCells s !! cellKey 0 0) ∧
  Part002.entropy (Part002.click 0 0 s) = Part002.entropy s.
Proof.
  cbv zeta.
  apply (proj1 clicks_never_generate (Some origin0) calm [] 0 0).
  vm_compute. reflexivity.
Defined.

(** ** part_001: the saved game *)

Module Persist001.
Import Part001 Part001Facts Rendered001.

Lemma saved_saveGameState_001 s : saved (saveGameState s).
Proof. unfold saved, saveGameState, set_localStorage. reflexivity. Qed.

Lemma saved_set_layers_001 l s : saved s → saved (set_layers l s).
Proof. unfold saved, set_layers. intros Hs. exact Hs. Qed.

(** An in-range click ends with a save, followed by the re-rendering of
    the clicked cell, which only touches the map's layers. *)
Lemma click_shape_001 i j s :
  canInteract i j s = true →
  ∃ l x, click i j s = set_layers l (saveGameState x).
Proof.
  intros Hin. unfold click. rewrite Hin. cbn [negb].
  pose proof (getCellToken_decided_001 i j s) as Hdec.
  destruct (getCellToken i j s) as [t s1]. cbn [fst snd] in Hdec. cbv zeta.
  assert (is_Some (modifiedCells (interact i j t s1) !! cellKey i j)) as Hc.
  { apply interact_decided_001. by eexists. }
  destruct (checkVictory_frame_001 (interact i j t s1)) as (_ & _ & _ & _ & Hv & _).
  rewrite <- Hv in Hc.
  rewrite renderCell_hit_001 by exact Hc.
  eexists _, _. reflexivity.
Qed.

Lemma click_saved_001 i j s : saved s → saved (click i j s).
Proof.
  intros Hs. destruct (canInteract i j s) eqn:Hin.
  - destruct (click_shape_001 i j s Hin) as (l & x & ->).
    apply saved_set_layers_001, saved_saveGameState_001.
  - by rewrite click_out_of_range_001.
Qed.

Lemma toggle_shape_001 s :
  ∃ x, toggleMovementMode s = saveGameState x ∧
       movementMode x = match movementMode s with gps => buttons | buttons => gps end ∧
       PLAYER_START_LATLNG x = PLAYER_START_LATLNG s ∧
       playerLatLng x = playerLatLng s ∧ playerPoints x = playerPoints s ∧
       heldToken x = heldToken s ∧ modifiedCells x = modifiedCells s ∧
       overlay x = overlay s ∧ entropy x = entropy s.
Proof.
  unfold toggleMovementMode, setMovementMode. cbv zeta.
  eexists. split; [reflexivity|]. by destruct (movementMode s).
Qed.

Lemma step_saved_001 e s : saved s → saved (step e s).
Proof.
  intros Hs. destruct e as [i j|center|pos| |]; cbn [step].
  - by apply click_saved_001.
  - destruct (moveend_cases_001 center s) as [->| ->]; [exact Hs|].
    apply saved_saveGameState_001.
  - apply saved_saveGameState_001.
  - destruct (toggle_shape_001 s) as (x & -> & _). apply saved_saveGameState_001.
  - apply saved_saveGameState_001.
Qed.

Lemma startup_saved_001 geo e disk s : startup geo e disk = Some s → saved s.
Proof.
  intros (s0 & -> & _)%startup_shape_001. apply saved_saveGameState_001.
Qed.

(** What the start-up closure makes of the state [s0] it renders from. *)
Lemma boot_frame_001 s0 :
  let s := saveGameState (renderVisibleCells (renderVisibleCells s0)) in
  PLAYER_START_LATLNG s = PLAYER_START_LATLNG s0 ∧
  playerLatLng s = playerLatLng s0 ∧ playerPoints s = playerPoints s0 ∧
  heldToken s = heldToken s0 ∧ movementMode s = movementMode s0 ∧
  overlay s = overlay s0 ∧
  modifiedCells s = modifiedCells (renderVisibleCells s0) ∧
  entropy s = entropy (renderVisibleCells s0).
Proof.
  cbv zeta.
  pose proof (renderVisibleCells_rendered_001 _ (rendered_renderVisibleCells_001 s0)) as Hr.
  rewrite Hr. clear Hr.
  destruct (renderVisibleCells_frame_001 s0) as (H1 & H2 & H3 & H4 & H5 & _).
  pose proof (renderVisibleCells_mode_001 s0) as H6.
  revert H1 H2 H3 H4 H5 H6. generalize (renderVisibleCells s0). intros r.
  unfold saveGameState, set_localStorage, set_layers.
  cbn [PLAYER_START_LATLNG playerLatLng playerPoints heldToken movementMode
       overlay modifiedCells entropy].
  intros -> -> -> -> -> ->. done.
Qed.

End Persist001.

(** The stored items [loadGameState] gives up on: no item or the empty
    text ([if (!s) return false]), a text [JSON.parse] throws on, and the
    text [null], on which the first property read throws. *)
Definition unreadable (d : stored) : bool :=
  match d with
  | NoItem | EmptyText | Unparsable | Stringified JNull => true
  | Stringified _ => false
  end.

(** X15: in part_001 the saved game is always current: start-up ends with
    the stored item being the serialization of the game it starts with, and
    every event (click, map move, position update, mode toggle, restart)
    keeps the stored item equal to the serialization of the current game. *)
Theorem saved_game_is_always_current :
  (∀ geo e disk s, Part001.startup geo e disk = Some s → Part001.saved s) ∧
  (∀ e s, Part001.saved s → Part001.saved (Part001.step e s)).
Proof.
  split.
  - intros geo e disk s. apply Persist001.startup_saved_001.
  - intros e s. apply Persist001.step_saved_001.
Qed.

Lemma saved_game_is_always_current_witness :
  Part001.saved (booted (Some origin0) calm).
Proof.
  apply (proj1 saved_game_is_always_current (Some origin0) calm NoItem).
  apply startup_fresh_001.
Defined.



(** X17: an unreadable saved game starts a fresh session.  When the stored
    item is missing, empty, not JSON or the text [null], start-up takes the
    origin from the position request (the fallback when there is none),
    puts the player on it with score 0 and an empty hand in gps mode,
    decides the 625 cells of the first window and nothing else, and
    replaces the stored item by the new game. *)
Theorem unreadable_save_starts_afresh geo e disk :
  unreadable disk = true →
  ∃ s', Part001.startup geo e disk = Some s' ∧
        Part001.PLAYER_START_LATLNG s' = default FALLBACK_LATLNG geo ∧
        Part001.playerLatLng s' = default FALLBACK_LATLNG geo ∧
        Part001.playerPoints s' = 0%Q ∧ Part001.heldToken s' = None ∧
        Part001.movementMode s' = Part001.gps ∧ Part001.overlay s' = false ∧
        dom (Part001.modifiedCells s') = windowKeys (mkCell 0 0) Part001.RENDER_RADIUS ∧
        Part001.saved s'.
Proof.
  intros Hd.
  assert (Part001.loadGameState (Part001.fresh e disk)
          = Part001.NotRestored (Part001.fresh e disk)) as Hload.
  { destruct disk as [| | |v]; try reflexivity.
    destruct v; try discriminate Hd. reflexivity. }
  destruct (Part001.startup geo e disk) as [s'|] eqn:Hst.
  2: { exfalso. revert Hst. unfold Part001.startup. rewrite Hload. discriminate. }
  exists s'. split; [reflexivity|].
  pose proof (Persist001.startup_saved_001 _ _ _ _ Hst) as Hsaved.
  apply Rendered001.startup_shape_001 in Hst as (s0 & -> & [Hr|(s1 & Hn & Hs0)]).
  1: { rewrite Hload in Hr. discriminate Hr. }
  rewrite Hload in Hn.
  assert (∀ a b, Part001.NotRestored a = Part001.NotRestored b → a = b) as Hinj
    by (intros a b Hab; injection Hab; trivial).
  apply Hinj in Hn. clear Hinj. subst s1.
  cbn [Part001.fresh Part001.playerPoints Part001.heldToken Part001.movementMode
       Part001.modifiedCells Part001.overlay Part001.entropy Part001.layers
       Part001.localStorage] in Hs0.
  destruct (Persist001.boot_frame_001 s0) as (H1 & H2 & H3 & H4 & H5 & H6 & H7 & _).
  assert (dom (Part001.modifiedCells (Part001.renderVisibleCells s0))
          = windowKeys (mkCell 0 0) Part001.RENDER_RADIUS) as Hdom.
  { rewrite renderVisibleCells_unfold_001, renderAll_dom_001.
    unfold Part001.playerCell. subst s0.
    cbn [Part001.PLAYER_START_LATLNG Part001.playerLatLng Part001.set_layers
         Part001.modifiedCells].
    rewrite latLngToCell_self, dom_empty_L, (left_id_L ∅ (∪)). reflexivity. }
  rewrite H1, H2, H3, H4, H5, H6, H7, Hdom. subst s0.
  split; [reflexivity|]. split; [reflexivity|]. split; [reflexivity|].
  split; [reflexivity|]. split; [reflexivity|]. split; [reflexivity|].
  split; [reflexivity|exact Hsaved].
Qed.

Lemma unreadable_save_starts_afresh_witness :
  ∃ s', Part001.startup None calm Unparsable = Some s' ∧
        Part001.PLAYER_START_LATLNG s' = FALLBACK_LATLNG ∧
        Part001.saved s'.
Proof.
  destruct (unreadable_save_starts_afresh None calm Unparsable)
    as (s' & H0 & H1 & _ & _ & _ & _ & _ & _ & H8).
  - reflexivity.
  - exists s'. split; [exact H0|]. split; [exact H1|exact H8].
Defined.

(** ** Picking a token up and putting it back *)

Lemma round_trip_views (a b c : view) v :
  hand a = None → cell a = Some v →
  picks_up a b → places b c →
  c = mkView None (Some v) (score a + 1)%Q.
Proof.
  intros Hh Hc Hpick Hplace.
  destruct (Hpick v Hh Hc) as (Hb1 & Hb2 & Hb3).
  destruct (Hplace v Hb1 Hb2) as (Hc1 & Hc2 & Hc3).
  destruct c as [ch cc cs]. cbn in *. subst. by rewrite Hb3.
Qed.

(** X18: picking a token up and putting it back.  With an empty hand, two
    clicks on a cell in range that holds a token leave the token in the
    cell and the hand empty again, and the score one point higher: the
    pick-up scores and the put-back costs nothing. *)
Theorem pick_up_and_put_back :
  (∀ i j s v, MainTs.canInteract i j s = true →
     hand (MainTs.observe i j s) = None → cell (MainTs.observe i j s) = Some v →
     MainTs.observe i j (MainTs.click i j (MainTs.click i j s))
     = mkView None (Some v) (MainTs.playerPoints s + 1)%Q) ∧
  (∀ i j s v, Part002.canInteract i j s = true →
     hand (Part002.observe i j s) = None → cell (Part002.observe i j s) = Some v →
     Part002.observe i j (Part002.click i j (Part002.click i j s))
     = mkView None (Some v) (Part002.playerPoints s + 1)%Q) ∧
  (∀ i j s v, Part001.canInteract i j s = true →
     hand (Part001.observe i j s) = None → cell (Part001.observe i j s) = Some v →
     Part001.observe i j (Part001.click i j (Part001.click i j s))
     = mkView None (Some v) (Part001.playerPoints s + 1)%Q).
Proof.
  split_and!.
  - intros i j s v Hin Hh Hc.
    assert (is_Some (MainTs.cellMap s !! cellKey i j)) as Hs.
    { revert Hc. unfold MainTs.observe, MainTs.content. cbn [cell].
      destruct (MainTs.cellMap s !! cellKey i j); [by eexists|discriminate]. }
    assert (MainTs.canInteract i j (MainTs.click i j s) = true) as Hin'.
    { unfold MainTs.canInteract, MainTs.playerCell.
      destruct (click_frame_main i j s) as (-> & ->). exact Hin. }
    assert (is_Some (MainTs.cellMap (MainTs.click i j s) !! cellKey i j)) as Hs'.
    { apply elem_of_dom. rewrite click_dom_main. by apply elem_of_dom. }
    destruct (click_rules_main i j s Hin Hs) as (Hp & _).
    destruct (click_rules_main i j _ Hin' Hs') as (_ & Hq & _).
    apply (round_trip_views _ _ _ v Hh Hc Hp Hq).
  - intros i j s v Hin Hh Hc.
    assert (Part002.canInteract i j (Part002.click i j s) = true) as Hin'.
    { unfold Part002.canInteract.
      rewrite Rendered002.playerCell_click_002. exact Hin. }
    destruct (click_rules_002 i j s Hin) as (Hp & _).
    destruct (click_rules_002 i j _ Hin') as (_ & Hq & _).
    apply (round_trip_views _ _ _ v Hh Hc Hp Hq).
  - intros i j s v Hin Hh Hc.
    assert (Part001.canInteract i j (Part001.click i j s) = true) as Hin'.
    { unfold Part001.canInteract.
      rewrite Rendered001.playerCell_click_001. exact Hin. }
    destruct (click_rules_001 i j s Hin) as (Hp & _).
    destruct (click_rules_001 i j _ Hin') as (_ & Hq & _).
    apply (round_trip_views _ _ _ v Hh Hc Hp Hq).
Qed.

Lemma pick_up_and_put_back_witness :
  let s := Part002.mkState origin0 origin0 5 None
             {[ cellKey 1 1 := Some 4%Q ]} false calm [] in
  Part002.observe 1 1 (Part002.click 1 1 (Part002.click 1 1 s))
  = mkView None (Some 4%Q) (5 + 1)%Q.
Proof.
  cbv zeta.
  apply (proj1 (proj2 pick_up_and_put_back) 1 1
           (Part002.mkState origin0 origin0 5 None
              {[ cellKey 1 1 := Some 4%Q ]} false calm []) 4%Q).
  - vm_compute. reflexivity.
  - reflexivity.
  - vm_compute. reflexivity.
Defined.

(** X19: the movement-mode toggle of part_001 only switches the mode and
    saves: origin, position, score, held token, cells, overlay and random
    source are untouched, and toggling twice gives back the mode the game
    had. *)
Theorem toggle_switches_only_the_mode s :
  let s1 := Part001.toggleMovementMode s in
  Part001.movementMode s1 ≠ Part001.movementMode s ∧
  Part001.movementMode (Part001.toggleMovementMode s1) = Part001.movementMode s ∧
  Part001.game (Part001.toggleMovementMode s1) = Part001.game s ∧
  Part001.PLAYER_START_LATLNG s1 = Part001.PLAYER_START_LATLNG s ∧
  Part001.playerLatLng s1 = Part001.playerLatLng s ∧
  Part001.playerPoints s1 = Part001.playerPoints s ∧
  Part001.heldToken s1 = Part001.heldToken s ∧
  Part001.modifiedCells s1 = Part001.modifiedCells s ∧
  Part001.overlay s1 = Part001.overlay s ∧
  Part001.entropy s1 = Part001.entropy s ∧
  Part001.saved s1.
Proof.
  cbv zeta. unfold Part001.toggleMovementMode, Part001.setMovementMode,
    Part001.game, Part001.saved.
  destruct s as [ps pl pts held m cells ov en ly disk].
  destruct m; cbn; split_and!; try reflexivity; discriminate.
Qed.

(** ** part_000: the feedback on a rejected click *)

(** X20: the border flashes of part_000 tell the rejections apart.  A click
    flashes red exactly when the cell is out of range, and orange exactly
    when the cell is in range and holds a token unequal to the held one; a
    click that flashes changes nothing.  Every other click is silent. *)
Theorem feedback_flashes_on_rejections i j s :
  ((Part000.click i j s).2 = Part000.FlashOutOfRange
   ↔ is_Some (Part000.cellMap s !! cellKey i j) ∧ Part000.canInteract i j = false) ∧
  ((Part000.click i j s).2 = Part000.FlashIncompatible
   ↔ is_Some (Part000.cellMap s !! cellKey i j) ∧ Part000.canInteract i j = true ∧
     mismatched (Part000.observe i j s)) ∧
  ((Part000.click i j s).2 ≠ Part000.Quiet → (Part000.click i j s).1 = s).
Proof.
  unfold mismatched, Part000.observe, Part000.content, Part000.click.
  destruct (Part000.cellMap s !! cellKey i j) as [info|] eqn:Hinfo; cbn [hand cell fmap option_fmap option_map default].
  2: { split_and!.
       - split; [discriminate|]. by intros [[? [=]] _].
       - split; [discriminate|]. by intros [[? [=]] _].
       - done. }
  destruct (Part000.canInteract i j); cbn [negb].
  2: { split_and!.
       - split; [intros _; split; [by eexists|done]|done].
       - split; [discriminate|]. by intros (_ & [=] & _).
       - done. }
  destruct (Part000.heldToken s) as [h|] eqn:Hh, (Part000.value info) as [v|] eqn:Hv;
    cbn [fst snd].
  - destruct (Qeq_bool v h) eqn:E; cbn [fst snd].
    + split_and!.
      * split; [discriminate|]. by intros [_ [=]].
      * split; [discriminate|]. intros (_ & _ & (a & b & [= <-] & [= <-] & Hne)).
        apply Qeq_bool_iff in E. by destruct Hne.
      * done.
    + split_and!.
      * split; [discriminate|]. by intros [_ [=]].
      * split; [|done]. intros _. split; [by eexists|]. split; [done|].
        exists h, v. split; [done|]. split; [done|].
        intros Heq. apply Qeq_bool_iff in Heq. congruence.
      * done.
  - split_and!.
    + split; [discriminate|]. by intros [_ [=]].
    + split; [discriminate|]. by intros (_ & _ & (a & b & _ & [=] & _)).
    + intros Hq. by destruct Hq.
  - split_and!.
    + split; [discriminate|]. by intros [_ [=]].
    + split; [discriminate|]. by intros (_ & _ & (a & b & [=] & _)).
    + intros Hq. by destruct Hq.
  - split_and!.
    + split; [discriminate|]. by intros [_ [=]].
    + split; [discriminate|]. by intros (_ & _ & (a & b & [=] & _)).
    + done.
Qed.

(** ** part_001: a stored value without the game's fields *)



(** ** Entries sit under the key of their own coordinates *)

Definition keyed_main (m : gmap string MainTs.CellInfo) : Prop :=
  ∀ k info, m !! k = Some info → k = cellKey (MainTs.i info) (MainTs.j info).

Definition keyed_000 (m : gmap string Part000.CellInfo) : Prop :=
  ∀ k info, m !! k = Some info → k = cellKey (Part000.i info) (Part000.j info).

Lemma keyed_insert_main m i j val :
  keyed_main m → keyed_main (<[cellKey i j := MainTs.mkCellInfo i j val]> m).
Proof.
  intros Hm k info. rewrite lookup_insert. case_decide as Hk; [|apply Hm].
  intros Heq. apply (inj Some) in Heq. subst info. by rewrite <- Hk.
Qed.

Lemma keyed_update_main m k0 info0 val :
  keyed_main m → m !! k0 = Some info0 →
  keyed_main (<[k0 := MainTs.mkCellInfo (MainTs.i info0) (MainTs.j info0) val]> m).
Proof.
  intros Hm H0 k info. rewrite lookup_insert. case_decide as Hk; [|apply Hm].
  intros Heq. apply (inj Some) in Heq. subst info. cbn. rewrite <- Hk. by apply Hm.
Qed.

Lemma renderMissing_keyed_main cells s :
  keyed_main (MainTs.cellMap s) → keyed_main (MainTs.cellMap (renderMissing cells s)).
Proof.
  unfold renderMissing. revert s. induction cells as [|x cells IH]; intros s Hs; [exact Hs|].
  cbn [foldl]. apply IH. case_decide; [exact Hs|].
  destruct (renderCell_frame_main (ci x) (cj x) s) as (_ & _ & _ & _ & _ & -> & _).
  by apply keyed_insert_main.
Qed.

Lemma renderVisibleCells_keyed_main s :
  keyed_main (MainTs.cellMap s) → keyed_main (MainTs.cellMap (MainTs.renderVisibleCells s)).
Proof.
  intros Hs. rewrite renderVisibleCells_unfold_main.
  intros k info [Hk _]%map_lookup_filter_Some.
  revert Hk. by apply renderMissing_keyed_main.
Qed.

Lemma click_keyed_main i j s :
  keyed_main (MainTs.cellMap s) → keyed_main (MainTs.cellMap (MainTs.click i j s)).
Proof.
  intros Hs. unfold MainTs.click.
  destruct (MainTs.cellMap s !! cellKey i j) as [info|] eqn:Hinfo; [|exact Hs].
  destruct (negb (MainTs.canInteract i j s)); [exact Hs|].
  destruct (MainTs.heldToken s) as [h|], (MainTs.value info) as [v|]; try exact Hs.
  - destruct (Qeq_bool v h); [|exact Hs].
    match goal with |- context [MainTs.checkVictory ?s0] =>
      destruct (checkVictory_frame_main s0) as (_ & _ & _ & _ & -> & _) end.
    by apply keyed_update_main.
  - by apply keyed_update_main.
  - match goal with |- context [MainTs.checkVictory ?s0] =>
      destruct (checkVictory_frame_main s0) as (_ & _ & _ & _ & -> & _) end.
    by apply keyed_update_main.
Qed.

Lemma step_keyed_main e s :
  keyed_main (MainTs.cellMap s) → keyed_main (MainTs.cellMap (MainTs.step e s)).
Proof.
  intros Hs. destruct e as [i j|center|]; cbn [MainTs.step].
  - by apply click_keyed_main.
  - unfold MainTs.moveend. apply renderVisibleCells_keyed_main. exact Hs.
  - unfold MainTs.restartGame. apply renderVisibleCells_keyed_main.
    intros k info. cbn [MainTs.cellMap]. by rewrite lookup_empty.
Qed.

Lemma reachable_keyed_main es s :
  keyed_main (MainTs.cellMap s) →
  keyed_main (MainTs.cellMap (foldl (λ st ev, MainTs.step ev st) s es)).
Proof.
  revert s. induction es as [|e es IH]; intros s Hs; [exact Hs|].
  cbn [foldl]. apply IH. by apply step_keyed_main.
Qed.

Lemma renderEach_keyed_000 luck cells s :
  keyed_000 (Part000.cellMap s) →
  keyed_000 (Part000.cellMap (renderEach luck cells s)).
Proof.
  revert s. induction cells as [|[a b] cells IH]; intros s Hs.
  - exact Hs.
  - rewrite renderEach_cons_000. apply IH.
    cbn [Part000.renderCell Part000.set_cell Part000.cellMap ci cj].
    intros k info. rewrite lookup_insert. case_decide as Hk; [|apply Hs].
    intros Heq. apply (inj Some) in Heq. subst info. by rewrite <- Hk.
Qed.

Lemma step_keyed_000 e s :
  keyed_000 (Part000.cellMap s) → keyed_000 (Part000.cellMap (Part000.step e s)).
Proof.
  assert (∀ k0 info0 val, keyed_000 (Part000.cellMap s) →
            Part000.cellMap s !! k0 = Some info0 →
            keyed_000 (<[k0 := Part000.mkCellInfo (Part000.i info0) (Part000.j info0) val]>
                         (Part000.cellMap s))) as Hupd.
  { intros k0 info0 val Hm H0 k info. rewrite lookup_insert.
    case_decide as Hk; [|apply Hm].
    intros Heq. apply (inj Some) in Heq. subst info. cbn. rewrite <- Hk. by apply Hm. }
  intros Hs. destruct e as [i j|i j]; cbn [Part000.step].
  - unfold Part000.click.
    destruct (Part000.cellMap s !! cellKey i j) as [info|] eqn:Hinfo; [|exact Hs].
    destruct (negb (Part000.canInteract i j)); [exact Hs|].
    destruct (Part000.heldToken s) as [h|], (Part000.value info) as [v|];
      cbn [fst Part000.cellMap]; try exact Hs; try (by apply Hupd).
    destruct (Qeq_bool v h); cbn [fst Part000.cellMap]; [by apply Hupd|exact Hs].
  - unfold Part000.pick.
    destruct (Part000.cellMap s !! cellKey i j) as [c|] eqn:Hc; [|exact Hs].
    destruct (Part000.heldToken s), (Part000.value c); try exact Hs.
    destruct (Part000.canInteract i j); cbn [snd Part000.cellMap];
      [by apply Hupd|exact Hs].
Qed.

(** X22: every entry of [cellMap] sits under the key of its own
    coordinates.  In each state reached from start-up, in part_000 and in
    main.ts, the info stored under a key carries the coordinates (i, j) the
    key was built from; with the injectivity of [cellKey], the entry found
    under [cellKey i j] is the info of cell (i, j) and of no other cell. *)
Theorem entries_sit_under_their_own_key :
  (∀ luck geo es i j info,
     Part000.cellMap (foldl (λ st ev, Part000.step ev st)
                            (Part000.startup luck geo) es) !! cellKey i j
     = Some info →
     Part000.i info = i ∧ Part000.j info = j) ∧
  (∀ geo e es i j info,
     MainTs.cellMap (foldl (λ st ev, MainTs.step ev st)
                           (MainTs.startup geo e) es) !! cellKey i j
     = Some info →
     MainTs.i info = i ∧ MainTs.j info = j).
Proof.
  split.
  - intros luck geo es i j info.
    assert (keyed_000 (Part000.cellMap (Part000.startup luck geo))) as H0.
    { unfold Part000.startup. rewrite renderGrid_eq_000.
      apply renderEach_keyed_000. intros k x. cbn [Part000.cellMap].
      by rewrite lookup_empty. }
    revert H0. generalize (Part000.startup luck geo). intros s Hs.
    assert (keyed_000 (Part000.cellMap (foldl (λ st ev, Part000.step ev st) s es))) as Hk.
    { revert s Hs. induction es as [|e es IH]; intros s Hs; [exact Hs|].
      cbn [foldl]. apply IH. by apply step_keyed_000. }
    intros Hinfo. apply Hk in Hinfo.
    apply cellKey_inj in Hinfo. destruct Hinfo as [-> ->]. done.
  - intros geo e es i j info.
    assert (keyed_main (MainTs.cellMap (MainTs.startup geo e))) as H0.
    { unfold MainTs.startup. cbv zeta. apply renderVisibleCells_keyed_main.
      intros k x. cbn [MainTs.cellMap]. by rewrite lookup_empty. }
    pose proof (reachable_keyed_main es _ H0) as Hk.
    revert Hk. generalize (foldl (λ st ev, MainTs.step ev st) (MainTs.startup geo e) es).
    intros s Hk Hinfo. apply Hk in Hinfo.
    apply cellKey_inj in Hinfo. destruct Hinfo as [-> ->]. done.
Qed.

Lemma entries_sit_under_their_own_key_witness :
  Part000.i (Part000.mkCellInfo 0 0 (Part000.initialValue (λ _, 1 # 2) 0 0)) = 0 ∧
  Part000.j (Part000.mkCellInfo 0 0 (Part000.initialValue (λ _, 1 # 2) 0 0)) = 0.
Proof.
  apply (proj1 entries_sit_under_their_own_key (λ _, 1 # 2) None [] 0 0).
  cbn [foldl]. unfold Part000.startup.
  rewrite renderGrid_eq_000, renderEach_lookup_000.
  rewrite decide_True; [reflexivity|].
  apply elem_of_windowCells. cbn. unfold Part000.RENDER_RADIUS. lia.
Defined.

(** ** One rectangle per cell of the window *)

Lemma remove_readd (x : Cell) (l : list Cell) :
  NoDup l → x ∈ l → remove Cell_eq_dec x l ++ [x] ≡ₚ l.
Proof.
  intros Hnd Hx. rewrite Permutation_app_comm. cbn [app].
  induction Hnd as [|a l Ha Hnd IH]; [by apply elem_of_nil in Hx|].
  cbn [remove]. destruct (Cell_eq_dec x a) as [->|Hne].
  - rewrite notin_remove; [done|]. intros Hin. apply Ha. by apply list_elem_of_In.
  - apply elem_of_cons in Hx as [Hx|Hx]; [done|].
    rewrite Permutation_swap. f_equiv. by apply IH.
Qed.

Module Shown002.
Import Part002 Part002Facts Rendered002.

(** The rectangles on the map are those of the window's cells. *)
Definition shown (s : state) : Prop :=
  layers s ≡ₚ windowCells (playerCell s) RENDER_RADIUS.

Lemma interact_layers_002 i j t s : layers (interact i j t s) = layers s.
Proof.
  unfold interact. destruct (heldToken s) as [h|], t as [v|]; cbn; try done.
  by destruct (Qeq_bool v h).
Qed.

Lemma click_layers_002 i j s :
  canInteract i j s = true →
  layers (click i j s) = remove Cell_eq_dec (mkCell i j) (layers s) ++ [mkCell i j].
Proof.
  intros Hin. unfold click. rewrite Hin. cbn [negb].
  pose proof (getCellToken_decided_002 i j s) as Hdec.
  destruct (getCellToken_frame_002 i j s) as (_ & _ & _ & _ & _ & Hl).
  destruct (getCellToken i j s) as [t s1]. cbn [fst snd] in Hdec, Hl. cbv zeta.
  assert (is_Some (modifiedCells (interact i j t s1) !! cellKey i j)) as Hc.
  { apply interact_decided_002. by eexists. }
  destruct (checkVictory_frame_002 (interact i j t s1))
    as (_ & _ & _ & _ & Hv & _ & Hvl).
  rewrite <- Hv in Hc.
  rewrite renderCell_hit_002 by exact Hc.
  cbn [layers set_layers]. by rewrite Hvl, interact_layers_002, Hl.
Qed.

Lemma shown_renderVisibleCells_002 s : shown (renderVisibleCells s).
Proof.
  unfold shown. rewrite playerCell_renderVisibleCells_002.
  by destruct (renderVisibleCells_frame_002 s) as (_ & _ & _ & _ & _ & ->).
Qed.

Lemma step_shown_002 e s : shown s → shown (step e s).
Proof.
  intros Hs. destruct e as [i j|center|]; cbn [step].
  - destruct (canInteract i j s) eqn:Hin.
    + unfold shown in *. rewrite playerCell_click_002, click_layers_002 by done.
      etrans; [|exact Hs]. apply remove_readd.
      * rewrite Hs. apply NoDup_windowCells.
      * rewrite Hs. apply elem_of_windowCells.
        apply within_interact_render in Hin. unfold within in Hin.
        apply andb_true_iff in Hin as [H1 H2].
        apply bool_decide_eq_true in H1, H2. done.
    + by rewrite click_out_of_range_002.
  - apply shown_renderVisibleCells_002.
  - apply shown_renderVisibleCells_002.
Qed.

Lemma reachable_shown_002 geo e es :
  shown (foldl (λ st ev, step ev st) (startup geo e) es).
Proof.
  assert (shown (startup geo e)) as H0 by apply shown_renderVisibleCells_002.
  revert H0. generalize (startup geo e). intros s Hs. revert s Hs.
  induction es as [|ev es IH]; intros s Hs; [exact Hs|].
  cbn [foldl]. apply IH. by apply step_shown_002.
Qed.

End Shown002.

Module Shown001.
Import Part001 Part001Facts Rendered001.

(** The rectangles on the map are those of the window's cells. *)
Definition shown (s : state) : Prop :=
  layers s ≡ₚ windowCells (playerCell s) RENDER_RADIUS.

Lemma interact_layers_001 i j t s : layers (interact i j t s) = layers s.
Proof.
  unfold interact. destruct (heldToken s) as [h|], t as [v|]; cbn; try done.
  by destruct (Qeq_bool v h).
Qed.

Lemma click_layers_001 i j s :
  canInteract i j s = true →
  layers (click i j s) = remove Cell_eq_dec (mkCell i j) (layers s) ++ [mkCell i j].
Proof.
  intros Hin. unfold click. rewrite Hin. cbn [negb].
  pose proof (getCellToken_decided_001 i j s) as Hdec.
  destruct (getCellToken_frame_001 i j s) as (_ & _ & _ & _ & _ & Hl).
  destruct (getCellToken i j s) as [t s1]. cbn [fst snd] in Hdec, Hl. cbv zeta.
  assert (is_Some (modifiedCells (interact i j t s1) !! cellKey i j)) as Hc.
  { apply interact_decided_001. by eexists. }
  destruct (checkVictory_frame_001 (interact i j t s1))
    as (_ & _ & _ & _ & Hv & _ & Hvl).
  rewrite <- Hv in Hc.
  rewrite renderCell_hit_001 by exact Hc.
  cbn [layers set_layers saveGameState set_localStorage].
  by rewrite Hvl, interact_layers_001, Hl.
Qed.

Lemma shown_saved_render_001 s : shown (saveGameState (renderVisibleCells s)).
Proof.
  unfold shown, playerCell.
  destruct (saveGameState_frame_001 (renderVisibleCells s))
    as (-> & -> & _ & _ & _ & _ & _ & _ & ->).
  by destruct (renderVisibleCells_frame_001 s) as (-> & -> & _ & _ & _ & ->).
Qed.

Lemma toggle_layers_001 s : layers (toggleMovementMode s) = layers s.
Proof. unfold toggleMovementMode. by destruct (movementMode s). Qed.

Lemma step_shown_001 e s : shown s → shown (step e s).
Proof.
  intros Hs. destruct e as [i j|center|pos| |]; cbn [step].
  - destruct (canInteract i j s) eqn:Hin.
    + unfold shown in *. rewrite playerCell_click_001, click_layers_001 by done.
      etrans; [|exact Hs]. apply remove_readd.
      * rewrite Hs. apply NoDup_windowCells.
      * rewrite Hs. apply elem_of_windowCells.
        apply within_interact_render in Hin. unfold within in Hin.
        apply andb_true_iff in Hin as [H1 H2].
        apply bool_decide_eq_true in H1, H2. done.
    + by rewrite click_out_of_range_001.
  - destruct (moveend_cases_001 center s) as [->| ->]; [exact Hs|].
    apply shown_saved_render_001.
  - apply shown_saved_render_001.
  - unfold shown, playerCell.
    destruct (toggle_position_001 s) as (-> & ->).
    rewrite toggle_layers_001. exact Hs.
  - apply shown_saved_render_001.
Qed.

Lemma reachable_shown_001 es s :
  shown s → shown (foldl (λ st ev, step ev st) s es).
Proof.
  revert s. induction es as [|ev es IH]; intros s Hs; [exact Hs|].
  cbn [foldl]. apply IH. by apply step_shown_001.
Qed.

End Shown001.

(** X23: the map shows one rectangle per cell of the window.  In every
    state reached from start-up, in part_002 and part_001, the cell layers
    on the map are the 625 cells of the window around the player, each
    once: rendering the window replaces all of them, and a click takes the
    clicked cell's rectangle off the map before it renders the cell again. *)
Theorem one_rectangle_per_window_cell :
  (∀ geo e es,
     let s := foldl (λ st ev, Part002.step ev st) (Part002.startup geo e) es in
     Part002.layers s ≡ₚ windowCells (Part002.playerCell s) Part002.RENDER_RADIUS ∧
     NoDup (Part002.layers s) ∧ length (Part002.layers s) = 625%nat) ∧
  (∀ geo e disk s0 es,
     Part001.startup geo e disk = Some s0 →
     let s := foldl (λ st ev, Part001.step ev st) s0 es in
     Part001.layers s ≡ₚ windowCells (Part001.playerCell s) Part001.RENDER_RADIUS ∧
     NoDup (Part001.layers s) ∧ length (Part001.layers s) = 625%nat).
Proof.
  split.
  - intros geo e es. cbv zeta.
    pose proof (Shown002.reachable_shown_002 geo e es) as Hs.
    revert Hs. generalize (foldl (λ st ev, Part002.step ev st) (Part002.startup geo e) es).
    intros s Hs. unfold Shown002.shown in Hs.
    split; [exact Hs|]. rewrite Hs.
    split; [apply NoDup_windowCells|by rewrite length_windowCells].
  - intros geo e disk s0 es H0. cbv zeta.
    assert (Shown001.shown s0) as Hs0.
    { apply Rendered001.startup_shape_001 in H0 as (x & -> & _).
      apply Shown001.shown_saved_render_001. }
    pose proof (Shown001.reachable_shown_001 es s0 Hs0) as Hs.
    revert Hs. generalize (foldl (λ st ev, Part001.step ev st) s0 es).
    intros s Hs. unfold Shown001.shown in Hs.
    split; [exact Hs|]. rewrite Hs.
    split; [apply NoDup_windowCells|by rewrite length_windowCells].
Qed.

Lemma one_rectangle_per_window_cell_witness :
  ∃ s0, Part001.startup (Some origin0) calm NoItem = Some s0 ∧
        NoDup (Part001.layers (foldl (λ st ev, Part001.step ev st) s0
                                 [Part001.Click 0 0])).
Proof.
  eexists. split; [apply startup_fresh_001|].
  apply (proj2 one_rectangle_per_window_cell (Some origin0) calm NoItem).
  apply startup_fresh_001.
Defined.
